(** * Kaggle extension for VS Code: a shallow embedding and its properties

    The extension drives the Kaggle command-line tool.  This development
    embeds the pieces of logic the specification makes statements about:

    - [Csv]      [splitCsv], [isCsvWithRef] and [parseKernelsCsv]
                 (src/tree/myNotebooksProvider.ts);
    - [Shell]    [escapeShellArg] (kaggleCli.ts);
    - [Creds]    [getKaggleCreds] (kaggleCli.ts);
    - [Cli]      the process request built by [runKaggleCLI] (kaggleCli.ts);
    - [Project]  the read-modify-write of [kaggle.attachDataset] and
                 [kaggle.attachDatasetFromTree] (extension.ts);
    - [Submit]   URL extraction and [logRun] (extension.ts);
    - [Poll]     [pollAndDownload] (extension.ts);
    - [Runs]     [RunsProvider.getChildren] and [hasAnyRecentFile]
                 (tree/runsProvider.ts);
    - [Datasets], [Competitions], [Notebooks]
                 the three list views and the folder names of the
                 downloads (tree/*.ts, extension.ts);
    - [OutputFolder]  the folder the outputs are downloaded to
                 (extension.ts);
    - [Scaffold], [Init]  [initProject] (scaffold.ts);
    - [Sync]     the metadata assignments of [kaggle.pushRun] and
                 [kaggle.runCurrentNotebook] (extension.ts);
    - [Auth]     storing and clearing the token (kaggleCli.ts,
                 commands/authCommands.ts);
    - [History]  logs written by [logRun] (extension.ts).

    JavaScript strings are modelled as [string]: a character is an 8-bit
    code, which covers every character the code inspects (quotes, commas,
    white space, ASCII letters and digits); any other character only ever
    takes the branch of an ordinary character. *)

From Stdlib Require Import String Ascii List ZArith Bool Lia.
From stdpp Require Import gmap strings list fin_maps.
Import ListNotations.

Local Open Scope string_scope.
Local Open Scope list_scope.

(** Appending strings computes under [simpl] again. *)
#[global] Arguments String.append !s1 s2 : simpl nomatch.

(** ** JavaScript string primitives *)

Module Js.

(** A string is truthy when it is not empty. *)
Definition truthy (s : string) : bool :=
  match s with
  | EmptyString => false
  | String _ _ => true
  end.

(** [a || b] on strings. *)
Definition or_else (a b : string) : string := if truthy a then a else b.

(** [o || b] where [o] may be [undefined]. *)
Definition or_undef (o : option string) (b : string) : string :=
  match o with
  | Some a => or_else a b
  | None => b
  end.

(** [s + ch] *)
Definition snoc (s : string) (c : ascii) : string := s +:+ String c EmptyString.

(** White space as matched by [\s] and removed by [trim]: tab, line feed,
    vertical tab, form feed, carriage return, space and no-break space. *)
Definition isSpace (c : ascii) : bool :=
  let n := nat_of_ascii c in
  (((9 <=? n) && (n <=? 13)) || (n =? 32) || (n =? 160))%nat.

Definition isDigit (c : ascii) : bool :=
  let n := nat_of_ascii c in ((48 <=? n) && (n <=? 57))%nat.

Definition isUpper (c : ascii) : bool :=
  let n := nat_of_ascii c in ((65 <=? n) && (n <=? 90))%nat.

Definition isLower (c : ascii) : bool :=
  let n := nat_of_ascii c in ((97 <=? n) && (n <=? 122))%nat.

(** [\w] *)
Definition isWord (c : ascii) : bool :=
  isDigit c || isUpper c || isLower c || (c =? "_")%char.

(** [toLowerCase] on one character: the capitals of ASCII and the
    accented capitals of the 8-bit range have a lower-case form. *)
Definition lowerChar (c : ascii) : ascii :=
  let n := nat_of_ascii c in
  if isUpper c || ((192 <=? n) && (n <=? 222) && negb (n =? 215))%nat
  then ascii_of_nat (n + 32) else c.

Fixpoint toLowerCase (s : string) : string :=
  match s with
  | EmptyString => EmptyString
  | String c r => String (lowerChar c) (toLowerCase r)
  end.

Fixpoint trimStart (s : string) : string :=
  match s with
  | String c r => if isSpace c then trimStart r else s
  | EmptyString => EmptyString
  end.

(** Removes trailing white space: a character is dropped when it is white
    space and everything after it was dropped as well. *)
Fixpoint trimEnd (s : string) : string :=
  match s with
  | EmptyString => EmptyString
  | String c r =>
      match trimEnd r with
      | EmptyString => if isSpace c then EmptyString else String c EmptyString
      | r' => String c r'
      end
  end.

Definition trim (s : string) : string := trimEnd (trimStart s).

(** [s.replace(/c/g, '')] for a single character [c]. *)
Fixpoint removeAll (c : ascii) (s : string) : string :=
  match s with
  | EmptyString => EmptyString
  | String d r => if (d =? c)%char then removeAll c r else String d (removeAll c r)
  end.

(** [s.split(c)] for a one-character separator: never an empty array. *)
Fixpoint splitOn (c : ascii) (s : string) : list string :=
  match s with
  | EmptyString => [EmptyString]
  | String d r =>
      if (d =? c)%char then EmptyString :: splitOn c r
      else match splitOn c r with
           | h :: t => String d h :: t
           | [] => [String d EmptyString]
           end
  end.

(** [s.split(/\r?\n/)]: a line feed, or a carriage return immediately
    followed by a line feed, ends a line. *)
Fixpoint splitLines (s : string) : list string :=
  match s with
  | EmptyString => [EmptyString]
  | String c r =>
      let consC := fun rest => match rest with
                               | h :: t => String c h :: t
                               | [] => [String c EmptyString]
                               end in
      if (c =? "010")%char then EmptyString :: splitLines r
      else if (c =? "013")%char then
        match r with
        | String "010"%char r' => EmptyString :: splitLines r'
        | _ => consC (splitLines r)
        end
      else consC (splitLines r)
  end.

(** The line feed, as a character and as a string. *)
Definition lfChar : ascii := "010"%char.
Definition lf : string := String lfChar EmptyString.

(** [arr.join(sep)] *)
Fixpoint join (sep : string) (l : list string) : string :=
  match l with
  | [] => EmptyString
  | [x] => x
  | x :: t => x +:+ sep +:+ join sep t
  end.

(** [arr.indexOf(x)], with [None] for [-1]. *)
Fixpoint indexOf (x : string) (l : list string) : option nat :=
  match l with
  | [] => None
  | y :: t => if String.eqb y x then Some 0
              else match indexOf x t with
                   | Some i => Some (S i)
                   | None => None
                   end
  end.

(** [arr[i]], [None] for [undefined]. *)
Definition at_ (l : list string) (i : nat) : option string := nth_error l i.

End Js.

(** ** CSV parsing of the notebook list *)

Module Csv.

Definition dquote : ascii := ascii_of_nat 34.
Definition comma : ascii := ","%char.

(** The loop of [splitCsv]: [cur] is the field being read, [inQ] tells
    whether a quoted section is open, [out] holds the fields completed so
    far.  The [i++] of the doubled-quote branch is the recursive call on
    the text after the second quote. *)
Fixpoint splitCsvLoop (line cur : string) (inQ : bool) (out : list string)
  : list string :=
  match line with
  | EmptyString => out ++ [cur]
  | String ch rest =>
      if (ch =? dquote)%char then
        match inQ, rest with
        | true, String ch2 rest' =>
            if (ch2 =? dquote)%char
            then splitCsvLoop rest' (Js.snoc cur dquote) inQ out
            else splitCsvLoop rest cur (negb inQ) out
        | _, _ => splitCsvLoop rest cur (negb inQ) out
        end
      else if (ch =? comma)%char && negb inQ then
        splitCsvLoop rest EmptyString inQ (out ++ [cur])
      else splitCsvLoop rest (Js.snoc cur ch) inQ out
  end.

Fixpoint dropLastQuote (s : string) : string :=
  match s with
  | EmptyString => EmptyString
  | String c EmptyString => if (c =? dquote)%char then EmptyString else s
  | String c r => String c (dropLastQuote r)
  end.

(** The final [replace] of [splitCsv], whose pattern is a double quote at
    the start of the field or a double quote at its end: a quote at the
    start is removed, and a quote at the end of what is left is removed. *)
Definition stripEdgeQuotes (s : string) : string :=
  match s with
  | String c r => if (c =? dquote)%char then dropLastQuote r else dropLastQuote s
  | EmptyString => EmptyString
  end.

Definition splitCsv (line : string) : list string :=
  map stripEdgeQuotes (splitCsvLoop line EmptyString false []).

(** Standard CSV quoting, as the specification words it: a field that
    contains a comma or a quote is wrapped in double quotes and its quotes
    are doubled; the fields of a row are joined by commas.  This is the
    encoder [splitCsv] is compared with; it is not part of the extension. *)
Fixpoint hasChar (c : ascii) (s : string) : bool :=
  match s with
  | EmptyString => false
  | String d r => (d =? c)%char || hasChar c r
  end.

Fixpoint doubleQuotes (s : string) : string :=
  match s with
  | EmptyString => EmptyString
  | String c r =>
      if (c =? dquote)%char then String dquote (String dquote (doubleQuotes r))
      else String c (doubleQuotes r)
  end.

Definition encodeField (f : string) : string :=
  if hasChar comma f || hasChar dquote f
  then String dquote (doubleQuotes f +:+ String dquote EmptyString)
  else f.

Definition encodeRow (fields : list string) : string :=
  Js.join "," (map encodeField fields).

(** [s] between two literal quotes. *)
Definition quoted (s : string) : string :=
  String dquote (s +:+ String dquote EmptyString).

(** A field begins or ends with a literal quote. *)
Definition startsWithQuote (s : string) : bool :=
  match s with
  | String c _ => (c =? dquote)%char
  | EmptyString => false
  end.

Fixpoint endsWithQuote (s : string) : bool :=
  match s with
  | EmptyString => false
  | String c EmptyString => (c =? dquote)%char
  | String _ r => endsWithQuote r
  end.

Definition edgeQuoteFree (s : string) : bool :=
  negb (startsWithQuote s) && negb (endsWithQuote s).

(** Text that does not start with a quote: what follows a closing quote
    in an encoded row. *)
Definition noQuoteAhead (rest : string) : Prop :=
  startsWithQuote rest = false.

(** *** The notebook list *)

Record KernelItem := mkKernelItem { ref : string; url : string }.

Definition codeUrlBase : string := "https://www.kaggle.com/code/".

(** [\s*] at the start of the text. *)
Definition skipSpaces (s : string) : string := Js.trimStart s.

Definition eqCI (c lower : ascii) : bool := (Js.lowerChar c =? lower)%char.

(** The text after [(^|,)] continues with [\s*ref\s*(,|$)], letters in
    either case. *)
Definition refCellAt (s : string) : bool :=
  match skipSpaces s with
  | String r (String e (String f rest)) =>
      eqCI r "r" && eqCI e "e" && eqCI f "f" &&
      match skipSpaces rest with
      | EmptyString => true
      | String c _ => (c =? comma)%char
      end
  | _ => false
  end.

(** Tries the pattern after every comma of the text. *)
Fixpoint refCellAfterComma (s : string) : bool :=
  match s with
  | EmptyString => false
  | String c r => ((c =? comma)%char && refCellAt r) || refCellAfterComma r
  end.

Definition isCsvWithRef (csv : string) : bool :=
  let first := Js.or_undef (head (Js.splitLines csv)) EmptyString in
  refCellAt first || refCellAfterComma first.

Definition headersOf (header : string) : list string :=
  map (fun h => Js.toLowerCase (Js.removeAll dquote (Js.trim h)))
      (Js.splitOn comma header).

(** [cols[refIdx] || ''] *)
Definition rowRef (refIdx : nat) (line : string) : string :=
  Js.or_undef (Js.at_ (splitCsv line) refIdx) EmptyString.

(** [urlIdx >= 0 ? cols[urlIdx] || '' : ''] *)
Definition rowUrl (urlIdx : option nat) (line : string) : string :=
  match urlIdx with
  | Some u => Js.or_undef (Js.at_ (splitCsv line) u) EmptyString
  | None => EmptyString
  end.

(** The body of the [for] loop: the item pushed for a line, if any. *)
Definition rowItem (refIdx : nat) (urlIdx : option nat) (line : string)
  : option KernelItem :=
  let r := rowRef refIdx line in
  let u := rowUrl urlIdx line in
  let resolvedUrl := Js.or_else u (if Js.truthy r then codeUrlBase +:+ r else EmptyString) in
  if Js.truthy r then Some (mkKernelItem r resolvedUrl) else None.

(** [csv.split(/\r?\n/).filter(Boolean)] *)
Definition nonEmptyLines (csv : string) : list string :=
  filter (fun l => Is_true (Js.truthy l)) (Js.splitLines csv).

Definition parseKernelsCsv (csv : string) : list KernelItem :=
  match nonEmptyLines csv with
  | [] => []
  | header :: lines =>
      if negb (Js.truthy header) then []
      else
        let headers := headersOf header in
        match Js.indexOf "ref" headers with
        | None => []
        | Some refIdx => omap (rowItem refIdx (Js.indexOf "url" headers)) lines
        end
  end.

(** What [MyNotebooksProvider.getChildren] makes of the output of a
    successful listing. *)
Definition notebooksOfOutput (stdout : string) : list KernelItem :=
  let out := Js.trim stdout in
  if isCsvWithRef out then parseKernelsCsv out else [].

(** A listing of three data lines: one with an empty url, one with a url
    and one with an empty ref. *)
Definition sampleListing : string :=
  "ref,title,url" +:+ Js.lf +:+
  "alice/nb,First," +:+ Js.lf +:+
  "bob/x,Second,https://example.org/x" +:+ Js.lf +:+
  ",Third,https://example.org/none".

End Csv.

(** ** Shell quoting of command-line arguments *)

Module Shell.

(** [process.platform === 'win32'] or any other platform. *)
Inductive Platform := Win32 | Posix.

Definition dquote : ascii := Csv.dquote.
Definition squote : ascii := "'"%char.
Definition backslash : ascii := "\"%char.

(** [s.replace(/c/g, by)] for a single character [c] and a replacement
    text that holds no dollar sign. *)
Fixpoint replaceAll (c : ascii) (by_ : string) (s : string) : string :=
  match s with
  | EmptyString => EmptyString
  | String d r =>
      if (d =? c)%char then by_ +:+ replaceAll c by_ r
      else String d (replaceAll c by_ r)
  end.

(** The text that stands for one single quote on Unix: the quote is
    closed, an escaped quote follows, and the quote is opened again. *)
Definition unixQuoteEscape : string :=
  String squote (String backslash (String squote (String squote EmptyString))).

Definition winQuoteEscape : string :=
  String dquote (String dquote EmptyString).

Definition escapeShellArg (p : Platform) (arg : string) : string :=
  match p with
  | Win32 =>
      String dquote (replaceAll dquote winQuoteEscape arg +:+ String dquote EmptyString)
  | Posix =>
      String squote (replaceAll squote unixQuoteEscape arg +:+ String squote EmptyString)
  end.

(** [args.map(escapeShellArg).join(' ')] *)
Definition escapedArgs (p : Platform) (args : list string) : string :=
  Js.join " " (map (escapeShellArg p) args).

(** *** The tokenizers the escaping is read back with

    The shells are not part of the extension; the two tokenizers below
    model the quoting conventions the escaping is written for. *)

Definition isBlank (c : ascii) : bool :=
  (c =? " ")%char || (c =? "009")%char || (c =? "010")%char.

(** The word in progress with one more character. *)
Definition push (cur : option string) (c : ascii) : option string :=
  match cur with
  | Some w => Some (Js.snoc w c)
  | None => Some (String c EmptyString)
  end.

(** The word in progress, started if it was not. *)
Definition started (cur : option string) : option string :=
  match cur with
  | Some w => Some w
  | None => Some EmptyString
  end.

Definition flush (cur : option string) (rest : option (list string))
  : option (list string) :=
  match cur, rest with
  | Some w, Some ws => Some (w :: ws)
  | None, Some ws => Some ws
  | _, None => None
  end.

(** Characters that carry a meaning of their own when they stand unquoted
    in a POSIX shell command: operators, expansions, patterns, comments. *)
Definition isShSpecial (c : ascii) : bool :=
  Csv.hasChar c "|&;<>()$`*?[#~=%!{}" || (c =? dquote)%char.

Inductive ShMode := ShPlain | ShSingle.

(** Modelled from the spec: the shell-argument tokenizer of the Unix
    quoting convention (single-quote escaping), which is not in the
    repository.  It follows the POSIX shell: blanks separate words; between
    single quotes every character is literal; outside quotes a backslash
    makes the next character literal (and removes a following line feed);
    quoted and unquoted pieces that touch form one word.  [None] stands for
    a command this model does not read: an open quote at the end, a
    trailing backslash, or an unquoted character with a meaning of its own. *)
Fixpoint shTokens (s : string) (mode : ShMode) (cur : option string)
  : option (list string) :=
  match s with
  | EmptyString =>
      match mode with
      | ShSingle => None
      | ShPlain => flush cur (Some [])
      end
  | String c r =>
      match mode with
      | ShSingle =>
          if (c =? squote)%char then shTokens r ShPlain cur
          else shTokens r ShSingle (push cur c)
      | ShPlain =>
          if isBlank c then flush cur (shTokens r ShPlain None)
          else if (c =? squote)%char then shTokens r ShSingle (started cur)
          else if (c =? backslash)%char then
            match r with
            | String d r' =>
                if (d =? "010")%char then shTokens r' ShPlain cur
                else shTokens r' ShPlain (push cur d)
            | EmptyString => None
            end
          else if isShSpecial c then None
          else shTokens r ShPlain (push cur c)
      end
  end.

(** Characters with a meaning of their own when they stand unquoted in a
    Windows command line. *)
Definition isCmdSpecial (c : ascii) : bool :=
  Csv.hasChar c "&|<>^()%!".

(** Modelled from the spec: the shell-argument tokenizer of the Windows
    quoting convention (double-quote doubling), which is not in the
    repository.  Blanks separate words; a double quote opens a quoted
    section, in which two double quotes in a row stand for one literal
    double quote and a single one closes the section; pieces that touch
    form one word.  Expansion of percent-delimited variables inside quotes
    and the backslash rules of the C runtime are not part of this
    convention.  [None] stands for a command this model does not read. *)
Fixpoint winTokens (s : string) (inQ : bool) (cur : option string)
  : option (list string) :=
  match s with
  | EmptyString => if inQ then None else flush cur (Some [])
  | String c r =>
      if inQ then
        if (c =? dquote)%char then
          match r with
          | String d r' =>
              if (d =? dquote)%char then winTokens r' true (push cur dquote)
              else winTokens r false cur
          | EmptyString => winTokens r false cur
          end
        else winTokens r true (push cur c)
      else if isBlank c then flush cur (winTokens r false None)
      else if (c =? dquote)%char then winTokens r true (started cur)
      else if isCmdSpecial c then None
      else winTokens r false (push cur c)
  end.

Definition tokenize (p : Platform) (cmd : string) : option (list string) :=
  match p with
  | Win32 => winTokens cmd false None
  | Posix => shTokens cmd ShPlain None
  end.

End Shell.

(** ** Credentials *)

Module Creds.

(** The value [JSON.parse] returns.  A number is modelled by an integer:
    the code only tests whether it is zero.  The members of an object
    are listed in the order of the text. *)
#[warnings="-register-all"]
Inductive Json :=
| JNull
| JBool (b : bool)
| JNum (n : Z)
| JStr (s : string)
| JArr (items : list Json)
| JObj (members : list (string * Json)).

(** JavaScript truthiness: [null], [false], zero and the empty string are
    falsy, everything else (every array and object included) is truthy. *)
Definition jsTruthy (v : Json) : bool :=
  match v with
  | JNull => false
  | JBool b => b
  | JNum n => negb (n =? 0)%Z
  | JStr s => Js.truthy s
  | JArr _ => true
  | JObj _ => true
  end.

(** The member an object ends up with for a name: the last one of the
    text wins. *)
Fixpoint lookupLast (k : string) (ms : list (string * Json)) : option Json :=
  match ms with
  | [] => None
  | (k', v) :: r =>
      match lookupLast k r with
      | Some v' => Some v'
      | None => if String.eqb k' k then Some v else None
      end
  end.

(** [obj?.k] for [k] one of [username] and [key]: [undefined] on [null],
    on a boolean, a number, a string or an array. *)
Definition prop (obj : Json) (k : string) : option Json :=
  match obj with
  | JObj ms => lookupLast k ms
  | _ => None
  end.

(** What [getKaggleCreds] returns: the two values as they were found, a
    string when they come from the two discrete variables. *)
Record Credentials := mkCreds { username : Json; key : Json }.

Inductive CredsResult :=
| Ok (c : Credentials)
| NoCredentials.

Definition KAGGLE_TOKEN_JSON : string := "KAGGLE_TOKEN_JSON".
Definition KAGGLE_USERNAME : string := "KAGGLE_USERNAME".
Definition KAGGLE_KEY : string := "KAGGLE_KEY".

Section WithParser.

(** [JSON.parse], with [None] when it throws. *)
Variable JSON_parse : string -> option Json.

(** Steps 1 and 2 of [getKaggleCreds] on the text of one source
    ([None] when the source is [undefined]): the [if (raw)] guard, the
    parse inside [try], and the test of the two fields. *)
Definition credsOfJson (raw : option string) : option Credentials :=
  match raw with
  | None => None
  | Some text =>
      if Js.truthy text then
        match JSON_parse text with
        | Some obj =>
            match prop obj "username", prop obj "key" with
            | Some u, Some k =>
                if jsTruthy u && jsTruthy k then Some (mkCreds u k) else None
            | _, _ => None
            end
        | None => None
        end
      else None
  end.

(** Step 3: the two discrete variables. *)
Definition credsOfEnvPair (env : gmap string string) : option Credentials :=
  match env !! KAGGLE_USERNAME, env !! KAGGLE_KEY with
  | Some u, Some k =>
      if Js.truthy u && Js.truthy k then Some (mkCreds (JStr u) (JStr k)) else None
  | _, _ => None
  end.

(** [secret] is what [context.secrets.get] resolves to, [env] is
    [process.env]. *)
Definition getKaggleCreds (secret : option string) (env : gmap string string)
  : CredsResult :=
  match credsOfJson secret with
  | Some c => Ok c
  | None =>
      match credsOfJson (env !! KAGGLE_TOKEN_JSON) with
      | Some c => Ok c
      | None =>
          match credsOfEnvPair env with
          | Some c => Ok c
          | None => NoCredentials
          end
      end
  end.

(** The specification's reading of a source.  A JSON source yields a pair
    when its text is there, is not empty, parses, and holds both fields
    with non-empty (truthy) values. *)
Definition jsonYields (raw : option string) (c : Credentials) : Prop :=
  exists text obj,
    raw = Some text /\ text <> EmptyString /\ JSON_parse text = Some obj /\
    prop obj "username" = Some (username c) /\ prop obj "key" = Some (key c) /\
    jsTruthy (username c) = true /\ jsTruthy (key c) = true.

(** The pair of discrete variables yields a pair when both are set and
    not empty. *)
Definition envPairYields (env : gmap string string) (c : Credentials) : Prop :=
  exists u k,
    env !! KAGGLE_USERNAME = Some u /\ env !! KAGGLE_KEY = Some k /\
    u <> EmptyString /\ k <> EmptyString /\ c = mkCreds (JStr u) (JStr k).

End WithParser.

(** A parser for examples: it knows one text, the token of user bob. *)
Definition bobToken : string :=
  "{" +:+ Csv.quoted "username" +:+ ":" +:+ Csv.quoted "bob" +:+ "," +:+
  Csv.quoted "key" +:+ ":" +:+ Csv.quoted "k1" +:+ "}".

Definition bobOnlyParser (text : string) : option Json :=
  if String.eqb text bobToken
  then Some (JObj [("username", JStr "bob"); ("key", JStr "k1")])
  else None.

End Creds.

(** ** Running the command-line tool *)

Module Cli.
Import Creds.

(** The options [exec] is called with. *)
Record ExecOptions := mkOptions { cwd : option string; env : gmap string Json }.

(** The request [runKaggleCLI] hands to [exec], and the line it echoes
    to the output channel. *)
Record Spawn := mkSpawn { command : string; options : ExecOptions; echoed : string }.

Inductive CliOutcome :=
| CliUnavailable
| CliNoCredentials
| Spawned (req : Spawn).

Definition commandLine (cliPath : string) (p : Shell.Platform) (args : list string)
  : string :=
  cliPath +:+ " " +:+ Shell.escapedArgs p args.

(** [{ ...process.env, KAGGLE_USERNAME: creds.username, KAGGLE_KEY: creds.key }] *)
Definition spawnEnv (processEnv : gmap string string) (creds : Credentials)
  : gmap string Json :=
  <[KAGGLE_KEY := key creds]>
    (<[KAGGLE_USERNAME := username creds]> (JStr <$> processEnv)).

Section WithParser.
Variable JSON_parse : string -> option Json.

(** [available] is the result of the version probe of [checkKaggleCLI]. *)
Definition runKaggleCLI (available : bool) (cliPath : string) (p : Shell.Platform)
    (secret : option string) (processEnv : gmap string string)
    (args : list string) (workDir : option string) : CliOutcome :=
  if negb available then CliUnavailable
  else
    match getKaggleCreds JSON_parse secret processEnv with
    | NoCredentials => CliNoCredentials
    | Ok creds =>
        Spawned (mkSpawn (commandLine cliPath p args)
                         (mkOptions workDir (spawnEnv processEnv creds))
                         ("$ " +:+ cliPath +:+ " " +:+ Js.join " " args))
    end.

End WithParser.

(** [hay.includes(needle)] *)
Fixpoint startsWith (needle hay : string) : bool :=
  match needle, hay with
  | EmptyString, _ => true
  | String a n, String b h => (a =? b)%char && startsWith n h
  | String _ _, EmptyString => false
  end.

Fixpoint includes (needle hay : string) : bool :=
  startsWith needle hay ||
  match hay with
  | EmptyString => false
  | String _ h => includes needle h
  end.

(** The environment of a user whose credentials are in the two discrete
    variables. *)
Definition bobEnv : gmap string string :=
  {[ KAGGLE_USERNAME := "bob"; KAGGLE_KEY := "k1"; "PATH" := "/usr/bin" ]}.

End Cli.

(** ** The project descriptor and attaching a dataset *)

Module Project.

Inductive Accelerator := AccNone | AccGpu | AccTpu.
Inductive Privacy := Private | Public.

Record Outputs := mkOutputs { download_to : option string }.

(** [interface KaggleYml].  Every field may be missing: the commands
    read the file as [yaml.load(...) || {}]. *)
Record KaggleYml := mkYml {
  project : option string;
  kernel_slug : option string;
  code_file : option string;
  accelerator : option Accelerator;
  internet : option bool;
  privacy : option Privacy;
  datasets : option (list string);
  competitions : option (list string);
  outputs : option Outputs
}.

(** [{}] *)
Definition emptyYml : KaggleYml :=
  mkYml None None None None None None None None None.

Definition inList (x : string) (l : list string) : bool :=
  existsb (String.eqb x) l.

(** Adding the elements of an array to a [Set] one after the other: an
    element already in the set is skipped, a new one goes last. *)
Fixpoint setAddAll (seen l : list string) : list string :=
  match l with
  | [] => seen
  | x :: r => setAddAll (if inList x seen then seen else seen ++ [x]) r
  end.

(** [Array.from(new Set(l))] *)
Definition arrayFromSet (l : list string) : list string := setAddAll [] l.

(** [arr || []] for an array that may be missing. *)
Definition orEmpty (arr : option (list string)) : list string :=
  match arr with
  | Some l => l
  | None => []
  end.

(** [yml.datasets = Array.from(new Set([...(yml.datasets || []), ds]))]:
    the assignment changes the one property [datasets]. *)
Definition attachSlug (yml : KaggleYml) (ds : string) : KaggleYml :=
  {| project := project yml;
     kernel_slug := kernel_slug yml;
     code_file := code_file yml;
     accelerator := accelerator yml;
     internet := internet yml;
     privacy := privacy yml;
     datasets := Some (arrayFromSet (orEmpty (datasets yml) ++ [ds]));
     competitions := competitions yml;
     outputs := outputs yml |}.

(** What a command shows when it ends. *)
Inductive Notice :=
| Silent
| Info (msg : string)
| Failure.

Section WithYaml.

(** The text of [kaggle.yml].  [yaml_load] is [yaml.load]: [None] when it
    throws, [Some None] for a document with no content; [yaml_dump] is
    [yaml.dump]. *)
Context {Text : Type}.
Variable yaml_load : Text -> option (option KaggleYml).
Variable yaml_dump : KaggleYml -> Text.

(** [(yaml.load(await fs.promises.readFile(ymlPath, 'utf8')) || {})], with
    [None] when the file is missing or is not YAML. *)
Definition loadYml (file : option Text) : option KaggleYml :=
  match file with
  | None => None
  | Some text =>
      match yaml_load text with
      | None => None
      | Some (Some yml) => Some yml
      | Some None => Some emptyYml
      end
  end.

(** The read-modify-write both commands end with. *)
Definition attachToFile (ds : string) (file : option Text)
  : option Text * Notice :=
  match loadYml file with
  | None => (file, Failure)
  | Some yml =>
      (Some (yaml_dump (attachSlug yml ds)), Info ("Attached dataset: " +:+ ds))
  end.

(** [kaggle.attachDataset]: [hasRoot] tells whether a folder is open,
    [input] is the answer of the input box, [file] the content of
    [kaggle.yml] if the file is there. *)
Definition attachDataset (hasRoot : bool) (input : option string)
    (file : option Text) : option Text * Notice :=
  if negb hasRoot then (file, Failure)
  else
    match input with
    | None => (file, Silent)
    | Some ds => if Js.truthy ds then attachToFile ds file else (file, Silent)
    end.

(** [kaggle.attachDatasetFromTree]: [itemRef] is [item?.ref]; when the
    file is missing the user is asked ([create] is the answer) and
    [initProject] runs, leaving [initialized] as the content of the file
    ([None] when it stopped before writing). *)
Definition attachDatasetFromTree (hasRoot : bool) (itemRef : option string)
    (create : bool) (initialized : option Text) (file : option Text)
  : option Text * Notice :=
  match itemRef with
  | None => (file, Silent)
  | Some ds =>
      if negb (Js.truthy ds) then (file, Silent)
      else if negb hasRoot then (file, Failure)
      else
        match file with
        | Some _ => attachToFile ds file
        | None => if create then attachToFile ds initialized else (file, Silent)
        end
  end.

End WithYaml.

(** One entry for the slug: the number of entries equal to it. *)
Definition entriesFor (ds : string) (yml : KaggleYml) : nat :=
  count_occ string_dec (orEmpty (datasets yml)) ds.

(** A descriptor for examples. *)
Definition irisProject : KaggleYml :=
  {| project := Some "iris";
     kernel_slug := Some "alice/iris";
     code_file := Some "notebook.ipynb";
     accelerator := Some AccGpu;
     internet := Some true;
     privacy := Some Private;
     datasets := Some ["alice/iris"; "bob/wine"; "alice/iris"];
     competitions := Some ["titanic"];
     outputs := Some (mkOutputs (Some ".kaggle-outputs")) |}.

(** A codec for examples: the text of the file is the descriptor. *)
Definition idLoad (y : KaggleYml) : option (option KaggleYml) := Some (Some y).
Definition idDump (y : KaggleYml) : KaggleYml := y.

End Project.

(** ** Recording a submitted run *)

Module Submit.

(** [ExecResult] *)
Record ExecResult := mkResult { code : Z; stdout : string; stderr : string }.

(** The character class of the path in the pattern: a word character, a
    hyphen or a slash. *)
Definition isUrlChar (c : ascii) : bool :=
  Js.isWord c || (c =? "-")%char || (c =? "/")%char.

(** The longest run of path characters at the start of a text, and the
    text after it. *)
Fixpoint spanUrlChars (s : string) : string * string :=
  match s with
  | EmptyString => (EmptyString, EmptyString)
  | String c r =>
      if isUrlChar c
      then let (run, rest) := spanUrlChars r in (String c run, rest)
      else (EmptyString, s)
  end.

(** The text after a literal prefix, if the text starts with it. *)
Fixpoint stripPrefix (pre s : string) : option string :=
  match pre, s with
  | EmptyString, _ => Some s
  | String a p, String b r => if (a =? b)%char then stripPrefix p r else None
  | String _ _, EmptyString => None
  end.

Definition hostPart : string := "://www.kaggle.com/".

(** The rest of the pattern once the scheme is read: the host, then one
    or more path characters, as many as there are. *)
Definition hostAndPath (scheme rest : string) : option string :=
  match stripPrefix hostPart rest with
  | Some body =>
      let (path, _) := spanUrlChars body in
      if Js.truthy path then Some (scheme +:+ hostPart +:+ path) else None
  | None => None
  end.

(** The pattern of the run URL (the scheme with or without its final s,
    the Kaggle host, a path) tried at the start of the text.  The optional
    letter is tried first and left out if the rest then fails. *)
Definition kaggleUrlAt (s : string) : option string :=
  match stripPrefix "http" s with
  | None => None
  | Some r0 =>
      match r0 with
      | String "s"%char r1 =>
          match hostAndPath "https" r1 with
          | Some u => Some u
          | None => hostAndPath "http" r0
          end
      | _ => hostAndPath "http" r0
      end
  end.

(** [text.match(pattern)]: the pattern is tried at every position from
    the left; [None] is [null]. *)
Fixpoint firstKaggleUrl (text : string) : option string :=
  match kaggleUrlAt text with
  | Some u => Some u
  | None =>
      match text with
      | EmptyString => None
      | String _ r => firstKaggleUrl r
      end
  end.

(** The line [logRun] writes, [ts] being [new Date().toISOString()]. *)
Definition runRecord (ts url : string) : string :=
  ts +:+ " | " +:+ url +:+ Js.lf.

(** [fs.promises.appendFile]: the file is created when it is missing. *)
Definition appendFile (file : option string) (data : string) : option string :=
  match file with
  | Some old => Some (old +:+ data)
  | None => Some data
  end.

Definition logRun (ts : string) (log : option string) (url : string)
  : option string :=
  appendFile log (runRecord ts url).

(** The steps of [kaggle.runCurrentNotebook] and [kaggle.pushRun] that
    follow a push that succeeded with result [res]: the run log afterwards
    and the URL, if one was found. *)
Definition recordPush (ts : string) (res : ExecResult) (log : option string)
  : option string * option string :=
  match firstKaggleUrl (stdout res) with
  | Some u => ((if Js.truthy u then logRun ts log u else log), Some u)
  | None => (log, None)
  end.

(** How [kaggle.pushRun] ends. *)
Inductive PushReport :=
| RunTriggered (url : string)
| PushFinished
| PushFailed.

(** [kaggle.pushRun] from the push on: [pushed] is the result of
    [runKaggleCLI], [None] when it was rejected. *)
Definition pushRun (ts : string) (pushed : option ExecResult) (log : option string)
  : option string * PushReport :=
  match pushed with
  | None => (log, PushFailed)
  | Some res =>
      match recordPush ts res log with
      | (log', Some u) => (log', if Js.truthy u then RunTriggered u else PushFinished)
      | (log', None) => (log', PushFinished)
      end
  end.

(** The language of the pattern, in words: a scheme, the host, and a
    path of one or more path characters. *)
Fixpoint allUrlChars (s : string) : bool :=
  match s with
  | EmptyString => true
  | String c r => isUrlChar c && allUrlChars r
  end.

Definition IsKaggleUrl (u : string) : Prop :=
  exists scheme path,
    (scheme = "http" \/ scheme = "https") /\
    u = scheme +:+ hostPart +:+ path /\
    path <> EmptyString /\ allUrlChars path = true.

(** [u] is the match of the pattern in [text]: it stands at the leftmost
    position where a match starts and is the longest match there. *)
Definition FirstMatch (text u : string) : Prop :=
  exists before after,
    text = before +:+ u +:+ after /\ IsKaggleUrl u /\
    (forall before' u' after',
        text = before' +:+ u' +:+ after' -> IsKaggleUrl u' ->
        String.length before <= String.length before') /\
    (forall u' after',
        u +:+ after = u' +:+ after' -> IsKaggleUrl u' ->
        String.length u' <= String.length u).

(** No path character follows: where the longest run of them ends. *)
Definition noUrlCharAhead (s : string) : Prop :=
  match s with
  | EmptyString => True
  | String c _ => isUrlChar c = false
  end.

(** The pattern matches nowhere in the text. *)
Definition NoMatchIn (text : string) : Prop :=
  forall before u after, text = before +:+ u +:+ after -> ~ IsKaggleUrl u.

(** The number of occurrences of a character. *)
Fixpoint countChar (c : ascii) (s : string) : nat :=
  match s with
  | EmptyString => 0
  | String d r => (if (d =? c)%char then 1 else 0) + countChar c r
  end.

(** The text the specification scans. *)
Definition combinedOutput (res : ExecResult) : string :=
  stdout res +:+ stderr res.

(** A push whose message went to the error stream. *)
Definition urlOnStderr : ExecResult :=
  mkResult 0 EmptyString
    "Your job can be viewed at https://www.kaggle.com/code/bob/my-run here".

Definition urlOnStdout : ExecResult :=
  mkResult 0
    "Your job can be viewed at https://www.kaggle.com/code/bob/my-run here"
    EmptyString.

End Submit.

(** ** Waiting for the outputs of a run *)

Module Poll.

(** What one attempt of the loop runs into. *)
Inductive Fetch :=
| FetchFailed                       (* [runKaggleCLI] rejects *)
| ListingFailed                     (* [readdir] throws *)
| Listed (items : list string).     (* the names found in the folder *)

(** One attempt as the environment plays it: the outcome, the time the
    fetch and the listing take, and how late the timer of the pause fires
    after the delay it was set to, both in milliseconds. *)
Record Attempt := mkAttempt {
  fetch : Fetch;
  fetchMs : N;
  timerLateMs : N
}.

(** The environment of a polling session: its attempts, counted from 0. *)
Definition World := nat -> Attempt.

Inductive PollResult :=
| Complete (attempts : nat)
| TimedOut (attempts : nat).

(** [Math.max(1000, intervalSeconds * 1000)] *)
Definition pauseMs (intervalSeconds : Z) : Z :=
  Z.max 1000 (intervalSeconds * 1000).

(** The largest delay a timer takes. *)
Definition TIMEOUT_MAX : Z := 2147483647.

(** The delay [setTimeout] works with: a delay that is not between 1 ms
    and [TIMEOUT_MAX] is replaced by 1 ms. *)
Definition timerMs (delay : Z) : Z :=
  if ((1 <=? delay) && (delay <=? TIMEOUT_MAX))%Z then delay else 1.

(** [items.length > 0] after a fetch that did not throw. *)
Definition outputsSeen (a : Attempt) : bool :=
  match fetch a with
  | Listed (_ :: _) => true
  | _ => false
  end.

(** The [while] loop.  [k] attempts were made so far and [elapsed] is
    [Date.now() - start] at this test of the condition.  A fetch or a
    listing that throws is caught and the loop goes on to the pause, which
    lasts as long as the delay its timer works with and as much longer as
    the timer is late. *)
Fixpoint pollLoop (fuel : nat) (w : World) (intervalSeconds timeoutSeconds : Z)
    (k : nat) (elapsed : Z) : option PollResult :=
  match fuel with
  | O => None
  | S fuel' =>
      if (elapsed <? timeoutSeconds * 1000)%Z then
        match fetch (w k) with
        | Listed (_ :: _) => Some (Complete (S k))
        | Listed [] | FetchFailed | ListingFailed =>
            pollLoop fuel' w intervalSeconds timeoutSeconds (S k)
              (elapsed + Z.of_N (fetchMs (w k)) + timerMs (pauseMs intervalSeconds)
               + Z.of_N (timerLateMs (w k)))
        end
      else Some (TimedOut k)
  end.

(** How [pollAndDownload] ends: the steps before the loop (reading the
    project file, creating the folder) may throw; the loop itself ends in
    one of its two messages.  [Running] stands for a loop still going when
    the turns it was given are used up, which is shown never to happen. *)
Inductive PollOutcome :=
| SetupFailed
| Finished (r : PollResult)
| Running.

(** [pollAndDownload].  Every turn of the loop takes a millisecond at
    least, so the loop is given one turn per millisecond of the timeout
    and one more. *)
Definition pollAndDownload (setupOk : bool) (w : World)
    (intervalSeconds timeoutSeconds : Z) : PollOutcome :=
  if negb setupOk then SetupFailed
  else
    match pollLoop (S (Z.to_nat (timeoutSeconds * 1000))) w
            intervalSeconds timeoutSeconds 0 0 with
    | Some r => Finished r
    | None => Running
    end.

(** [Date.now() - start] when the condition is tested for the [k]-th time
    (from 0) in a session that has not ended before. *)
Fixpoint elapsedAt (w : World) (intervalSeconds : Z) (k : nat) : Z :=
  match k with
  | O => 0
  | S j =>
      elapsedAt w intervalSeconds j + Z.of_N (fetchMs (w j))
      + timerMs (pauseMs intervalSeconds) + Z.of_N (timerLateMs (w j))
  end.

(** The time the fetches and late timers of the first [k] attempts add
    to the pauses. *)
Fixpoint overheadMs (w : World) (k : nat) : Z :=
  match k with
  | O => 0
  | S j => overheadMs w j + Z.of_N (fetchMs (w j)) + Z.of_N (timerLateMs (w j))
  end.

(** What a result says about the session it ends. *)
Definition Ends (w : World) (i t : Z) (r : PollResult) : Prop :=
  match r with
  | Complete n =>
      exists m, n = S m /\ outputsSeen (w m) = true
        /\ (forall j, (j < m)%nat -> outputsSeen (w j) = false)
        /\ (forall j, (j <= m)%nat -> (elapsedAt w i j < t * 1000)%Z)
  | TimedOut n =>
      (forall j, (j < n)%nat -> outputsSeen (w j) = false)
      /\ (forall j, (j < n)%nat -> (elapsedAt w i j < t * 1000)%Z)
      /\ (t * 1000 <= elapsedAt w i n)%Z
  end.

(** A fetch stub: an empty folder for the first [n] attempts, then a
    folder with one file; each attempt takes [ms] milliseconds. *)
Definition stub (n : nat) (ms : N) : World :=
  fun k => mkAttempt (if (k <? n)%nat then Listed [] else Listed ["out.csv"]) ms 0.

(** A fetch stub whose folder stays empty. *)
Definition emptyStub (ms : N) : World :=
  fun _ => mkAttempt (Listed []) ms 0.

(** A tool that fails on every attempt. *)
Definition failingStub : World :=
  fun _ => mkAttempt FetchFailed 0 0.

End Poll.

(** ** The list of runs *)

Module Runs.

Inductive Status := StatusComplete | StatusPending.

(** [interface RunItem]; [isLatest] is [false] where the code leaves it
    undefined. *)
Record RunItem := mkRunItem {
  label : string;
  url : option string;
  status : option Status;
  isLatest : bool
}.

(** *** Reading a line of the log *)

(** The separator of the two parts of a line: white space, a bar, white
    space.  When it stands at the start of the text, the text after it. *)
Definition sepAt (s : string) : option string :=
  match s with
  | String c r =>
      if Js.isSpace c then
        match Js.trimStart r with
        | String "|"%char r2 =>
            match r2 with
            | String d _ => if Js.isSpace d then Some (Js.trimStart r2) else None
            | EmptyString => None
            end
        | _ => None
        end
      else None
  | EmptyString => None
  end.

(** The first piece of a list of pieces with one more character in front. *)
Definition consChar (c : ascii) (pieces : list string) : list string :=
  match pieces with
  | h :: t => String c h :: t
  | [] => [String c EmptyString]
  end.

(** [l.split(sep)] for that separator.  The text is read from the left;
    where a separator starts a piece ends, and [skip] counts the
    characters of the separator still to pass over. *)
Fixpoint splitBarGo (s : string) (skip : nat) : list string :=
  match s with
  | EmptyString => [EmptyString]
  | String c r =>
      match skip with
      | S k => splitBarGo r k
      | O =>
          match sepAt s with
          | Some rest =>
              EmptyString :: splitBarGo r (String.length r - String.length rest)
          | None => consChar c (splitBarGo r 0)
          end
      end
  end.

Definition splitBar (l : string) : list string := splitBarGo l 0.

(** [const [ts, url] = l.split(sep); return { label: ts, url }]; the
    split has a first piece always. *)
Definition parseLine (l : string) : RunItem :=
  let parts := splitBar l in
  mkRunItem (hd EmptyString parts) (Js.at_ parts 1) None false.

(** [arr.slice(-n)] *)
Definition lastN {A : Type} (n : nat) (l : list A) : list A :=
  skipn (length l - n) l.

(** [txt.trim().split(...).slice(-50).map(...)] *)
Definition itemsOfLog (txt : string) : list RunItem :=
  map parseLine (lastN 50 (Js.splitLines (Js.trim txt))).

(** *** The output folder *)

(** What stands at a path: a file with its modification time in
    milliseconds (the time is rounded down to a whole number, which does
    not change how it compares with a whole number), a folder with its
    entries, a folder that cannot be listed, or something else.  A file
    that is listed can be examined. *)
#[warnings="-register-all"]
Inductive Node :=
| File (mtimeMs : Z)
| Dir (entries : list (string * Node))
| DirUnreadable
| Other.

(** [st.mtimeMs >= sinceMs], false when [sinceMs] is not a number. *)
Definition notBefore (mtimeMs : Z) (sinceMs : option Z) : bool :=
  match sinceMs with
  | Some t => (t <=? mtimeMs)%Z
  | None => false
  end.

(** [hasAnyRecentFile(dir, sinceMs)], [dir] being what stands at the
    path.  Listing anything but a readable folder throws, which is caught:
    no file. *)
Fixpoint hasAnyRecentFile (dir : Node) (sinceMs : option Z) : bool :=
  match dir with
  | Dir entries =>
      (fix scan (es : list (string * Node)) : bool :=
         match es with
         | [] => false
         | (_, e) :: rest =>
             match e with
             | Dir _ | DirUnreadable =>
                 if hasAnyRecentFile e sinceMs then true else scan rest
             | File m => if notBefore m sinceMs then true else scan rest
             | Other => scan rest
             end
         end) entries
  | File _ | DirUnreadable | Other => false
  end.

(** The loop over the entries of a folder. *)
Definition scan (sinceMs : option Z) : list (string * Node) -> bool :=
  fix scan (es : list (string * Node)) : bool :=
    match es with
    | [] => false
    | (_, e) :: rest =>
        match e with
        | Dir _ | DirUnreadable =>
            if hasAnyRecentFile e sinceMs then true else scan rest
        | File m => if notBefore m sinceMs then true else scan rest
        | Other => scan rest
        end
    end.

(** A path with nothing at it is listed like a folder that cannot be. *)
Definition nodeAt (at_path : option Node) : Node :=
  match at_path with
  | Some n => n
  | None => DirUnreadable
  end.



(** A text with no white space in it, as a time stamp or a URL. *)
Fixpoint noSpace (s : string) : bool :=
  match s with
  | EmptyString => true
  | String c r => negb (Js.isSpace c) && noSpace r
  end.

(** The first piece of a list of pieces with a text in front. *)
Definition prependTo (a : string) (pieces : list string) : list string :=
  match pieces with
  | h :: t => (a +:+ h) :: t
  | [] => [a]
  end.

Section WithPlatform.

(** [new Date(s).getTime()], [None] for [NaN]. *)
Variable Date_parse : string -> option Z.
(** [yaml.load]: [None] when it throws, [Some None] for an empty document. *)
Variable yaml_load : string -> option (option Project.KaggleYml).
(** [path.join] *)
Variable path_join : string -> string -> string.
(** The file system. *)
Variable fsNode : string -> option Node.

(** [yml.outputs?.download_to || '.kaggle-outputs'] *)
Definition downloadTo (yml : Project.KaggleYml) : string :=
  match Project.outputs yml with
  | Some o => Js.or_undef (Project.download_to o) ".kaggle-outputs"
  | None => ".kaggle-outputs"
  end.

(** The folder of the outputs as [getChildren] works it out; [ymlFile]
    is the text of [kaggle.yml] if it can be read.  [None] when
    [yaml.load] throws. *)
Definition outputDir (root : string) (ymlFile : option string) : option string :=
  let ymlRaw := match ymlFile with Some t => t | None => EmptyString end in
  let loaded := if Js.truthy ymlRaw then yaml_load ymlRaw else Some None in
  match loaded with
  | None => None
  | Some doc =>
      let yml := match doc with Some y => y | None => Project.emptyYml end in
      Some (path_join root (downloadTo yml))
  end.

(** What the [try] block sets on the latest item; what it throws is
    ignored and leaves the status unset. *)
Definition markLatest (root : string) (ymlFile : option string) (latest : RunItem)
  : RunItem :=
  mkRunItem (label latest) (url latest)
    (match outputDir root ymlFile with
     | Some outDir =>
         Some (if hasAnyRecentFile (nodeAt (fsNode outDir)) (Date_parse (label latest))
               then StatusComplete else StatusPending)
     | None => status latest
     end)
    true.

(** The last element of an array changed in place. *)
Fixpoint updateLast {A : Type} (f : A -> A) (l : list A) : list A :=
  match l with
  | [] => []
  | [x] => [f x]
  | x :: r => x :: updateLast f r
  end.

(** [RunsProvider.getChildren]: [root] is the folder of the workspace,
    [logFile] the text of the run log if it can be read. *)
Definition getChildren (root : option string) (logFile ymlFile : option string)
  : list RunItem :=
  match root with
  | None => []
  | Some r =>
      match logFile with
      | None => []
      | Some txt => updateLast (markLatest r ymlFile) (itemsOfLog txt)
      end
  end.

End WithPlatform.

(** *** The status of the latest run, as the claim words it *)





(** A platform for examples: one known time stamp, a project file that
    is never there, paths joined by a slash, and one output folder. *)
Definition sampleStamp : string := "2024-05-01T10:00:00.000Z".

Definition sampleDate (s : string) : option Z :=
  if String.eqb s sampleStamp then Some 1714557600000%Z else None.

Definition sampleYaml (text : string) : option (option Project.KaggleYml) :=
  if String.eqb text "outputs: [" then None else Some None.

Definition sampleJoin (a b : string) : string := a +:+ "/" +:+ b.

Definition sampleFs (path : string) : option Node :=
  if String.eqb path "/w/.kaggle-outputs"
  then Some (Dir [("logs", Dir [("run.log", File 1714557500000%Z)]);
                  ("nested", Dir [("out.csv", File 1714557700000%Z)])])
  else None.

Definition sampleLog : string :=
  "2024-04-30T09:00:00.000Z | https://www.kaggle.com/code/bob/old" +:+ Js.lf +:+
  sampleStamp +:+ " | https://www.kaggle.com/code/bob/my-run" +:+ Js.lf.





End Runs.

(** ** The lists of datasets and competitions *)

Module Datasets.

Record DatasetItem := mkDatasetItem { ref : string; url : string }.

Definition datasetUrlBase : string := "https://www.kaggle.com/datasets/".

(** The test of a pattern that is one lower-case word between the start
    and the end of the text, letters in either case. *)
Fixpoint isWordCI (word s : string) : bool :=
  match word, s with
  | EmptyString, EmptyString => true
  | String w wr, String c sr => Csv.eqCI c w && isWordCI wr sr
  | _, _ => false
  end.

(** [arr.findIndex(p)], with [None] for [-1]. *)
Fixpoint findIndex {A : Type} (p : A -> bool) (l : list A) : option nat :=
  match l with
  | [] => None
  | y :: t => if p y then Some 0
              else match findIndex p t with
                   | Some i => Some (S i)
                   | None => None
                   end
  end.

(** The index of the column whose header is [word]. *)
Definition columnIndex (word header : string) : option nat :=
  findIndex (fun h => isWordCI word (Js.removeAll Csv.dquote (Js.trim h)))
            (Js.splitOn Csv.comma header).

(** [cols[idx]] for an index that may be [-1]. *)
Definition cell (cols : list string) (idx : option nat) : option string :=
  match idx with
  | Some i => Js.at_ cols i
  | None => None
  end.

(** The body of the [for] loop of [parseDatasets]. *)
Definition rowItem (refIdx urlIdx : option nat) (line : string)
  : option DatasetItem :=
  let cols := Csv.splitCsv line in
  let r := Js.or_undef (cell cols refIdx) EmptyString in
  let u := Js.or_undef (cell cols urlIdx)
             (if Js.truthy r then datasetUrlBase +:+ r else EmptyString) in
  if Js.truthy r then Some (mkDatasetItem r u) else None.

Definition parseDatasets (csvData : string) : list DatasetItem :=
  match Js.splitLines csvData with
  | [] | [_] => []
  | first :: lines =>
      let header := Js.or_else first EmptyString in
      omap (rowItem (columnIndex "ref" header) (columnIndex "url" header)) lines
  end.

(** The test for a listing with no dataset of the user's own. *)
Definition noDatasets (stdout : string) : bool :=
  let lines := Js.splitLines (Js.trim stdout) in
  (length lines <=? 1)%nat || Cli.includes "No datasets found" (hd EmptyString lines).

Definition listArgs : list string := ["datasets"; "list"; "--csv"; "-p"; "50"].

(** [DatasetsProvider.getChildren]: [run] is [runKaggleCLI] as the
    provider sees it, the standard output of the tool or [None] when the
    call is rejected. *)
Definition getChildren (showMyDatasets : bool) (searchTerm : string)
    (run : list string -> option string) : list DatasetItem :=
  if showMyDatasets then
    match run (listArgs ++ ["-m"]) with
    | None => []
    | Some out =>
        if noDatasets out then
          match run listArgs with
          | None => []
          | Some popular => parseDatasets (Js.trim popular)
          end
        else parseDatasets (Js.trim out)
    end
  else if Js.truthy searchTerm && Js.truthy (Js.trim searchTerm) then
    match run (listArgs ++ ["-s"; Js.trim searchTerm]) with
    | None => []
    | Some out => parseDatasets (Js.trim out)
    end
  else
    match run listArgs with
    | None => []
    | Some out => parseDatasets (Js.trim out)
    end.

End Datasets.

Module Competitions.

Record CompetitionItem := mkCompetitionItem {
  ref : string;
  title : string;
  deadline : string;
  category : string;
  url : string
}.

Definition competitionUrlBase : string := "https://www.kaggle.com/competitions/".

(** The class of the group of the pattern: any character but a slash
    and a question mark. *)
Definition isSlugChar (c : ascii) : bool :=
  negb ((c =? "/")%char || (c =? "?")%char).

(** The longest run of such characters at the start of a text. *)
Fixpoint spanSlug (s : string) : string :=
  match s with
  | String c r => if isSlugChar c then String c (spanSlug r) else EmptyString
  | EmptyString => EmptyString
  end.

(** The pattern of a competition address tried at the start of the
    text: the segment [/competitions/], then one or more characters of
    the class, as many as there are; the result is the group. *)
Definition slugAt (s : string) : option string :=
  match Submit.stripPrefix "/competitions/" s with
  | Some body =>
      let g := spanSlug body in
      if Js.truthy g then Some g else None
  | None => None
  end.

(** [s.match(pattern)], the group of the leftmost match; [None] is
    [null]. *)
Fixpoint competitionSlug (s : string) : option string :=
  match slugAt s with
  | Some g => Some g
  | None =>
      match s with
      | EmptyString => None
      | String _ r => competitionSlug r
      end
  end.

(** The ref of a row: a ref that is a full address is cut down to the
    name of the competition. *)
Definition refOf (rawRef : string) : string :=
  if Cli.startsWith competitionUrlBase rawRef then
    match competitionSlug rawRef with
    | Some g => g
    | None => rawRef
    end
  else rawRef.

(** Every character of the text is in the class of the group. *)
Definition allSlugChars (s : string) : bool :=
  negb (Csv.hasChar "/" s) && negb (Csv.hasChar "?" s).

(** The text is over, or goes on with a slash or a question mark. *)
Definition slugEnds (rest : string) : Prop :=
  match rest with
  | EmptyString => True
  | String c _ => isSlugChar c = false
  end.

Section WithUpperCase.

(** [toUpperCase], which may turn one character into several. *)
Variable toUpperCase : string -> string.

(** [word.charAt(0).toUpperCase() + word.slice(1)] *)
Definition capitalize (word : string) : string :=
  match word with
  | String c r => toUpperCase (String c EmptyString) +:+ r
  | EmptyString => toUpperCase EmptyString
  end.

(** The title made from the ref when the listing has none. *)
Definition titleOfRef (r : string) : string :=
  Js.join " " (map capitalize (Js.splitOn "-" r)).

(** The body of the [for] loop of [parseCompetitions]. *)
Definition rowItem (refIdx titleIdx deadlineIdx categoryIdx urlIdx : option nat)
    (line : string) : option CompetitionItem :=
  let cols := Csv.splitCsv line in
  let rawRef := Js.or_undef (Datasets.cell cols refIdx) EmptyString in
  let deadline := Js.or_undef (Datasets.cell cols deadlineIdx) "No deadline" in
  let category := Js.or_undef (Datasets.cell cols categoryIdx) "General" in
  let r := refOf rawRef in
  let t := match Datasets.cell cols titleIdx with
           | Some t => if Js.truthy t then t else titleOfRef r
           | None => titleOfRef r
           end in
  let u := Js.or_undef (Datasets.cell cols urlIdx)
             (if Js.truthy r then competitionUrlBase +:+ r else rawRef) in
  if Js.truthy r then Some (mkCompetitionItem r t deadline category u) else None.

Definition parseCompetitions (csvData : string) : list CompetitionItem :=
  match Js.splitLines csvData with
  | [] | [_] => []
  | first :: lines =>
      let headers := Csv.headersOf (Js.or_else first EmptyString) in
      omap (rowItem (Js.indexOf "ref" headers) (Js.indexOf "title" headers)
                    (Js.indexOf "deadline" headers) (Js.indexOf "category" headers)
                    (Js.indexOf "url" headers))
           lines
  end.

(** The arguments [fetchCompetitions] calls the tool with. *)
Definition listArgs (group category searchTerm : string) : list string :=
  ["competitions"; "list"; "--csv"; "--group"; group]
  ++ (if String.eqb group "entered" then []
      else if Js.truthy category && negb (String.eqb category "all")
           then ["--category"; category] else [])
  ++ (if Js.truthy searchTerm && Js.truthy (Js.trim searchTerm)
      then ["--search"; Js.trim searchTerm] else []).

(** [CompetitionsProvider.getChildren] at the root of the tree. *)
Definition getChildren (group category searchTerm : string)
    (run : list string -> option string) : list CompetitionItem :=
  match run (listArgs group category searchTerm) with
  | Some out => parseCompetitions (Js.trim out)
  | None => []
  end.

End WithUpperCase.

(** *** The folder a download goes to *)

(** [ref.replace(/[\\/]/g, '__')] *)
Fixpoint safeRef (r : string) : string :=
  match r with
  | EmptyString => EmptyString
  | String c rest =>
      if (c =? "/")%char || (c =? "\")%char then "__" +:+ safeRef rest
      else String c (safeRef rest)
  end.

(** The argument a command of the competitions tree is called with: an
    item of the tree, a plain text, or nothing. *)
Inductive Arg :=
| NoItem
| ItemText (s : string)
| Item (ref url : option string).

(** The ref a command works out from its argument, [''] when there is
    none. *)
Definition refOfArg (item : Arg) : string :=
  match item with
  | Item r u =>
      if Js.truthy (Js.or_undef r EmptyString) then Js.or_undef r EmptyString
      else match u with
           | Some address =>
               if Js.truthy address then
                 match competitionSlug address with
                 | Some g => g
                 | None => EmptyString
                 end
               else EmptyString
           | None => EmptyString
           end
  | ItemText s => s
  | NoItem => EmptyString
  end.

(** What [kaggle.competitionDownloadData] asks of the tool. *)
Record Download := mkDownload { args : list string; dest : string }.

Section WithPath.
(** [path.join] of three parts. *)
Variable path_join3 : string -> string -> string -> string.

(** [kaggle.competitionDownloadData] up to the call of the tool: [input]
    is the answer of the input box, shown when the argument gives no
    ref. *)
Definition competitionDownloadData (root : option string) (item : Arg)
    (input : option string) : option Download :=
  match root with
  | None => None
  | Some folder =>
      let r0 := refOfArg item in
      let r := if Js.truthy r0 then r0 else Js.or_undef input EmptyString in
      if Js.truthy r then
        let d := path_join3 folder "competitions" (safeRef r) in
        Some (mkDownload ["competitions"; "download"; r; "-p"; d] d)
      else None
  end.

End WithPath.

End Competitions.

(** ** The notebooks view *)

Module Notebooks.

(** The arguments [MyNotebooksProvider.getChildren] calls the tool
    with. *)
Definition listArgs (showMyNotebooks : bool) (searchTerm language kernelType : string)
  : list string :=
  ["kernels"; "list"; "--csv"; "--page-size"; "50"]
  ++ (if showMyNotebooks then ["--mine"]
      else
        (if Js.truthy searchTerm && Js.truthy (Js.trim searchTerm)
         then ["-s"; Js.trim searchTerm] else [])
        ++ (if negb (String.eqb language "all") then ["--language"; language] else [])
        ++ (if negb (String.eqb kernelType "all") then ["--kernel-type"; kernelType] else [])).

Definition fallbackArgs : list string := ["kernels"; "list"; "--csv"; "--mine"].

(** [MyNotebooksProvider.getChildren]: [run] is [runKaggleCLI] as the
    provider sees it, the standard output of the tool or [None] when the
    call is rejected.  When a search is rejected the user's own notebooks
    are listed instead, and that listing is parsed as it comes. *)
Definition getChildren (showMyNotebooks : bool) (searchTerm language kernelType : string)
    (run : list string -> option string) : list Csv.KernelItem :=
  match run (listArgs showMyNotebooks searchTerm language kernelType) with
  | Some out => Csv.notebooksOfOutput out
  | None =>
      if negb showMyNotebooks then
        match run fallbackArgs with
        | Some out => Csv.parseKernelsCsv (Js.trim out)
        | None => []
        end
      else []
  end.

End Notebooks.

(** ** The folder of the outputs *)

Module OutputFolder.

Section WithPlatform.
Variable yaml_load : string -> option (option Project.KaggleYml).
Variable path_join : string -> string -> string.

(** The folder [pollAndDownload] and [kaggle.downloadOutputs] download
    to: [ymlFile] is the text of [kaggle.yml] if it can be read.  [None]
    when reading or loading the file throws. *)
Definition downloadDest (root : string) (ymlFile : option string) : option string :=
  match Project.loadYml yaml_load ymlFile with
  | Some yml => Some (path_join root (Runs.downloadTo yml))
  | None => None
  end.

End WithPlatform.

End OutputFolder.

(** ** The slug of a new project *)

Module Scaffold.

(** A title is a text of 8-bit characters, put in lower case by
    [Js.toLowerCase]. *)

(** The class [a-z0-9]. *)
Definition isSlugAlnum (c : ascii) : bool := Js.isLower c || Js.isDigit c.

Definition hyphen : ascii := "-"%char.

(** [s.replace(/[^a-z0-9]+/g, '-')]: every longest run of characters
    outside the class becomes one hyphen.  [inRun] tells whether the
    character before was part of such a run. *)
Fixpoint hyphenate (s : string) (inRun : bool) : string :=
  match s with
  | EmptyString => EmptyString
  | String c r =>
      if isSlugAlnum c then String c (hyphenate r false)
      else if inRun then hyphenate r true
      else String hyphen (hyphenate r true)
  end.

Fixpoint dropLastHyphen (s : string) : string :=
  match s with
  | EmptyString => EmptyString
  | String c EmptyString => if (c =? hyphen)%char then EmptyString else s
  | String c r => String c (dropLastHyphen r)
  end.

(** [s.replace(/(^-|-$)/g, '')]: a hyphen at the start is removed, and a
    hyphen at the end of what is left is removed. *)
Definition stripEdgeHyphens (s : string) : string :=
  match s with
  | String c r => if (c =? hyphen)%char then dropLastHyphen r else dropLastHyphen s
  | EmptyString => EmptyString
  end.

(** The project name written to [kaggle.yml]. *)
Definition projectName (title : string) : string :=
  hyphenate (Js.toLowerCase title) false.

(** The second part of the kernel id. *)
Definition kernelSlug (title : string) : string :=
  stripEdgeHyphens (projectName title).

(** [kernelId] of [initProject]. *)
Definition kernelId (username title : string) : string :=
  username +:+ "/" +:+ kernelSlug title.

(** *** What a slug looks like *)

Fixpoint allChars (p : ascii -> bool) (s : string) : bool :=
  match s with
  | EmptyString => true
  | String c r => p c && allChars p r
  end.

Definition startsWithHyphen (s : string) : bool :=
  match s with
  | String c _ => (c =? hyphen)%char
  | EmptyString => false
  end.

Fixpoint endsWithHyphen (s : string) : bool :=
  match s with
  | EmptyString => false
  | String c EmptyString => (c =? hyphen)%char
  | String _ r => endsWithHyphen r
  end.

(** No hyphen is followed by a hyphen. *)
Fixpoint noDoubleHyphen (s : string) : bool :=
  match s with
  | EmptyString => true
  | String c r => negb ((c =? hyphen)%char && startsWithHyphen r) && noDoubleHyphen r
  end.

(** Lower-case letters, digits and single hyphens, with no hyphen at
    either end. *)
Definition slugChar (c : ascii) : bool := isSlugAlnum c || (c =? hyphen)%char.

Definition isSlug (s : string) : bool :=
  allChars slugChar s
  && noDoubleHyphen s
  && negb (startsWithHyphen s)
  && negb (endsWithHyphen s).

(** No character of the text is in the class [a-z0-9]. *)
Definition noAlnum (s : string) : bool :=
  allChars (fun c => negb (isSlugAlnum c)) s.

End Scaffold.

(** ** Synchronising the kernel metadata with the project descriptor *)

Module Sync.
Import Creds Project.

(** The object read from [kernel-metadata.json]: its properties. *)
Definition Meta := gmap string Json.

(** [meta.k = v].  A property set to [undefined] is left out of the file
    that is written, as a property that is not there. *)
Definition assign (k : string) (v : option Json) (m : Meta) : Meta :=
  match v with
  | Some x => <[k := x]> m
  | None => delete k m
  end.

(** [a || b], [None] being [undefined]. *)
Definition orJson (a b : option Json) : option Json :=
  match a with
  | Some x => if jsTruthy x then Some x else b
  | None => b
  end.

Definition strValue (o : option string) : option Json := JStr <$> o.

Definition listValue (o : option (list string)) : option Json :=
  (fun l => JArr (map JStr l)) <$> o.

(** [yml.list || meta.k || []] *)
Definition sources (fromYml : option (list string)) (old : option Json) : Json :=
  match orJson (orJson (listValue fromYml) old) (Some (JArr [])) with
  | Some v => v
  | None => JArr []
  end.

(** [(yml.privacy || 'private') === 'private'] *)
Definition isPrivate (yml : KaggleYml) : bool :=
  match privacy yml with
  | Some Public => false
  | Some Private | None => true
  end.

(** [yml.accelerator === 'gpu'] and [yml.accelerator === 'tpu'] *)
Definition wantsGpu (yml : KaggleYml) : bool :=
  match accelerator yml with
  | Some AccGpu => true
  | _ => false
  end.

Definition wantsTpu (yml : KaggleYml) : bool :=
  match accelerator yml with
  | Some AccTpu => true
  | _ => false
  end.

(** [!!yml.internet] *)
Definition wantsInternet (yml : KaggleYml) : bool :=
  match internet yml with
  | Some b => b
  | None => false
  end.

(** The assignments of [kaggle.pushRun], one after the other. *)
Definition syncPush (yml : KaggleYml) (meta : Meta) : Meta :=
  let m1 := assign "id" (orJson (strValue (kernel_slug yml)) (meta !! "id")) meta in
  let m2 := assign "code_file" (orJson (strValue (code_file yml)) (m1 !! "code_file")) m1 in
  let m3 := <["is_private" := JBool (isPrivate yml)]> m2 in
  let m4 := <["enable_gpu" := JBool (wantsGpu yml)]> m3 in
  let m5 := <["enable_internet" := JBool (wantsInternet yml)]> m4 in
  let m6 := <["dataset_sources" := sources (datasets yml) (m5 !! "dataset_sources")]> m5 in
  <["competition_sources" := sources (competitions yml) (m6 !! "competition_sources")]> m6.

(** The settings [kaggle.runCurrentNotebook] writes to the descriptor
    before it synchronises: the path of the notebook, the accelerator and
    the internet switch it has settled on. *)
Definition withSettings (relCodePath : string) (accel : Accelerator) (net : bool)
    (yml : KaggleYml) : KaggleYml :=
  {| project := project yml;
     kernel_slug := kernel_slug yml;
     code_file := Some relCodePath;
     accelerator := Some accel;
     internet := Some net;
     privacy := privacy yml;
     datasets := datasets yml;
     competitions := competitions yml;
     outputs := outputs yml |}.

(** The assignments of [kaggle.runCurrentNotebook]. *)
Definition syncRun (yml : KaggleYml) (meta : Meta) : Meta :=
  let m1 := assign "id" (orJson (strValue (kernel_slug yml)) (meta !! "id")) meta in
  let m2 := assign "code_file" (orJson (strValue (code_file yml)) (m1 !! "code_file")) m1 in
  let m3 := <["is_private" := JBool (isPrivate yml)]> m2 in
  let m4 := <["enable_gpu" := JBool (wantsGpu yml)]> m3 in
  let m4' := <["enable_tpu" := JBool (wantsTpu yml)]> m4 in
  let m5 := <["enable_internet" := JBool (wantsInternet yml)]> m4' in
  let m6 := <["dataset_sources" := sources (datasets yml) (m5 !! "dataset_sources")]> m5 in
  <["competition_sources" := sources (competitions yml) (m6 !! "competition_sources")]> m6.

(** The properties [kaggle.pushRun] assigns. *)
Definition pushKeys : list string :=
  ["id"; "code_file"; "is_private"; "enable_gpu"; "enable_internet";
   "dataset_sources"; "competition_sources"].

(** Metadata for examples: a notebook that asked for a TPU. *)
Definition tpuMeta : Meta :=
  {[ "id" := JStr "alice/iris"; "title" := JStr "Iris"; "language" := JStr "python";
     "enable_gpu" := JBool false; "enable_tpu" := JBool true ]}.

End Sync.

(** ** A new project *)

Module Init.
Import Creds Project Scaffold Sync.

(** The two files [initProject] writes: the object of
    [kernel-metadata.json] and the text of [kaggle.yml]. *)
Record Scaffolded := mkScaffolded { kmeta : Meta; yml : string }.

(** [s.endsWith(suffix)] *)
Fixpoint endsWith (suffix s : string) : bool :=
  String.eqb s suffix
  || match s with
     | EmptyString => false
     | String _ r => endsWith suffix r
     end.

(** A boolean in a template. *)
Definition boolText (b : bool) : string := if b then "true" else "false".

(** [codeFile] of [initProject]: the file that was picked, or the
    notebook. *)
Definition codeFileOf (pick : option string) : string :=
  Js.or_undef pick "notebook.ipynb".

Definition kmetaOf (title username accel : string) (net : bool) (codeFile : string)
  : Meta :=
  <["id" := JStr (kernelId username title)]>
  (<["title" := JStr title]>
  (<["code_file" := JStr codeFile]>
  (<["language" := JStr "python"]>
  (<["kernel_type" := JStr (if endsWith ".ipynb" codeFile then "notebook" else "script")]>
  (<["is_private" := JBool true]>
  (<["enable_gpu" := JBool (String.eqb accel "gpu")]>
  (<["enable_internet" := JBool net]>
  (<["dataset_sources" := JArr []]>
  (<["competition_sources" := JArr []]> ∅))))))))).

Definition ymlOf (title username accel : string) (net : bool) (codeFile : string)
  : string :=
  "project: " +:+ projectName title +:+ Js.lf +:+
  "kernel_slug: " +:+ kernelId username title +:+ Js.lf +:+
  "code_file: " +:+ codeFile +:+ Js.lf +:+
  "accelerator: " +:+ accel +:+ Js.lf +:+
  "internet: " +:+ boolText net +:+ Js.lf +:+
  "privacy: private" +:+ Js.lf +:+
  "datasets: []" +:+ Js.lf +:+
  "competitions: []" +:+ Js.lf +:+
  "outputs:" +:+ Js.lf +:+ "  download_to: .kaggle-outputs" +:+ Js.lf.

(** [initProject] up to the two project files: [title] and [username]
    are the answers of the input boxes, [accel] and [net] the two
    settings, [pick] the code file that was picked.  [None] when a box is
    dismissed or left empty.  The placeholder for the code file is left
    out. *)
Definition initProject (title username : option string) (accel : string) (net : bool)
    (pick : option string) : option Scaffolded :=
  match title with
  | None => None
  | Some t =>
      if negb (Js.truthy t) then None
      else
        match username with
        | None => None
        | Some u =>
            if negb (Js.truthy u) then None
            else
              let codeFile := codeFileOf pick in
              Some (mkScaffolded (kmetaOf t u accel net codeFile)
                                 (ymlOf t u accel net codeFile))
        end
  end.

(** The descriptor [y] holds what the template of [initProject] spells
    for these values. *)
Definition Spells (y : KaggleYml) (title username accel : string) (net : bool)
    (codeFile : string) : Prop :=
  kernel_slug y = Some (kernelId username title)
  /\ code_file y = Some codeFile
  /\ (accelerator y = Some AccGpu <-> accel = "gpu")
  /\ internet y = Some net
  /\ privacy y = Some Private
  /\ datasets y = Some []
  /\ competitions y = Some [].

(** A descriptor for examples: what the template spells for the
    default title, user bob, a GPU and the notebook. *)
Definition sampleDescriptor : KaggleYml :=
  {| project := Some "my-awesome-kernel";
     kernel_slug := Some "bob/my-awesome-kernel";
     code_file := Some "notebook.ipynb";
     accelerator := Some AccGpu;
     internet := Some true;
     privacy := Some Private;
     datasets := Some [];
     competitions := Some [];
     outputs := Some (mkOutputs (Some ".kaggle-outputs")) |}.

End Init.

(** ** Signing in and out *)

Module Auth.
Import Creds.

(** How a function that stores a token ends: it stored one and showed a
    notice, it returned without doing anything, or it threw. *)
Inductive StoreOutcome :=
| Stored (notice : string)
| Dismissed
| Thrown.

(** What the file dialog of [storeApiTokenFromFile] leads to: no file,
    a file that cannot be read, or the text of the file. *)
Inductive Picked :=
| NoFile
| Unreadable
| FileText (raw : string).

(** How a command ends: the token in the secret store afterwards, the
    value [kaggle.isSignedIn] was set to, if it was set, and whether an
    error was shown. *)
Record Session := mkSession {
  secret : option string;
  isSignedIn : option bool;
  errorShown : bool
}.

Section WithJson.

(** [JSON.parse], with [None] when it throws. *)
Variable JSON_parse : string -> option Json.
(** [JSON.stringify({ username, key })] *)
Variable JSON_stringify : string -> string -> string.

(** [!obj.username || !obj.key] does not hold.  Reading a property of
    [null] throws, which ends the function like the explicit [throw]. *)
Definition hasBothFields (obj : Json) : bool :=
  match prop obj "username", prop obj "key" with
  | Some u, Some k => jsTruthy u && jsTruthy k
  | _, _ => false
  end.

(** [storeApiTokenFromFile]: the secret store afterwards and how the
    function ends. *)
Definition storeApiTokenFromFile (picked : Picked) (store : option string)
  : option string * StoreOutcome :=
  match picked with
  | NoFile => (store, Dismissed)
  | Unreadable => (store, Thrown)
  | FileText raw =>
      match JSON_parse raw with
      | None => (store, Thrown)
      | Some obj =>
          if hasBothFields obj
          then (Some raw, Stored "Kaggle token stored securely.")
          else (store, Thrown)
      end
  end.

(** [clearStoredToken] *)
Definition clearStoredToken (store : option string) : option string := None.

(** The second half of [storeApiTokenFromEnvOrPrompt]: [askUsername]
    and [askKey] are the answers of the two input boxes, [None] when a
    box is dismissed. *)
Definition promptAndStore (askUsername askKey : option string) (store : option string)
  : option string * StoreOutcome :=
  match askUsername with
  | None => (store, Thrown)
  | Some u =>
      if negb (Js.truthy u) then (store, Thrown)
      else
        match askKey with
        | None => (store, Thrown)
        | Some k =>
            if negb (Js.truthy k) then (store, Thrown)
            else (Some (JSON_stringify u k), Stored "Kaggle token saved securely.")
        end
  end.

(** [storeApiTokenFromEnvOrPrompt]: the token of the environment is
    stored when it parses and holds both fields, and the user is asked
    otherwise. *)
Definition storeApiTokenFromEnvOrPrompt (env : gmap string string)
    (askUsername askKey : option string) (store : option string)
  : option string * StoreOutcome :=
  match env !! KAGGLE_TOKEN_JSON with
  | Some envRaw =>
      match credsOfJson JSON_parse (Some envRaw) with
      | Some _ => (Some envRaw, Stored "Kaggle token loaded from environment.")
      | None => promptAndStore askUsername askKey store
      end
  | None => promptAndStore askUsername askKey store
  end.

(** [updateAuthContext]: the value [kaggle.isSignedIn] is set to. *)
Definition updateAuthContext (store : option string) (env : gmap string string) : bool :=
  match getKaggleCreds JSON_parse store env with
  | Ok _ => true
  | NoCredentials => false
  end.

(** [kaggle.signIn] *)
Definition signIn (env : gmap string string) (askUsername askKey : option string)
    (store : option string) : Session :=
  match storeApiTokenFromEnvOrPrompt env askUsername askKey store with
  | (store', Stored _) => mkSession store' (Some (updateAuthContext store' env)) false
  | (store', _) => mkSession store' None true
  end.

(** [kaggle.signOut] *)
Definition signOut (env : gmap string string) (store : option string) : Session :=
  let store' := clearStoredToken store in
  mkSession store' (Some (updateAuthContext store' env)) false.

End WithJson.

(** A codec for examples: the text of a token is its two fields with a
    colon in between. *)
Definition colonStringify (u k : string) : string := u +:+ ":" +:+ k.

Fixpoint colonSplit (s : string) : option (string * string) :=
  match s with
  | EmptyString => None
  | String c r =>
      if (c =? ":")%char then Some (EmptyString, r)
      else match colonSplit r with
           | Some (u, k) => Some (String c u, k)
           | None => None
           end
  end.

Definition colonParse (s : string) : option Json :=
  match colonSplit s with
  | Some (u, k) => Some (JObj [("username", JStr u); ("key", JStr k)])
  | None => None
  end.

End Auth.

(** ** The history of runs *)

Module History.

(** A run as [logRun] records it: its time stamp and its address. *)
Definition Run : Type := string * string.

(** The log after [logRun] was called for each run of a list in turn. *)
Definition recordAll (runs : list Run) (log : option string) : option string :=
  fold_left (fun l r => Submit.logRun (fst r) l (snd r)) runs log.

(** The line of a run, without the line feed that ends it. *)
Definition lineOf (r : Run) : string := fst r +:+ " | " +:+ snd r.

(** The text of a log that holds the records of the runs of a list. *)
Definition logText (runs : list Run) : string :=
  fold_right (fun r rest => Submit.runRecord (fst r) (snd r) +:+ rest) EmptyString runs.

(** A time stamp and an address as [logRun] gets them: neither is empty
    and neither holds white space. *)
Definition wellFormed (r : Run) : bool :=
  Js.truthy (fst r) && Runs.noSpace (fst r) && Js.truthy (snd r) && Runs.noSpace (snd r).

(** The item the view shows for a run, before the latest one is
    marked. *)
Definition itemOf (r : Run) : Runs.RunItem :=
  Runs.mkRunItem (fst r) (Some (snd r)) None false.

End History.

(** * Properties *)

(** ** CSV *)

Module CsvProps.
Import Csv.

Example splitCsv_plain : splitCsv "a,b,c" = ["a"; "b"; "c"].
Proof. reflexivity. Qed.

Example splitCsv_quoted_comma :
  splitCsv (encodeRow ["alice/nb"; "Hello, world"; "x"])
  = ["alice/nb"; "Hello, world"; "x"].
Proof. reflexivity. Qed.

(** *** String bookkeeping *)

Lemma app_nil_r_str (s : string) : s +:+ EmptyString = s.
Proof. induction s as [|c s IH]; simpl; [reflexivity | now rewrite IH]. Qed.

Lemma app_assoc_str (a b c : string) : (a +:+ b) +:+ c = a +:+ (b +:+ c).
Proof. induction a as [|x a IH]; simpl; [reflexivity | now rewrite IH]. Qed.

Lemma snoc_app (cur f : string) (c : ascii) :
  Js.snoc cur c +:+ f = cur +:+ String c f.
Proof. unfold Js.snoc. now rewrite app_assoc_str. Qed.

Lemma dquote_neq_comma : (comma =? dquote)%char = false.
Proof. reflexivity. Qed.

(** *** The state machine on an encoded row *)

(** An unquoted field is copied character by character. *)
Lemma loop_plain (f : string) :
  hasChar comma f = false -> hasChar dquote f = false ->
  forall rest cur out,
    splitCsvLoop (f +:+ rest) cur false out = splitCsvLoop rest (cur +:+ f) false out.
Proof.
  induction f as [|c f IH]; intros Hc Hq rest cur out; simpl.
  - now rewrite app_nil_r_str.
  - simpl in Hc, Hq.
    apply orb_false_iff in Hc as [Hc1 Hc2].
    apply orb_false_iff in Hq as [Hq1 Hq2].
    rewrite Hq1, Hc1. simpl.
    rewrite IH by assumption. now rewrite snoc_app.
Qed.

(** Inside quotes the doubled quotes of the body decode to single quotes,
    commas are kept, and the closing quote leaves the quoted section. *)
Lemma loop_quoted (f : string) :
  forall rest cur out,
    noQuoteAhead rest ->
    splitCsvLoop (doubleQuotes f +:+ String dquote rest) cur true out
    = splitCsvLoop rest (cur +:+ f) false out.
Proof.
  induction f as [|c f IH]; intros rest cur out Hr.
  - simpl doubleQuotes. simpl append. rewrite app_nil_r_str.
    cbn [splitCsvLoop]. rewrite Ascii.eqb_refl.
    destruct rest as [|c2 rest']; [reflexivity|].
    unfold noQuoteAhead in Hr. simpl in Hr. now rewrite Hr.
  - simpl doubleQuotes. destruct (Ascii.eqb c dquote) eqn:E.
    + apply Ascii.eqb_eq in E. subst c.
      change (splitCsvLoop (String dquote (String dquote (doubleQuotes f +:+ String dquote rest))) cur true out
              = splitCsvLoop rest (cur +:+ String dquote f) false out).
      cbn [splitCsvLoop]. rewrite Ascii.eqb_refl.
      rewrite IH by assumption. now rewrite snoc_app.
    + change (splitCsvLoop (String c (doubleQuotes f +:+ String dquote rest)) cur true out
              = splitCsvLoop rest (cur +:+ String c f) false out).
      cbn [splitCsvLoop]. rewrite E.
      replace ((c =? comma)%char && negb true) with false by now rewrite andb_false_r.
      rewrite IH by assumption. now rewrite snoc_app.
Qed.

(** One encoded field, followed by the end of the row or by a comma. *)
Lemma loop_field (f rest : string) (out : list string) :
  noQuoteAhead rest ->
  splitCsvLoop (encodeField f +:+ rest) EmptyString false out
  = splitCsvLoop rest f false out.
Proof.
  intros Hr. unfold encodeField.
  destruct (hasChar comma f || hasChar dquote f) eqn:E.
  - change (splitCsvLoop (String dquote ((doubleQuotes f +:+ String dquote EmptyString) +:+ rest))
              EmptyString false out = splitCsvLoop rest f false out).
    rewrite app_assoc_str. simpl append.
    cbn [splitCsvLoop]. rewrite Ascii.eqb_refl. simpl negb.
    now rewrite loop_quoted.
  - apply orb_false_iff in E as [E1 E2]. now rewrite loop_plain.
Qed.

Lemma loop_row (fields : list string) :
  forall f out,
    splitCsvLoop (encodeRow (f :: fields)) EmptyString false out
    = out ++ f :: fields.
Proof.
  induction fields as [|g fields IH]; intros f out.
  - unfold encodeRow. simpl Js.join.
    rewrite <- (app_nil_r_str (encodeField f)).
    rewrite loop_field by reflexivity. reflexivity.
  - unfold encodeRow. cbn [map Js.join].
    rewrite loop_field by reflexivity.
    change (splitCsvLoop (String comma (encodeRow (g :: fields))) f false out
            = out ++ f :: g :: fields).
    cbn [splitCsvLoop]. rewrite dquote_neq_comma, Ascii.eqb_refl. simpl.
    rewrite IH. now rewrite <- app_assoc.
Qed.

(** The loop alone inverts the encoder on every non-empty row. *)
Lemma splitCsvLoop_encodeRow (f : string) (fields : list string) :
  splitCsvLoop (encodeRow (f :: fields)) EmptyString false [] = f :: fields.
Proof. now rewrite loop_row. Qed.

Lemma dropLastQuote_id (s : string) :
  endsWithQuote s = false -> dropLastQuote s = s.
Proof.
  induction s as [|c s IH]; intros H; [reflexivity|].
  destruct s as [|d s'].
  - simpl in *. now rewrite H.
  - change (String c (dropLastQuote (String d s')) = String c (String d s')).
    now rewrite IH.
Qed.

Lemma stripEdgeQuotes_id (s : string) :
  edgeQuoteFree s = true -> stripEdgeQuotes s = s.
Proof.
  unfold edgeQuoteFree. intros H. apply andb_true_iff in H as [H1 H2].
  apply negb_true_iff in H1, H2.
  destruct s as [|c s]; [reflexivity|].
  simpl in H1. unfold stripEdgeQuotes. rewrite H1.
  now apply dropLastQuote_id.
Qed.

(** Fields that neither begin nor end with a literal quote survive the
    whole of [splitCsv]. *)
Lemma splitCsv_encodeRow_edgeQuoteFree (f : string) (fields : list string) :
  forallb edgeQuoteFree (f :: fields) = true ->
  splitCsv (encodeRow (f :: fields)) = f :: fields.
Proof.
  intros H. unfold splitCsv. rewrite splitCsvLoop_encodeRow.
  induction (f :: fields) as [|x l IH]; [reflexivity|].
  simpl in H. apply andb_true_iff in H as [Hx Hl].
  simpl. rewrite stripEdgeQuotes_id by assumption. now rewrite IH.
Qed.

(** C7, at the input that refutes it.  The field is the two letters hi
    between literal quotes.  Its standard encoding doubles both quotes and
    wraps the result in quotes; the loop of [splitCsv] decodes that back to
    the field, and the final replace then removes the two literal quotes:
    the value returned is not the value that was encoded. *)
Theorem splitCsv_drops_edge_quotes :
  encodeRow [quoted "hi"] = quoted (quoted (quoted "hi"))
  /\ splitCsvLoop (encodeRow [quoted "hi"]) EmptyString false [] = [quoted "hi"]
  /\ splitCsv (encodeRow [quoted "hi"]) = ["hi"]
  /\ splitCsv (encodeRow [quoted "hi"]) <> [quoted "hi"].
Proof. repeat split; try reflexivity. discriminate. Qed.

(** *** The notebook list *)

Lemma truthy_true (s : string) : Js.truthy s = true <-> s <> EmptyString.
Proof. destruct s; simpl; split; intros; congruence. Qed.

Lemma or_else_default (a b : string) :
  Js.or_else a b = if Js.truthy a then a else b.
Proof. reflexivity. Qed.

Lemma codeUrl_nonempty (r : string) : codeUrlBase +:+ r <> EmptyString.
Proof. discriminate. Qed.

(** The item of a row, read off the fields the row supplies. *)
Lemma rowItem_spec (refIdx : nat) (urlIdx : option nat) (line : string) :
  rowItem refIdx urlIdx line =
    if Js.truthy (rowRef refIdx line)
    then Some (mkKernelItem (rowRef refIdx line)
                 (if Js.truthy (rowUrl urlIdx line) then rowUrl urlIdx line
                  else codeUrlBase +:+ rowRef refIdx line))
    else None.
Proof.
  unfold rowItem. destruct (Js.truthy (rowRef refIdx line)) eqn:E; [|reflexivity].
  now rewrite or_else_default.
Qed.

Lemma omap_rowItem (refIdx : nat) (urlIdx : option nat) (lines : list string) :
  omap (rowItem refIdx urlIdx) lines =
    map (fun l => mkKernelItem (rowRef refIdx l)
                    (if Js.truthy (rowUrl urlIdx l) then rowUrl urlIdx l
                     else codeUrlBase +:+ rowRef refIdx l))
        (filter (fun l => Is_true (Js.truthy (rowRef refIdx l))) lines).
Proof.
  induction lines as [|l lines IH]; [reflexivity|].
  cbn [omap list_omap]. rewrite rowItem_spec.
  rewrite filter_cons.
  destruct (Js.truthy (rowRef refIdx l)) eqn:E.
  - rewrite decide_True by exact I. cbn [map]. now rewrite IH.
  - rewrite decide_False by (intros H; exact H). exact IH.
Qed.

Lemma rowItem_nonempty (refIdx : nat) (urlIdx : option nat) (line : string) (it : KernelItem) :
  rowItem refIdx urlIdx line = Some it ->
  ref it <> EmptyString /\ url it <> EmptyString.
Proof.
  rewrite rowItem_spec.
  destruct (Js.truthy (rowRef refIdx line)) eqn:E; [|discriminate].
  intros [= <-]. cbn [ref url]. split.
  - now apply truthy_true.
  - destruct (Js.truthy (rowUrl urlIdx line)) eqn:U.
    + now apply truthy_true.
    + apply codeUrl_nonempty.
Qed.

Lemma parseKernelsCsv_nonempty (csv : string) :
  Forall (fun it => ref it <> EmptyString /\ url it <> EmptyString)
         (parseKernelsCsv csv).
Proof.
  unfold parseKernelsCsv.
  destruct (nonEmptyLines csv) as [|header lines]; [constructor|].
  destruct (negb (Js.truthy header)); [constructor|].
  destruct (Js.indexOf "ref" (headersOf header)) as [refIdx|]; [|constructor].
  apply Forall_forall. intros it Hin.
  apply list_elem_of_omap in Hin as (line & _ & Hit).
  eapply rowItem_nonempty; eassumption.
Qed.

Lemma nonEmptyLines_truthy (csv header : string) (lines : list string) :
  nonEmptyLines csv = header :: lines -> Js.truthy header = true.
Proof.
  intros H.
  assert (Hin : header ∈ nonEmptyLines csv) by (rewrite H; left).
  unfold nonEmptyLines in Hin. apply list_elem_of_filter in Hin as [Ht _].
  now apply Is_true_true.
Qed.

(** C10.  Every item the notebook-list parser produces has a non-empty
    ref and a non-empty url, after [parseKernelsCsv] and after the guard
    of [getChildren] alike.  The items are, in order, those of the data
    lines whose ref field is not empty: the ref is that field and the url
    is the url field of the line, or the code url built from the ref when
    the line has no url field, an empty one, or the header has no url
    column.  A header with no ref column, an input with no line, and an
    output rejected by [isCsvWithRef] yield no item. *)
Theorem parseKernelsCsv_items (csv : string) :
  Forall (fun it => ref it <> EmptyString /\ url it <> EmptyString)
         (parseKernelsCsv csv)
  /\ Forall (fun it => ref it <> EmptyString /\ url it <> EmptyString)
            (notebooksOfOutput csv)
  /\ (forall header lines,
        nonEmptyLines csv = header :: lines ->
        match Js.indexOf "ref" (headersOf header) with
        | None => parseKernelsCsv csv = []
        | Some refIdx =>
            let urlIdx := Js.indexOf "url" (headersOf header) in
            parseKernelsCsv csv =
              map (fun l => mkKernelItem (rowRef refIdx l)
                     (if Js.truthy (rowUrl urlIdx l) then rowUrl urlIdx l
                      else codeUrlBase +:+ rowRef refIdx l))
                  (filter (fun l => Is_true (Js.truthy (rowRef refIdx l))) lines)
        end)
  /\ (forall l, rowUrl None l = EmptyString)
  /\ (nonEmptyLines csv = [] -> parseKernelsCsv csv = [])
  /\ (isCsvWithRef (Js.trim csv) = false -> notebooksOfOutput csv = []).
Proof.
  split; [apply parseKernelsCsv_nonempty|].
  split.
  { unfold notebooksOfOutput. destruct (isCsvWithRef (Js.trim csv)).
    - apply parseKernelsCsv_nonempty.
    - constructor. }
  split.
  { intros header lines Hl. unfold parseKernelsCsv. rewrite Hl.
    rewrite (nonEmptyLines_truthy _ _ _ Hl). cbn [negb].
    destruct (Js.indexOf "ref" (headersOf header)) as [refIdx|]; [|reflexivity].
    cbv zeta. apply omap_rowItem. }
  split; [reflexivity|].
  split.
  - intros Hl. unfold parseKernelsCsv. now rewrite Hl.
  - intros H. unfold notebooksOfOutput. now rewrite H.
Qed.

Example parseKernelsCsv_sample :
  notebooksOfOutput sampleListing =
    [ mkKernelItem "alice/nb" "https://www.kaggle.com/code/alice/nb";
      mkKernelItem "bob/x" "https://example.org/x" ].
Proof. reflexivity. Qed.

Example parseKernelsCsv_no_url_column :
  parseKernelsCsv ("title,ref" +:+ Js.lf +:+ "First,alice/nb") =
    [ mkKernelItem "alice/nb" "https://www.kaggle.com/code/alice/nb" ].
Proof. reflexivity. Qed.

Example parseKernelsCsv_no_ref_column :
  parseKernelsCsv ("title,url" +:+ Js.lf +:+ "First,https://example.org/x") = [].
Proof. reflexivity. Qed.

End CsvProps.

(** ** Shell quoting *)

Module ShellProps.
Import Shell.
Import CsvProps.

Example escape_posix_quote :
  escapeShellArg Posix "it's" =
    String squote ("it" +:+ unixQuoteEscape +:+ "s" +:+ String squote EmptyString).
Proof. reflexivity. Qed.

Example tokenize_posix_two_words :
  tokenize Posix (escapedArgs Posix ["it's"; "a b"]) = Some ["it's"; "a b"].
Proof. reflexivity. Qed.

Example tokenize_win_quote :
  tokenize Win32 (escapedArgs Win32 [Csv.quoted "a b"; "c"])
  = Some [Csv.quoted "a b"; "c"].
Proof. reflexivity. Qed.

(** *** Unix *)

(** The body of a single-quoted argument is read back character by
    character; each escaped quote closes the section, adds one quote and
    opens the section again. *)
Lemma sh_body (a : string) :
  forall w r,
    shTokens (replaceAll squote unixQuoteEscape a +:+ String squote r)
             ShSingle (Some w)
    = shTokens r ShPlain (Some (w +:+ a)).
Proof.
  induction a as [|c a IH]; intros w r.
  - simpl. now rewrite app_nil_r_str.
  - cbn [replaceAll]. destruct (Ascii.eqb c squote) eqn:E.
    + apply Ascii.eqb_eq in E. subst c.
      unfold unixQuoteEscape. simpl.
      rewrite IH. f_equal. f_equal. unfold Js.snoc.
      now rewrite app_assoc_str.
    + simpl. rewrite E. rewrite IH. f_equal. f_equal. unfold Js.snoc.
      now rewrite app_assoc_str.
Qed.

Lemma sh_arg (a r : string) :
  shTokens (escapeShellArg Posix a +:+ r) ShPlain None
  = shTokens r ShPlain (Some a).
Proof.
  unfold escapeShellArg. simpl. rewrite app_assoc_str. simpl.
  now rewrite sh_body.
Qed.

Lemma sh_args (args : list string) :
  shTokens (escapedArgs Posix args) ShPlain None = Some args.
Proof.
  unfold escapedArgs.
  induction args as [|a args IH]; [reflexivity|].
  destruct args as [|b args].
  - pose proof (sh_arg a EmptyString) as H. rewrite app_nil_r_str in H.
    change (shTokens (escapeShellArg Posix a) ShPlain None = Some [a]).
    now rewrite H.
  - change (Js.join " " (map (escapeShellArg Posix) (a :: b :: args)))
      with (escapeShellArg Posix a +:+ " " +:+
            Js.join " " (map (escapeShellArg Posix) (b :: args))).
    rewrite sh_arg. simpl shTokens at 1.
    change (flush (Some a)
              (shTokens (Js.join " " (map (escapeShellArg Posix) (b :: args))) ShPlain None)
            = Some (a :: b :: args)).
    now rewrite IH.
Qed.

(** *** Windows *)

Lemma win_body (a : string) :
  forall w r,
    Csv.noQuoteAhead r ->
    winTokens (replaceAll dquote winQuoteEscape a +:+ String dquote r)
              true (Some w)
    = winTokens r false (Some (w +:+ a)).
Proof.
  induction a as [|c a IH]; intros w r Hr.
  - simpl replaceAll. simpl append. rewrite app_nil_r_str.
    cbn [winTokens]. unfold dquote at 1. rewrite Ascii.eqb_refl.
    destruct r as [|d r']; [reflexivity|].
    unfold Csv.noQuoteAhead in Hr. simpl in Hr. unfold dquote. now rewrite Hr.
  - cbn [replaceAll]. destruct (Ascii.eqb c dquote) eqn:E.
    + apply Ascii.eqb_eq in E. subst c.
      change (winTokens (String dquote (String dquote
                (replaceAll dquote winQuoteEscape a +:+ String dquote r)))
                true (Some w)
              = winTokens r false (Some (w +:+ String dquote a))).
      cbn [winTokens]. rewrite Ascii.eqb_refl. cbn [push].
      rewrite IH by assumption. unfold Js.snoc.
      now rewrite app_assoc_str.
    + change (winTokens (String c
                (replaceAll dquote winQuoteEscape a +:+ String dquote r))
                true (Some w)
              = winTokens r false (Some (w +:+ String c a))).
      cbn [winTokens]. rewrite E. cbn [push].
      rewrite IH by assumption. unfold Js.snoc.
      now rewrite app_assoc_str.
Qed.

Lemma win_arg (a r : string) :
  Csv.noQuoteAhead r ->
  winTokens (escapeShellArg Win32 a +:+ r) false None
  = winTokens r false (Some a).
Proof.
  intros Hr. unfold escapeShellArg.
  change (winTokens (String dquote
            ((replaceAll dquote winQuoteEscape a +:+ String dquote EmptyString) +:+ r))
            false None = winTokens r false (Some a)).
  rewrite app_assoc_str. simpl append.
  cbn [winTokens].
  replace (isBlank dquote) with false by reflexivity.
  rewrite Ascii.eqb_refl. cbn [started].
  now rewrite win_body.
Qed.

Lemma win_args (args : list string) :
  winTokens (escapedArgs Win32 args) false None = Some args.
Proof.
  unfold escapedArgs.
  induction args as [|a args IH]; [reflexivity|].
  destruct args as [|b args].
  - pose proof (win_arg a EmptyString eq_refl) as H. rewrite app_nil_r_str in H.
    change (winTokens (escapeShellArg Win32 a) false None = Some [a]).
    now rewrite H.
  - change (Js.join " " (map (escapeShellArg Win32) (a :: b :: args)))
      with (escapeShellArg Win32 a +:+ " " +:+
            Js.join " " (map (escapeShellArg Win32) (b :: args))).
    rewrite win_arg by reflexivity.
    change (flush (Some a)
              (winTokens (Js.join " " (map (escapeShellArg Win32) (b :: args))) false None)
            = Some (a :: b :: args)).
    now rewrite IH.
Qed.

(** C4.  On both platforms, every argument string, escaped by
    [escapeShellArg] and read back by the tokenizer of that platform's
    quoting convention, is recovered as one word equal to the original;
    more generally the escaped argument list of a command line, joined by
    spaces as [runKaggleCLI] joins it, is read back as the original list. *)
Theorem escapeShellArg_roundtrip (p : Platform) :
  (forall arg : string, tokenize p (escapeShellArg p arg) = Some [arg])
  /\ (forall args : list string, tokenize p (escapedArgs p args) = Some args).
Proof.
  assert (H : forall args, tokenize p (escapedArgs p args) = Some args).
  { intros args. destruct p; [apply win_args | apply sh_args]. }
  split; [|exact H].
  intros arg. exact (H [arg]).
Qed.

Example escape_roundtrip_samples :
  Forall (fun p =>
    Forall (fun a => tokenize p (escapeShellArg p a) = Some [a])
           ["it's"; Csv.quoted "q"; "two words"; EmptyString;
            String squote (String dquote " ")])
    [Win32; Posix].
Proof. repeat constructor. Qed.

End ShellProps.

(** ** Credentials *)

Module CredsProps.
Import Creds.
Import CsvProps.

Example creds_from_secret :
  getKaggleCreds bobOnlyParser (Some bobToken) ∅
  = Ok (mkCreds (JStr "bob") (JStr "k1")).
Proof. reflexivity. Qed.

Example creds_malformed_secret_falls_through :
  getKaggleCreds bobOnlyParser (Some "{not json")
    {[ KAGGLE_TOKEN_JSON := bobToken; KAGGLE_USERNAME := "eve"; KAGGLE_KEY := "k2" ]}
  = Ok (mkCreds (JStr "bob") (JStr "k1")).
Proof. reflexivity. Qed.

Example creds_from_env_pair :
  getKaggleCreds bobOnlyParser None
    {[ KAGGLE_TOKEN_JSON := "[]"; KAGGLE_USERNAME := "eve"; KAGGLE_KEY := "k2" ]}
  = Ok (mkCreds (JStr "eve") (JStr "k2")).
Proof. reflexivity. Qed.

Example creds_none :
  getKaggleCreds bobOnlyParser (Some EmptyString) {[ KAGGLE_USERNAME := "eve" ]}
  = NoCredentials.
Proof. reflexivity. Qed.

Lemma jsTruthy_string (s : string) : jsTruthy (JStr s) = true <-> s <> EmptyString.
Proof. apply truthy_true. Qed.

Section WithParser.
Variable JSON_parse : string -> option Json.

Lemma credsOfJson_yields (raw : option string) (c : Credentials) :
  credsOfJson JSON_parse raw = Some c <-> jsonYields JSON_parse raw c.
Proof.
  unfold credsOfJson, jsonYields. split.
  - destruct raw as [text|]; [|discriminate].
    destruct (Js.truthy text) eqn:Ht; [|discriminate].
    destruct (JSON_parse text) as [obj|] eqn:Hp; [|discriminate].
    destruct (prop obj "username") as [u|] eqn:Hu; [|discriminate].
    destruct (prop obj "key") as [k|] eqn:Hk; [|discriminate].
    destruct (jsTruthy u && jsTruthy k) eqn:Hb; [|discriminate].
    intros [= <-]. apply andb_true_iff in Hb as [Hb1 Hb2].
    exists text, obj. cbn [username key].
    repeat split; try assumption. now apply truthy_true.
  - intros (text & obj & -> & Ht & Hp & Hu & Hk & Tu & Tk).
    apply truthy_true in Ht. rewrite Ht, Hp, Hu, Hk, Tu, Tk.
    now destruct c.
Qed.

Lemma credsOfEnvPair_yields (env : gmap string string) (c : Credentials) :
  credsOfEnvPair env = Some c <-> envPairYields env c.
Proof.
  unfold credsOfEnvPair, envPairYields. split.
  - destruct (env !! KAGGLE_USERNAME) as [u|]; [|discriminate].
    destruct (env !! KAGGLE_KEY) as [k|]; [|discriminate].
    destruct (Js.truthy u && Js.truthy k) eqn:Hb; [|discriminate].
    intros [= <-]. apply andb_true_iff in Hb as [Hb1 Hb2].
    exists u, k. repeat split; now apply truthy_true.
  - intros (u & k & -> & -> & Hu & Hk & ->).
    apply truthy_true in Hu, Hk. now rewrite Hu, Hk.
Qed.

Lemma credsOfJson_none (raw : option string) :
  credsOfJson JSON_parse raw = None <-> (forall c, ~ jsonYields JSON_parse raw c).
Proof.
  split.
  - intros H c Hy. apply credsOfJson_yields in Hy. congruence.
  - intros H. destruct (credsOfJson JSON_parse raw) as [c|] eqn:E; [|reflexivity].
    apply credsOfJson_yields in E. now destruct (H c).
Qed.

Lemma credsOfEnvPair_none (env : gmap string string) :
  credsOfEnvPair env = None <-> (forall c, ~ envPairYields env c).
Proof.
  split.
  - intros H c Hy. apply credsOfEnvPair_yields in Hy. congruence.
  - intros H. destruct (credsOfEnvPair env) as [c|] eqn:E; [|reflexivity].
    apply credsOfEnvPair_yields in E. now destruct (H c).
Qed.

(** C2.  For every parser, every content of the secret store and every
    process environment: the secret-store JSON wins when it yields a pair;
    otherwise the JSON variable wins when it yields one; otherwise the two
    discrete variables are used when both are set and not empty; and the
    resolution fails with [NoCredentials] exactly when none of the three
    yields a pair.  A source yields a pair when it parses and both fields
    are there with truthy values, which for a string means not empty; a
    source that is missing, empty, malformed or short of a field yields
    nothing and is passed over without an error. *)
Theorem getKaggleCreds_resolution
    (secret : option string) (env : gmap string string) :
  (forall c, jsonYields JSON_parse secret c ->
     getKaggleCreds JSON_parse secret env = Ok c)
  /\ (forall c,
        (forall c', ~ jsonYields JSON_parse secret c') ->
        jsonYields JSON_parse (env !! KAGGLE_TOKEN_JSON) c ->
        getKaggleCreds JSON_parse secret env = Ok c)
  /\ (forall c,
        (forall c', ~ jsonYields JSON_parse secret c') ->
        (forall c', ~ jsonYields JSON_parse (env !! KAGGLE_TOKEN_JSON) c') ->
        envPairYields env c ->
        getKaggleCreds JSON_parse secret env = Ok c)
  /\ (getKaggleCreds JSON_parse secret env = NoCredentials <->
        forall c, ~ jsonYields JSON_parse secret c
                  /\ ~ jsonYields JSON_parse (env !! KAGGLE_TOKEN_JSON) c
                  /\ ~ envPairYields env c)
  /\ (forall s, jsTruthy (JStr s) = true <-> s <> EmptyString).
Proof.
  unfold getKaggleCreds.
  split; [|split; [|split; [|split]]].
  - intros c H. apply credsOfJson_yields in H. now rewrite H.
  - intros c H1 H2. apply credsOfJson_none in H1. apply credsOfJson_yields in H2.
    now rewrite H1, H2.
  - intros c H1 H2 H3. apply credsOfJson_none in H1, H2.
    apply credsOfEnvPair_yields in H3. now rewrite H1, H2, H3.
  - split.
    + intros H c.
      destruct (credsOfJson JSON_parse secret) eqn:E1; [discriminate|].
      destruct (credsOfJson JSON_parse (env !! KAGGLE_TOKEN_JSON)) eqn:E2; [discriminate|].
      destruct (credsOfEnvPair env) eqn:E3; [discriminate|].
      repeat split.
      * now apply credsOfJson_none.
      * now apply credsOfJson_none.
      * now apply credsOfEnvPair_none.
    + intros H.
      assert (E1 : credsOfJson JSON_parse secret = None).
      { apply credsOfJson_none. intros c. apply (H c). }
      assert (E2 : credsOfJson JSON_parse (env !! KAGGLE_TOKEN_JSON) = None).
      { apply credsOfJson_none. intros c. apply (H c). }
      assert (E3 : credsOfEnvPair env = None).
      { apply credsOfEnvPair_none. intros c. apply (H c). }
      now rewrite E1, E2, E3.
  - apply jsTruthy_string.
Qed.

End WithParser.

End CredsProps.

(** ** Running the command-line tool *)

Module CliProps.
Import Creds Cli.

Example run_bob :
  runKaggleCLI bobOnlyParser true "kaggle" Shell.Posix None bobEnv
    ["kernels"; "list"; "--mine"] None
  = Spawned (mkSpawn "kaggle 'kernels' 'list' '--mine'"
               (mkOptions None (spawnEnv bobEnv (mkCreds (JStr "bob") (JStr "k1"))))
               "$ kaggle kernels list --mine").
Proof. reflexivity. Qed.

(** C8 as it is worded fails: the output of a run is fetched with the
    kernel id as an argument, and the kernel id starts with the user name,
    so the command line holds the user name although it was built from the
    arguments alone. *)
Lemma command_line_may_hold_username :
  getKaggleCreds bobOnlyParser None bobEnv = Ok (mkCreds (JStr "bob") (JStr "k1"))
  /\ (exists opts echo,
        runKaggleCLI bobOnlyParser true "kaggle" Shell.Posix None bobEnv
          ["kernels"; "output"; "bob/my-run"] None
        = Spawned (mkSpawn "kaggle 'kernels' 'output' 'bob/my-run'" opts echo))
  /\ includes "bob" "kaggle 'kernels' 'output' 'bob/my-run'" = true.
Proof.
  split; [reflexivity|]. split; [|reflexivity].
  eexists _, _. reflexivity.
Qed.

Section WithParser.
Variable JSON_parse : string -> option Json.

(** C8, amended.  Whenever [runKaggleCLI] spawns the tool, the command
    line is the tool's path followed by the escaped arguments: it is the
    same whatever the credential sources hold, and so is the echoed line.
    The resolved credentials are in the environment of the process under
    the two names [KAGGLE_USERNAME] and [KAGGLE_KEY], and every other
    variable is inherited from the environment of the extension. *)
Theorem runKaggleCLI_credentials_in_env_only
    (cliPath : string) (p : Shell.Platform) (args : list string)
    (workDir : option string) :
  (forall available secret processEnv req,
      runKaggleCLI JSON_parse available cliPath p secret processEnv args workDir
      = Spawned req ->
      command req = commandLine cliPath p args
      /\ echoed req = "$ " +:+ cliPath +:+ " " +:+ Js.join " " args
      /\ cwd (options req) = workDir
      /\ exists creds,
           getKaggleCreds JSON_parse secret processEnv = Ok creds
           /\ env (options req) !! KAGGLE_USERNAME = Some (username creds)
           /\ env (options req) !! KAGGLE_KEY = Some (key creds)
           /\ forall name, name <> KAGGLE_USERNAME -> name <> KAGGLE_KEY ->
                env (options req) !! name = JStr <$> (processEnv !! name))
  /\ (forall available1 secret1 env1 req1 available2 secret2 env2 req2,
        runKaggleCLI JSON_parse available1 cliPath p secret1 env1 args workDir
        = Spawned req1 ->
        runKaggleCLI JSON_parse available2 cliPath p secret2 env2 args workDir
        = Spawned req2 ->
        command req1 = command req2 /\ echoed req1 = echoed req2).
Proof.
  assert (H : forall available secret processEnv req,
      runKaggleCLI JSON_parse available cliPath p secret processEnv args workDir
      = Spawned req ->
      command req = commandLine cliPath p args
      /\ echoed req = "$ " +:+ cliPath +:+ " " +:+ Js.join " " args
      /\ cwd (options req) = workDir
      /\ exists creds,
           getKaggleCreds JSON_parse secret processEnv = Ok creds
           /\ env (options req) !! KAGGLE_USERNAME = Some (username creds)
           /\ env (options req) !! KAGGLE_KEY = Some (key creds)
           /\ forall name, name <> KAGGLE_USERNAME -> name <> KAGGLE_KEY ->
                env (options req) !! name = JStr <$> (processEnv !! name)).
  { intros available secret processEnv req. unfold runKaggleCLI.
    destruct available; [|discriminate]. cbn [negb].
    destruct (getKaggleCreds JSON_parse secret processEnv) as [creds|] eqn:E;
      [|discriminate].
    intros [= <-]. cbn [command echoed options cwd env].
    repeat split. exists creds. split; [reflexivity|].
    unfold spawnEnv. split; [|split].
    - rewrite lookup_insert_ne by discriminate. apply lookup_insert_eq.
    - apply lookup_insert_eq.
    - intros name H1 H2.
      rewrite lookup_insert_ne by congruence.
      rewrite lookup_insert_ne by congruence.
      apply lookup_fmap. }
  split; [exact H|].
  intros a1 s1 e1 r1 a2 s2 e2 r2 H1 H2.
  apply H in H1 as (C1 & E1 & _). apply H in H2 as (C2 & E2 & _).
  split; congruence.
Qed.

End WithParser.

End CliProps.

(** ** Attaching a dataset *)

Module ProjectProps.
Import Project.

Example arrayFromSet_keeps_first :
  arrayFromSet ["b"; "a"; "b"; "c"; "a"] = ["b"; "a"; "c"].
Proof. reflexivity. Qed.

Example attach_iris_twice :
  datasets (attachSlug (attachSlug irisProject "carol/mnist") "carol/mnist")
  = Some ["alice/iris"; "bob/wine"; "carol/mnist"].
Proof. reflexivity. Qed.

(** *** The set built from an array *)

Lemma inList_In (x : string) (l : list string) : inList x l = true <-> In x l.
Proof.
  unfold inList. rewrite existsb_exists. split.
  - intros (y & Hy & E). apply String.eqb_eq in E. now subst.
  - intros H. exists x. split; [assumption | apply String.eqb_refl].
Qed.

Lemma inList_false (x : string) (l : list string) : inList x l = false <-> ~ In x l.
Proof.
  rewrite <- inList_In. destruct (inList x l); split; congruence.
Qed.

Lemma setAddAll_In (l : list string) :
  forall seen x, In x (setAddAll seen l) <-> In x seen \/ In x l.
Proof.
  induction l as [|y l IH]; intros seen x; cbn [setAddAll].
  - simpl. tauto.
  - rewrite IH. destruct (inList y seen) eqn:E.
    + apply inList_In in E. simpl. split; [tauto|].
      intros [H|[->|H]]; tauto.
    + rewrite in_app_iff. simpl. tauto.
Qed.

Lemma setAddAll_NoDup (l : list string) :
  forall seen, NoDup seen -> NoDup (setAddAll seen l).
Proof.
  induction l as [|y l IH]; intros seen H; cbn [setAddAll]; [assumption|].
  apply IH. destruct (inList y seen) eqn:E; [assumption|].
  apply inList_false in E.
  apply NoDup_app. split; [assumption|]. split; [|apply NoDup_singleton].
  intros z Hz Hy. apply list_elem_of_In in Hz, Hy.
  destruct Hy as [<-|[]]. contradiction.
Qed.

(** Adding an array with no repetition and nothing of the set yet. *)
Lemma setAddAll_fresh (l : list string) :
  forall seen, NoDup (seen ++ l) -> setAddAll seen l = seen ++ l.
Proof.
  induction l as [|y l IH]; intros seen H; cbn [setAddAll].
  - now rewrite app_nil_r.
  - assert (E : inList y seen = false).
    { apply inList_false. intros Hin.
      apply NoDup_app in H as (_ & H & _).
      apply (H y); apply list_elem_of_In; [assumption | now left]. }
    rewrite E. rewrite IH.
    + now rewrite <- app_assoc.
    + now rewrite <- app_assoc.
Qed.

Lemma setAddAll_app (l1 l2 : list string) :
  forall seen, setAddAll seen (l1 ++ l2) = setAddAll (setAddAll seen l1) l2.
Proof.
  induction l1 as [|y l1 IH]; intros seen; cbn [setAddAll app]; [reflexivity|].
  apply IH.
Qed.

Lemma arrayFromSet_NoDup (l : list string) : NoDup (arrayFromSet l).
Proof. apply setAddAll_NoDup. constructor. Qed.

Lemma arrayFromSet_In (l : list string) (x : string) :
  In x (arrayFromSet l) <-> In x l.
Proof. unfold arrayFromSet. rewrite setAddAll_In. simpl. tauto. Qed.

Lemma arrayFromSet_id (l : list string) : NoDup l -> arrayFromSet l = l.
Proof. intros H. unfold arrayFromSet. now rewrite setAddAll_fresh. Qed.

(** Adding an element the array already holds changes nothing. *)
Lemma arrayFromSet_again (l : list string) (x : string) :
  NoDup l -> In x l -> arrayFromSet (l ++ [x]) = l.
Proof.
  intros Hn Hx. unfold arrayFromSet. rewrite setAddAll_app.
  fold (arrayFromSet l). rewrite arrayFromSet_id by assumption.
  cbn [setAddAll]. apply inList_In in Hx. now rewrite Hx.
Qed.

(** *** One attachment on a descriptor *)

Lemma attachSlug_entries (yml : KaggleYml) (ds : string) :
  entriesFor ds (attachSlug yml ds) = 1
  /\ NoDup (orEmpty (datasets (attachSlug yml ds))).
Proof.
  unfold entriesFor. cbn [attachSlug datasets orEmpty].
  split; [|apply arrayFromSet_NoDup].
  apply NoDup_count_occ'; [apply NoDup_ListNoDup, arrayFromSet_NoDup|].
  apply arrayFromSet_In, in_app_iff. right. now left.
Qed.

Lemma attachSlug_idempotent (yml : KaggleYml) (ds : string) :
  attachSlug (attachSlug yml ds) ds = attachSlug yml ds.
Proof.
  unfold attachSlug at 1. cbn [attachSlug project kernel_slug code_file accelerator
    internet privacy datasets competitions outputs orEmpty].
  rewrite arrayFromSet_again.
  - reflexivity.
  - apply arrayFromSet_NoDup.
  - apply arrayFromSet_In, in_app_iff. right. now left.
Qed.

(** *** The commands on the file *)

Section WithYaml.
Context {Text : Type}.
Variable yaml_load : Text -> option (option KaggleYml).
Variable yaml_dump : KaggleYml -> Text.

(** What is asked of the YAML library: a descriptor that was dumped loads
    back as itself. *)
Hypothesis yaml_roundtrip : forall y, yaml_load (yaml_dump y) = Some (Some y).

Lemma loadYml_dump (y : KaggleYml) :
  loadYml yaml_load (Some (yaml_dump y)) = Some y.
Proof using yaml_roundtrip. unfold loadYml. now rewrite yaml_roundtrip. Qed.

Lemma loadYml_some (file : option Text) (yml : KaggleYml) :
  loadYml yaml_load file = Some yml -> exists text, file = Some text.
Proof using Type. destruct file as [t|]; [eauto | discriminate]. Qed.

Lemma attachToFile_loaded (ds : string) (file : option Text) (yml : KaggleYml) :
  loadYml yaml_load file = Some yml ->
  loadYml yaml_load (fst (attachToFile yaml_load yaml_dump ds file))
  = Some (attachSlug yml ds).
Proof using yaml_roundtrip.
  intros H. unfold attachToFile. rewrite H. cbn [fst]. apply loadYml_dump.
Qed.

Lemma attachDataset_loaded (ds : string) (file : option Text) (yml : KaggleYml) :
  loadYml yaml_load file = Some yml -> ds <> EmptyString ->
  loadYml yaml_load (fst (attachDataset yaml_load yaml_dump true (Some ds) file))
  = Some (attachSlug yml ds).
Proof using yaml_roundtrip.
  intros H Hd. unfold attachDataset. cbn [negb].
  apply CsvProps.truthy_true in Hd. rewrite Hd.
  now apply attachToFile_loaded.
Qed.

Lemma attachDatasetFromTree_loaded (ds : string) (create : bool)
    (initialized file : option Text) (yml : KaggleYml) :
  loadYml yaml_load file = Some yml -> ds <> EmptyString ->
  loadYml yaml_load
    (fst (attachDatasetFromTree yaml_load yaml_dump true (Some ds) create initialized file))
  = Some (attachSlug yml ds).
Proof using yaml_roundtrip.
  intros H Hd. unfold attachDatasetFromTree.
  apply CsvProps.truthy_true in Hd. rewrite Hd. cbn [negb].
  destruct (loadYml_some _ _ H) as [text ->].
  now apply attachToFile_loaded.
Qed.

(** C5.  Take any project file that loads and any slug that is not the
    empty string (an empty answer attaches nothing).  After the slug is
    attached once, by either command, the file loads as a descriptor in
    which the slug has exactly one entry and no dataset is listed twice,
    whether or not the slug, or a repetition, was there before; attaching
    the same slug a second time leaves exactly that descriptor. *)
Theorem attach_same_slug_one_entry
    (file : option Text) (yml : KaggleYml) (ds : string)
    (create : bool) (initialized : option Text) :
  loadYml yaml_load file = Some yml ->
  ds <> EmptyString ->
  let attach := fun f => fst (attachDataset yaml_load yaml_dump true (Some ds) f) in
  let attachT := fun f =>
    fst (attachDatasetFromTree yaml_load yaml_dump true (Some ds) create initialized f) in
  entriesFor ds (attachSlug yml ds) = 1
  /\ NoDup (orEmpty (datasets (attachSlug yml ds)))
  /\ loadYml yaml_load (attach file) = Some (attachSlug yml ds)
  /\ loadYml yaml_load (attach (attach file)) = Some (attachSlug yml ds)
  /\ loadYml yaml_load (attachT file) = Some (attachSlug yml ds)
  /\ loadYml yaml_load (attachT (attachT file)) = Some (attachSlug yml ds)
  /\ loadYml yaml_load (attachT (attach file)) = Some (attachSlug yml ds)
  /\ loadYml yaml_load (attach (attachT file)) = Some (attachSlug yml ds).
Proof using yaml_roundtrip.
  intros H Hd attach attachT.
  assert (A1 : forall f y, loadYml yaml_load f = Some y ->
                 loadYml yaml_load (attach f) = Some (attachSlug y ds)).
  { intros f y Hf. now apply attachDataset_loaded. }
  assert (A2 : forall f y, loadYml yaml_load f = Some y ->
                 loadYml yaml_load (attachT f) = Some (attachSlug y ds)).
  { intros f y Hf. now apply attachDatasetFromTree_loaded. }
  pose proof (attachSlug_entries yml ds) as [E1 E2].
  pose proof (A1 _ _ H) as H1. pose proof (A2 _ _ H) as H2.
  repeat split; try assumption.
  - rewrite (A1 _ _ H1). now rewrite attachSlug_idempotent.
  - rewrite (A2 _ _ H2). now rewrite attachSlug_idempotent.
  - rewrite (A2 _ _ H1). now rewrite attachSlug_idempotent.
  - rewrite (A1 _ _ H2). now rewrite attachSlug_idempotent.
Qed.

(** The fields of a descriptor other than [datasets]. *)
Lemma attachSlug_frame (yml : KaggleYml) (ds : string) :
  project (attachSlug yml ds) = project yml
  /\ kernel_slug (attachSlug yml ds) = kernel_slug yml
  /\ code_file (attachSlug yml ds) = code_file yml
  /\ accelerator (attachSlug yml ds) = accelerator yml
  /\ internet (attachSlug yml ds) = internet yml
  /\ privacy (attachSlug yml ds) = privacy yml
  /\ competitions (attachSlug yml ds) = competitions yml
  /\ outputs (attachSlug yml ds) = outputs yml
  /\ (forall x, In x (orEmpty (datasets yml)) ->
                In x (orEmpty (datasets (attachSlug yml ds)))).
Proof using Type.
  repeat split. intros x Hx. cbn [attachSlug datasets orEmpty].
  apply arrayFromSet_In, in_app_iff. now left.
Qed.

(** C6.  Take any project file that loads.  Whatever the answer given to
    [kaggle.attachDataset], and whatever the item handed to
    [kaggle.attachDatasetFromTree], the file still loads afterwards, every
    field other than [datasets] has the value it had, and every dataset
    that was listed is still listed. *)
Theorem attach_preserves_other_fields
    (hasRoot : bool) (input : option string) (create : bool)
    (initialized file : option Text) (yml : KaggleYml) :
  loadYml yaml_load file = Some yml ->
  forall after,
    after = fst (attachDataset yaml_load yaml_dump hasRoot input file) \/
    after = fst (attachDatasetFromTree yaml_load yaml_dump hasRoot input
                   create initialized file) ->
    exists yml',
      loadYml yaml_load after = Some yml'
      /\ project yml' = project yml
      /\ kernel_slug yml' = kernel_slug yml
      /\ code_file yml' = code_file yml
      /\ accelerator yml' = accelerator yml
      /\ internet yml' = internet yml
      /\ privacy yml' = privacy yml
      /\ competitions yml' = competitions yml
      /\ outputs yml' = outputs yml
      /\ (forall x, In x (orEmpty (datasets yml)) -> In x (orEmpty (datasets yml'))).
Proof using yaml_roundtrip.
  intros H after Hafter.
  assert (Same : exists yml', loadYml yaml_load file = Some yml'
      /\ project yml' = project yml
      /\ kernel_slug yml' = kernel_slug yml
      /\ code_file yml' = code_file yml
      /\ accelerator yml' = accelerator yml
      /\ internet yml' = internet yml
      /\ privacy yml' = privacy yml
      /\ competitions yml' = competitions yml
      /\ outputs yml' = outputs yml
      /\ (forall x, In x (orEmpty (datasets yml)) -> In x (orEmpty (datasets yml')))).
  { exists yml. repeat split; auto. }
  assert (Att : forall ds, exists yml',
      loadYml yaml_load (fst (attachToFile yaml_load yaml_dump ds file)) = Some yml'
      /\ project yml' = project yml
      /\ kernel_slug yml' = kernel_slug yml
      /\ code_file yml' = code_file yml
      /\ accelerator yml' = accelerator yml
      /\ internet yml' = internet yml
      /\ privacy yml' = privacy yml
      /\ competitions yml' = competitions yml
      /\ outputs yml' = outputs yml
      /\ (forall x, In x (orEmpty (datasets yml)) -> In x (orEmpty (datasets yml')))).
  { intros ds. exists (attachSlug yml ds).
    split; [now apply attachToFile_loaded | apply attachSlug_frame]. }
  destruct Hafter as [-> | ->].
  - unfold attachDataset. destruct hasRoot; cbn [negb fst]; [|exact Same].
    destruct input as [ds|]; [|exact Same].
    destruct (Js.truthy ds); [apply Att | exact Same].
  - unfold attachDatasetFromTree.
    destruct input as [ds|]; [|exact Same].
    destruct (Js.truthy ds); cbn [negb]; [|exact Same].
    destruct hasRoot; cbn [negb fst]; [|exact Same].
    destruct (loadYml_some _ _ H) as [text ->]. apply Att.
Qed.

End WithYaml.

(** C5 at the sample project, whose list names the slug twice already. *)
Lemma attach_same_slug_witness :
  entriesFor "alice/iris" (attachSlug irisProject "alice/iris") = 1
  /\ loadYml idLoad
       (fst (attachDataset idLoad idDump true (Some "alice/iris")
          (fst (attachDataset idLoad idDump true (Some "alice/iris")
             (Some irisProject)))))
     = Some (attachSlug irisProject "alice/iris").
Proof.
  pose proof (attach_same_slug_one_entry idLoad idDump (fun y => eq_refl)
                (Some irisProject) irisProject "alice/iris" false None
                eq_refl ltac:(discriminate)) as H.
  cbv zeta in H. destruct H as (H1 & _ & _ & H4 & _).
  exact (conj H1 H4).
Defined.

(** C6 at the sample project. *)
Lemma attach_preserves_witness :
  exists yml',
    loadYml idLoad
      (fst (attachDataset idLoad idDump true (Some "carol/mnist") (Some irisProject)))
    = Some yml'
    /\ project yml' = Some "iris"
    /\ outputs yml' = Some (mkOutputs (Some ".kaggle-outputs"))
    /\ competitions yml' = Some ["titanic"].
Proof.
  destruct (attach_preserves_other_fields idLoad idDump (fun y => eq_refl)
              true (Some "carol/mnist") false None (Some irisProject) irisProject
              eq_refl _ (or_introl eq_refl))
    as (yml' & L & P & _ & _ & _ & _ & _ & C & O & _).
  exists yml'. repeat split; assumption.
Defined.

End ProjectProps.

(** ** Recording a submitted run *)

Module SubmitProps.
Import Submit.
Import CsvProps.

Example firstKaggleUrl_scenario :
  firstKaggleUrl (stdout urlOnStdout) = Some "https://www.kaggle.com/code/bob/my-run".
Proof. reflexivity. Qed.

Example recordPush_scenario :
  recordPush "2024-05-01T10:00:00.000Z" urlOnStdout (Some EmptyString)
  = (Some ("2024-05-01T10:00:00.000Z | https://www.kaggle.com/code/bob/my-run" +:+ Js.lf),
     Some "https://www.kaggle.com/code/bob/my-run").
Proof. reflexivity. Qed.

Example firstKaggleUrl_plain_http :
  firstKaggleUrl "see http://www.kaggle.com/a-b/c_d?x=1" = Some "http://www.kaggle.com/a-b/c_d".
Proof. reflexivity. Qed.

Example firstKaggleUrl_other_host :
  firstKaggleUrl "https://kaggle.com/code/bob https://www.kaggle.com/" = None.
Proof. reflexivity. Qed.

Lemma stripPrefix_spec (pre : string) :
  forall s r, stripPrefix pre s = Some r <-> s = pre +:+ r.
Proof.
  induction pre as [|a pre IH]; intros s r; simpl.
  - split; [intros [= ->] | intros ->]; reflexivity.
  - destruct s as [|b s]; [split; discriminate|].
    destruct (Ascii.eqb a b) eqn:E.
    + apply Ascii.eqb_eq in E. subst b. rewrite IH. split; [intros ->|intros [= ->]]; reflexivity.
    + split; [discriminate|]. intros [= <- _]. now rewrite Ascii.eqb_refl in E.
Qed.

Lemma spanUrlChars_spec (s : string) :
  forall run rest, spanUrlChars s = (run, rest) ->
    s = run +:+ rest /\ allUrlChars run = true /\ noUrlCharAhead rest.
Proof.
  induction s as [|c s IH]; intros run rest; simpl.
  - intros [= <- <-]. now repeat split.
  - destruct (isUrlChar c) eqn:E.
    + destruct (spanUrlChars s) as [run' rest'] eqn:E'.
      intros [= <- <-]. destruct (IH _ _ eq_refl) as (-> & H1 & H2).
      repeat split; simpl; [now rewrite E | assumption].
    + intros [= <- <-]. repeat split. simpl. assumption.
Qed.

Lemma spanUrlChars_app (p : string) :
  allUrlChars p = true ->
  forall r, spanUrlChars (p +:+ r)
            = (p +:+ fst (spanUrlChars r), snd (spanUrlChars r)).
Proof.
  induction p as [|c p IH]; intros H r; simpl.
  - now destruct (spanUrlChars r).
  - simpl in H. apply andb_true_iff in H as [H1 H2]. rewrite H1.
    rewrite IH by assumption. reflexivity.
Qed.

Lemma length_app_str (a b : string) :
  String.length (a +:+ b) = String.length a + String.length b.
Proof. induction a as [|c a IH]; simpl; [reflexivity | now rewrite IH]. Qed.

Lemma hostAndPath_sound (scheme rest u : string) :
  hostAndPath scheme rest = Some u ->
  exists path after,
    rest = hostPart +:+ path +:+ after /\ u = scheme +:+ hostPart +:+ path /\
    path <> EmptyString /\ allUrlChars path = true /\ noUrlCharAhead after.
Proof.
  unfold hostAndPath.
  destruct (stripPrefix hostPart rest) as [body|] eqn:E; [|discriminate].
  apply stripPrefix_spec in E.
  destruct (spanUrlChars body) as [path after] eqn:S.
  destruct (spanUrlChars_spec _ _ _ S) as (-> & H1 & H2).
  destruct (Js.truthy path) eqn:T; [|discriminate].
  intros [= <-]. exists path, after. repeat split; try assumption.
  now apply truthy_true.
Qed.

Lemma hostAndPath_complete (scheme path after : string) :
  path <> EmptyString -> allUrlChars path = true ->
  exists more,
    hostAndPath scheme (hostPart +:+ path +:+ after)
    = Some (scheme +:+ hostPart +:+ path +:+ more).
Proof.
  intros Hp Ha. unfold hostAndPath.
  assert (E : stripPrefix hostPart (hostPart +:+ path +:+ after) = Some (path +:+ after))
    by now apply stripPrefix_spec.
  rewrite E. rewrite spanUrlChars_app by assumption.
  exists (fst (spanUrlChars after)).
  destruct path as [|c path]; [congruence|]. reflexivity.
Qed.

Lemma kaggleUrlAt_sound (s u : string) :
  kaggleUrlAt s = Some u ->
  exists after, s = u +:+ after /\ IsKaggleUrl u.
Proof.
  unfold kaggleUrlAt.
  destruct (stripPrefix "http" s) as [r0|] eqn:E; [|discriminate].
  apply stripPrefix_spec in E. subst s.
  assert (Plain : hostAndPath "http" r0 = Some u ->
            exists after, "http" +:+ r0 = u +:+ after /\ IsKaggleUrl u).
  { intros H. apply hostAndPath_sound in H as (path & after & -> & -> & Hp & Ha & _).
    exists after. split.
    - now rewrite !app_assoc_str.
    - exists "http", path. auto. }
  destruct r0 as [|c r1]; [exact Plain|].
  destruct (Ascii.eqb c "s") eqn:Ec.
  - apply Ascii.eqb_eq in Ec. subst c.
    destruct (hostAndPath "https" r1) as [u1|] eqn:H1; [|exact Plain].
    intros [= <-].
    apply hostAndPath_sound in H1 as (path & after & -> & -> & Hp & Ha & _).
    exists after. split.
    + now rewrite !app_assoc_str.
    + exists "https", path. auto.
  - assert (Same : (match c with
                    | "s"%char => match hostAndPath "https" r1 with
                                  | Some u0 => Some u0
                                  | None => hostAndPath "http" (String c r1)
                                  end
                    | _ => hostAndPath "http" (String c r1)
                    end) = hostAndPath "http" (String c r1)).
    { destruct c as [[] [] [] [] [] [] [] []]; try reflexivity. discriminate. }
    (* unfold the char match *)
    intros H. apply Plain. rewrite <- Same. exact H.
Qed.

Lemma kaggleUrlAt_complete (u after : string) :
  IsKaggleUrl u ->
  exists v, kaggleUrlAt (u +:+ after) = Some v
            /\ String.length u <= String.length v.
Proof.
  intros (scheme & path & Hs & -> & Hp & Ha).
  destruct (hostAndPath_complete "http" path after Hp Ha) as [more1 M1].
  destruct (hostAndPath_complete "https" path after Hp Ha) as [more2 M2].
  destruct Hs as [-> | ->].
  - exists ("http" +:+ hostPart +:+ path +:+ more1). split.
    + rewrite !app_assoc_str. unfold kaggleUrlAt.
      change (stripPrefix "http" ("http" +:+ hostPart +:+ path +:+ after))
        with (Some (hostPart +:+ path +:+ after)).
      exact M1.
    + rewrite !length_app_str. lia.
  - exists ("https" +:+ hostPart +:+ path +:+ more2). split.
    + rewrite !app_assoc_str. unfold kaggleUrlAt.
      change (stripPrefix "http" ("https" +:+ hostPart +:+ path +:+ after))
        with (Some (String "s" (hostPart +:+ path +:+ after))).
      cbv iota beta. now rewrite M2.
    + rewrite !length_app_str. lia.
Qed.

Lemma kaggleUrlAt_none (s : string) :
  kaggleUrlAt s = None -> forall u after, s = u +:+ after -> ~ IsKaggleUrl u.
Proof.
  intros H u after -> Hu.
  destruct (kaggleUrlAt_complete u after Hu) as (v & Hv & _). congruence.
Qed.

Lemma kaggleUrlAt_longest (s u : string) :
  kaggleUrlAt s = Some u ->
  forall u' after', s = u' +:+ after' -> IsKaggleUrl u' ->
                    String.length u' <= String.length u.
Proof.
  intros H u' after' -> Hu'.
  destruct (kaggleUrlAt_complete u' after' Hu') as (v & Hv & L). congruence.
Qed.

Lemma firstKaggleUrl_some (text : string) :
  forall u, firstKaggleUrl text = Some u -> FirstMatch text u.
Proof.
  induction text as [|c text IH]; intros u.
  - cbn [firstKaggleUrl]. destruct (kaggleUrlAt EmptyString) eqn:E; [|discriminate].
    discriminate.
  - cbn [firstKaggleUrl]. destruct (kaggleUrlAt (String c text)) as [v|] eqn:E.
    + intros [= ->].
      destruct (kaggleUrlAt_sound _ _ E) as (after & Hs & Hu).
      exists EmptyString, after. repeat split; try assumption.
      * simpl. lia.
      * intros u' after' Heq Hu'.
        apply (kaggleUrlAt_longest _ _ E u' after'); [|assumption].
        rewrite Hs. exact Heq.
    + intros H. destruct (IH _ H) as (before & after & -> & Hu & Hleft & Hlong).
      exists (String c before), after. repeat split; try assumption.
      intros before' u' after' Heq Hu'.
      destruct before' as [|d before'].
      * exfalso. simpl in Heq.
        exact (kaggleUrlAt_none _ E u' after' Heq Hu').
      * simpl in Heq. injection Heq as _ Heq. simpl.
        apply le_n_S. now apply (Hleft before' u' after').
Qed.

Lemma firstKaggleUrl_none (text : string) :
  firstKaggleUrl text = None -> NoMatchIn text.
Proof.
  induction text as [|c text IH]; cbn [firstKaggleUrl].
  - destruct (kaggleUrlAt EmptyString) eqn:E; [discriminate|].
    intros _ before u after Heq Hu.
    destruct before; [|discriminate]. simpl in Heq.
    exact (kaggleUrlAt_none _ E u after Heq Hu).
  - destruct (kaggleUrlAt (String c text)) eqn:E; [discriminate|].
    intros H before u after Heq Hu.
    destruct before as [|d before].
    + simpl in Heq. exact (kaggleUrlAt_none _ E u after Heq Hu).
    + simpl in Heq. injection Heq as _ Heq.
      exact (IH H before u after Heq Hu).
Qed.

Lemma app_inv_length (a : string) :
  forall b c d, a +:+ b = c +:+ d -> String.length a = String.length c ->
                a = c /\ b = d.
Proof.
  induction a as [|x a IH]; intros b c d H L; destruct c as [|y c]; simpl in L; try discriminate.
  - simpl in H. auto.
  - simpl in H. injection H as -> H. injection L as L.
    destruct (IH _ _ _ H L) as [-> ->]. auto.
Qed.

Lemma FirstMatch_unique (text u v : string) :
  FirstMatch text u -> FirstMatch text v -> u = v.
Proof.
  intros (bu & au & Hu & Ku & Lu & Gu) (bv & av & Hv & Kv & Lv & Gv).
  assert (L : String.length bu = String.length bv).
  { apply Nat.le_antisymm.
    - apply (Lu bv v av); assumption.
    - apply (Lv bu u au); assumption. }
  rewrite Hu in Hv.
  destruct (app_inv_length _ _ _ _ Hv L) as [_ E].
  assert (L2 : String.length u = String.length v).
  { apply Nat.le_antisymm.
    - apply (Gv u au); [now symmetry | assumption].
    - apply (Gu v av); assumption. }
  now destruct (app_inv_length _ _ _ _ E L2).
Qed.

Lemma firstKaggleUrl_iff (text u : string) :
  firstKaggleUrl text = Some u <-> FirstMatch text u.
Proof.
  split; [apply firstKaggleUrl_some|].
  intros H. destruct (firstKaggleUrl text) as [v|] eqn:E.
  - apply firstKaggleUrl_some in E. f_equal. now apply (FirstMatch_unique text).
  - apply firstKaggleUrl_none in E.
    destruct H as (b & a & Ht & Hu & _). now destruct (E b u a Ht).
Qed.

Lemma countChar_app (c : ascii) (a b : string) :
  countChar c (a +:+ b) = countChar c a + countChar c b.
Proof. induction a as [|d a IH]; simpl; [reflexivity | rewrite IH; lia]. Qed.

Lemma allUrlChars_no_lf (s : string) :
  allUrlChars s = true -> countChar Js.lfChar s = 0.
Proof.
  induction s as [|c s IH]; simpl; [reflexivity|].
  intros H. apply andb_true_iff in H as [H1 H2]. rewrite (IH H2).
  destruct (Ascii.eqb c Js.lfChar) eqn:E; [|reflexivity].
  apply Ascii.eqb_eq in E. subst c. discriminate.
Qed.

Lemma IsKaggleUrl_no_lf (u : string) : IsKaggleUrl u -> countChar Js.lfChar u = 0.
Proof.
  intros (scheme & path & Hs & -> & _ & Ha).
  rewrite !countChar_app, (allUrlChars_no_lf _ Ha).
  destruct Hs as [-> | ->]; reflexivity.
Qed.

Lemma runRecord_one_line (ts u : string) :
  countChar Js.lfChar ts = 0 -> IsKaggleUrl u -> countChar Js.lfChar (runRecord ts u) = 1.
Proof.
  intros Ht Hu. unfold runRecord. rewrite !countChar_app, Ht, (IsKaggleUrl_no_lf _ Hu).
  reflexivity.
Qed.

Lemma IsKaggleUrl_truthy (u : string) : IsKaggleUrl u -> Js.truthy u = true.
Proof. intros (scheme & path & [-> | ->] & -> & _). all: reflexivity. Qed.

(** C3, amended.  After a push that succeeded, the run URL is the first
    match of the pattern in the standard output of the tool, the leftmost
    and longest there; the error stream is not scanned.  When there is
    such a match, the one line made of the time stamp, a bar between
    spaces and the URL is appended to the run log, and the command reports
    the run.  When there is none, the log is left as it is and the command
    still ends normally.  One of the two always holds. *)
Theorem recordPush_first_stdout_url (ts : string) (res : ExecResult) (log : option string) :
  (forall u, FirstMatch (stdout res) u ->
      recordPush ts res log = (appendFile log (runRecord ts u), Some u)
      /\ pushRun ts (Some res) log = (appendFile log (runRecord ts u), RunTriggered u)
      /\ (countChar Js.lfChar ts = 0 -> countChar Js.lfChar (runRecord ts u) = 1))
  /\ (NoMatchIn (stdout res) ->
      recordPush ts res log = (log, None)
      /\ pushRun ts (Some res) log = (log, PushFinished))
  /\ ((exists u, FirstMatch (stdout res) u) \/ NoMatchIn (stdout res))
  /\ (forall err,
        recordPush ts (mkResult (code res) (stdout res) err) log = recordPush ts res log).
Proof.
  split; [|split; [|split]].
  - intros u H. pose proof H as (_ & _ & _ & Hu & _).
    apply firstKaggleUrl_iff in H.
    unfold pushRun, recordPush. rewrite H, (IsKaggleUrl_truthy _ Hu).
    repeat split. intros Ht. now apply runRecord_one_line.
  - intros H. unfold pushRun, recordPush.
    destruct (firstKaggleUrl (stdout res)) as [u|] eqn:E; [|now split].
    apply firstKaggleUrl_iff in E as (b & a & Ht & Hu & _).
    now destruct (H b u a Ht).
  - destruct (firstKaggleUrl (stdout res)) as [u|] eqn:E.
    + left. exists u. now apply firstKaggleUrl_iff.
    + right. now apply firstKaggleUrl_none.
  - reflexivity.
Qed.

(** C3 as it is worded fails: the specification scans the standard output
    followed by the error stream, the code scans the standard output only.
    A push whose message is on the error stream has a match in the combined
    text, and yet no URL is extracted and the log is left as it was. *)
Lemma url_on_stderr_is_not_recorded :
  FirstMatch (combinedOutput urlOnStderr) "https://www.kaggle.com/code/bob/my-run"
  /\ recordPush "2024-05-01T10:00:00.000Z" urlOnStderr (Some EmptyString)
     = (Some EmptyString, None)
  /\ pushRun "2024-05-01T10:00:00.000Z" (Some urlOnStderr) (Some EmptyString)
     = (Some EmptyString, PushFinished).
Proof.
  split; [now apply firstKaggleUrl_iff | split; reflexivity].
Qed.

End SubmitProps.

(** ** Waiting for the outputs of a run *)

Module PollProps.
Import Poll.
Local Open Scope Z_scope.

Example poll_stub_3 : pollAndDownload true (stub 3 0) 1 5 = Finished (Complete 4).
Proof. reflexivity. Qed.

Example poll_empty : pollAndDownload true (emptyStub 0) 1 2 = Finished (TimedOut 2).
Proof. reflexivity. Qed.

Example poll_failing : pollAndDownload true failingStub 10 25 = Finished (TimedOut 3).
Proof. reflexivity. Qed.

Example poll_slow_stub : pollAndDownload true (stub 1 3000) 1 3 = Finished (TimedOut 1).
Proof. reflexivity. Qed.

(** An interval whose delay is above what a timer takes: the pause is one
    of 1 ms, and a session of one second makes ten attempts of 100 ms. *)
Example poll_huge_interval :
  pollAndDownload true (emptyStub 100) 2147484 1 = Finished (TimedOut 10).
Proof. reflexivity. Qed.

Lemma pauseMs_ge (i : Z) : 1000 <= pauseMs i.
Proof. unfold pauseMs. lia. Qed.

Lemma timerMs_ge (d : Z) : 1 <= timerMs d.
Proof.
  unfold timerMs. destruct (Z.leb_spec 1 d); cbn [andb]; [|lia].
  destruct (d <=? TIMEOUT_MAX); lia.
Qed.

Lemma timerMs_in_range (d : Z) : 1 <= d <= 2147483647 -> timerMs d = d.
Proof.
  intros [H1 H2]. unfold timerMs, TIMEOUT_MAX.
  destruct (Z.leb_spec 1 d); [|lia]. destruct (Z.leb_spec d 2147483647); [reflexivity | lia].
Qed.

Lemma timerMs_above (d : Z) : 2147483647 < d -> timerMs d = 1.
Proof.
  intros H. unfold timerMs, TIMEOUT_MAX.
  destruct (Z.leb_spec 1 d); [|reflexivity]. destruct (Z.leb_spec d 2147483647); [lia | reflexivity].
Qed.

Lemma elapsedAt_step (w : World) (i : Z) (k : nat) :
  elapsedAt w i k + timerMs (pauseMs i) <= elapsedAt w i (S k).
Proof. cbn [elapsedAt]. lia. Qed.

Lemma elapsedAt_mono (w : World) (i : Z) (j k : nat) :
  (j <= k)%nat -> elapsedAt w i j <= elapsedAt w i k.
Proof.
  induction 1 as [|k _ IH]; [lia|].
  pose proof (elapsedAt_step w i k). pose proof (timerMs_ge (pauseMs i)). lia.
Qed.

Lemma elapsedAt_overhead (w : World) (k : nat) :
  elapsedAt w 1 k = Z.of_nat k * 1000 + overheadMs w k.
Proof.
  induction k as [|k IH]; [reflexivity|].
  cbn [elapsedAt overheadMs]. rewrite IH.
  change (timerMs (pauseMs 1)) with 1000. lia.
Qed.

Lemma pollLoop_ends (w : World) (i t : Z) (fuel : nat) :
  forall k,
    t * 1000 - elapsedAt w i k <= Z.of_nat fuel - 1 ->
    (1 <= fuel)%nat ->
    (forall j, (j < k)%nat -> outputsSeen (w j) = false) ->
    (forall j, (j < k)%nat -> elapsedAt w i j < t * 1000) ->
    exists r, pollLoop fuel w i t k (elapsedAt w i k) = Some r /\ Ends w i t r.
Proof.
  induction fuel as [|fuel IH]; intros k Hf H1 Hno Hlt; [lia|].
  cbn [pollLoop].
  destruct (Z.ltb_spec (elapsedAt w i k) (t * 1000)) as [Hin|Hout].
  - assert (Hlt' : forall j, (j <= k)%nat -> elapsedAt w i j < t * 1000).
    { intros j Hj. destruct (Nat.eq_dec j k) as [->|Hne]; [assumption|].
      apply Hlt. lia. }
    destruct (outputsSeen (w k)) eqn:Seen.
    + unfold outputsSeen in Seen.
      destruct (fetch (w k)) as [| |[|x items]] eqn:F; try discriminate.
      eexists. split; [reflexivity|].
      exists k. repeat split; try assumption.
      unfold outputsSeen. now rewrite F.
    + assert (Same : match fetch (w k) with
                | Listed (_ :: _) => Some (Complete (S k))
                | Listed [] | FetchFailed | ListingFailed =>
                    pollLoop fuel w i t (S k)
                         (elapsedAt w i k + Z.of_N (fetchMs (w k)) + timerMs (pauseMs i)
                          + Z.of_N (timerLateMs (w k)))
                end = pollLoop fuel w i t (S k) (elapsedAt w i (S k))).
      { unfold outputsSeen in Seen.
        destruct (fetch (w k)) as [| |[|x items]]; try discriminate; reflexivity. }
      rewrite Same.
      pose proof (elapsedAt_step w i k) as Hs.
      pose proof (timerMs_ge (pauseMs i)) as Hp.
      apply IH.
      * lia.
      * lia.
      * intros j Hj. destruct (Nat.eq_dec j k) as [->|Hne]; [assumption|].
        apply Hno. lia.
      * intros j Hj. apply Hlt'. lia.
  - eexists. split; [reflexivity|].
    repeat split; assumption.
Qed.

Lemma pollAndDownload_ends (w : World) (i t : Z) :
  exists r, pollAndDownload true w i t = Finished r /\ Ends w i t r.
Proof.
  unfold pollAndDownload. cbn [negb].
  destruct (pollLoop_ends w i t (S (Z.to_nat (t * 1000))) 0%nat) as (r & Hr & He).
  - cbn [elapsedAt]. lia.
  - lia.
  - intros j Hj. lia.
  - intros j Hj. lia.
  - exists r. cbn [elapsedAt] in Hr. rewrite Hr. now split.
Qed.

(** The scenario of the stub: an empty folder for the first [n]
    attempts, a folder that is not empty from then on, an interval of
    1 s and a timeout of [n + 2] s.  The session is complete after
    [n + 1] attempts exactly when the fetches and late timers of the
    first [n] attempts add less than the 2 s of slack to the pauses. *)
Lemma scenario_complete (w : World) (n : nat) :
  (forall j, (j < n)%nat -> fetch (w j) = Listed []) ->
  (forall j, (n <= j)%nat -> outputsSeen (w j) = true) ->
  (pollAndDownload true w 1 (Z.of_nat n + 2) = Finished (Complete (S n))
   <-> overheadMs w n < 2000).
Proof.
  intros Hempty Hfull.
  assert (Hnot : forall j, (j < n)%nat -> outputsSeen (w j) = false).
  { intros j Hj. unfold outputsSeen. now rewrite (Hempty j Hj). }
  pose proof (Hfull n (le_n n)) as Hn.
  destruct (pollAndDownload_ends w 1 (Z.of_nat n + 2)) as ([m|m] & -> & He).
  - destruct He as (k & -> & Hk & Hbefore & Hin).
    assert (k = n) as ->.
    { destruct (Nat.lt_trichotomy k n) as [Hlt|[->|Hgt]]; [|reflexivity|].
      - rewrite (Hnot k Hlt) in Hk. discriminate.
      - rewrite (Hbefore n Hgt) in Hn. discriminate. }
    split; [|reflexivity]. intros _.
    pose proof (Hin n (le_n n)) as Hlt. rewrite elapsedAt_overhead in Hlt. lia.
  - destruct He as (Hbefore & _ & Hout).
    split; [discriminate|]. intros Hover. exfalso.
    assert (Hm : (m <= n)%nat).
    { destruct (Nat.le_gt_cases m n) as [H|H]; [assumption|].
      rewrite (Hbefore n H) in Hn. discriminate. }
    pose proof (elapsedAt_mono w 1 m n Hm) as Hmono.
    rewrite (elapsedAt_overhead w n) in Hmono. lia.
Qed.

Lemma never_seen_times_out (w : World) (i t : Z) :
  (forall j, outputsSeen (w j) = false) ->
  exists n, pollAndDownload true w i t = Finished (TimedOut n)
            /\ (forall j, (j < n)%nat -> elapsedAt w i j < t * 1000)
            /\ t * 1000 <= elapsedAt w i n.
Proof.
  intros Hnot.
  destruct (pollAndDownload_ends w i t) as ([m|m] & -> & He).
  - destruct He as (k & _ & Hk & _). rewrite Hnot in Hk. discriminate.
  - exists m. destruct He as (_ & H1 & H2). auto.
Qed.

Lemma always_empty_times_out (w : World) :
  (forall j, fetch (w j) = Listed []) ->
  exists n, pollAndDownload true w 1 2 = Finished (TimedOut n)
            /\ (1 <= n <= 2)%nat.
Proof.
  intros Hempty.
  destruct (never_seen_times_out w 1 2) as (n & -> & Hlt & Hout).
  { intros j. unfold outputsSeen. now rewrite Hempty. }
  exists n. split; [reflexivity|]. split.
  - destruct n; [cbn [elapsedAt] in Hout; lia | lia].
  - destruct (Nat.le_gt_cases n 2) as [H|H]; [assumption|].
    specialize (Hlt 2%nat H). rewrite elapsedAt_overhead in Hlt.
    assert (0 <= overheadMs w 2) by (cbn [overheadMs]; lia). lia.
Qed.

(** C1, as amended.  Whatever the fetches and listings run into and
    however long they take, [pollAndDownload] ends in one of its two
    messages once the steps before the loop have succeeded; a fetch or a
    listing that throws never reaches the caller.  It ends in [Complete]
    at the first attempt that lists a non-empty folder, provided the
    timeout had not been reached when that attempt began, and in
    [TimedOut] at the first test of the condition at which the elapsed
    time has reached the timeout, no attempt before having listed
    anything.  The elapsed time is that of the clock: every attempt that
    does not end the session adds the time of its fetch, the delay its
    timer works with (the pause of [max(1000, interval * 1000)] ms, and
    1 ms when that is above 2147483647 ms) and the lateness of the timer.
    With an
    empty folder for the first [n] attempts and a non-empty one
    afterwards, an interval of 1 s and a timeout of [n + 2] s, it reports
    [Complete] after exactly [n + 1] attempts if and only if the fetches
    and late timers of the first [n] attempts add less than the 2 s of
    slack to the pauses (a stub adds nothing).  With a folder that stays
    empty, an interval of 1 s and a timeout of 2 s, it reports
    [TimedOut]. *)
Theorem pollAndDownload_complete_or_timed_out (w : World) (i t : Z) :
  (exists r, pollAndDownload true w i t = Finished r /\ Ends w i t r)
  /\ (elapsedAt w i 0 = 0
      /\ forall k,
           elapsedAt w i (S k) - elapsedAt w i k
           = Z.of_N (fetchMs (w k)) + Z.of_N (timerLateMs (w k))
             + (if Z.max 1000 (i * 1000) <=? 2147483647
                then Z.max 1000 (i * 1000) else 1))
  /\ (forall n : nat,
        (forall j, (j < n)%nat -> fetch (w j) = Listed []) ->
        (forall j, (n <= j)%nat -> outputsSeen (w j) = true) ->
        (pollAndDownload true w 1 (Z.of_nat n + 2) = Finished (Complete (S n))
         <-> overheadMs w n < 2000))
  /\ ((forall j, fetch (w j) = Listed []) ->
        exists n, pollAndDownload true w 1 2 = Finished (TimedOut n)
                  /\ (1 <= n <= 2)%nat)
  /\ ((forall j, outputsSeen (w j) = false) ->
        exists n, pollAndDownload true w i t = Finished (TimedOut n)).
Proof.
  split; [apply pollAndDownload_ends|].
  split.
  { split; [reflexivity|]. intros k. cbn [elapsedAt].
    destruct (Z.leb_spec (Z.max 1000 (i * 1000)) 2147483647) as [Hin|Hout].
    - rewrite timerMs_in_range; unfold pauseMs; lia.
    - rewrite timerMs_above; unfold pauseMs; lia. }
  split; [apply scenario_complete|].
  split; [apply always_empty_times_out|].
  intros H. destruct (never_seen_times_out w i t H) as (n & Hn & _).
  now exists n.
Qed.

(** C1 as amended, at a stub that lists an empty folder three times. *)
Lemma pollAndDownload_stub_witness :
  pollAndDownload true (stub 3 0) 1 (Z.of_nat 3 + 2) = Finished (Complete 4)
  /\ exists n, pollAndDownload true (emptyStub 0) 1 2 = Finished (TimedOut n)
               /\ (1 <= n <= 2)%nat.
Proof.
  destruct (pollAndDownload_complete_or_timed_out (stub 3 0) 1 5) as (_ & _ & H & _).
  destruct (pollAndDownload_complete_or_timed_out (emptyStub 0) 1 2) as (_ & _ & _ & E & _).
  split.
  - apply (H 3%nat).
    + intros j Hj. unfold stub. cbn [fetch].
      destruct (Nat.ltb_spec j 3) as [_|Hge]; [reflexivity | lia].
    + intros j Hj. unfold stub, outputsSeen. cbn [fetch].
      destruct (Nat.ltb_spec j 3) as [Hlt|_]; [lia | reflexivity].
    + reflexivity.
  - apply E. reflexivity.
Defined.

(** C1 as the claim states it, refuted.  The stub lists an empty folder
    at the first attempt and a folder with a file from then on, the
    interval is 1 s and the timeout 3 s, as in the scenario of the claim
    for one empty attempt; each fetch takes 3 s.  When the condition is
    tested for the second time 4 s have passed, and the session ends in
    [TimedOut] after one attempt, not in [Complete] after two. *)
Lemma slow_fetch_times_out :
  (forall j, (j < 1)%nat -> fetch (stub 1 3000 j) = Listed [])
  /\ (forall j, (1 <= j)%nat -> outputsSeen (stub 1 3000 j) = true)
  /\ pollAndDownload true (stub 1 3000) 1 (Z.of_nat 1 + 2) = Finished (TimedOut 1)
  /\ pollAndDownload true (stub 1 3000) 1 (Z.of_nat 1 + 2) <> Finished (Complete 2).
Proof.
  split; [|split; [|split]].
  - intros j Hj. unfold stub. cbn [fetch].
    destruct (Nat.ltb_spec j 1) as [_|Hge]; [reflexivity | lia].
  - intros j Hj. unfold stub, outputsSeen. cbn [fetch].
    destruct (Nat.ltb_spec j 1) as [Hlt|_]; [lia | reflexivity].
  - reflexivity.
  - discriminate.
Qed.

End PollProps.

(** ** The list of runs *)

Module RunsProps.
Import Runs.
Import CsvProps SubmitProps.

Example getChildren_sample :
  getChildren sampleDate sampleYaml sampleJoin sampleFs (Some "/w") (Some sampleLog) None
  = [ mkRunItem "2024-04-30T09:00:00.000Z" (Some "https://www.kaggle.com/code/bob/old")
        None false;
      mkRunItem sampleStamp (Some "https://www.kaggle.com/code/bob/my-run")
        (Some StatusComplete) true ].
Proof. reflexivity. Qed.

Example getChildren_bad_yaml :
  getChildren sampleDate sampleYaml sampleJoin sampleFs (Some "/w") (Some sampleLog)
    (Some "outputs: [")
  = [ mkRunItem "2024-04-30T09:00:00.000Z" (Some "https://www.kaggle.com/code/bob/old")
        None false;
      mkRunItem sampleStamp (Some "https://www.kaggle.com/code/bob/my-run")
        None true ].
Proof. reflexivity. Qed.







(** *** Reading the log *)

Lemma splitBarGo_nonempty (s : string) : forall skip, splitBarGo s skip <> [].
Proof.
  induction s as [|c s IH]; intros skip; cbn [splitBarGo]; [discriminate|].
  destruct skip; [|apply IH].
  destruct (sepAt (String c s)); [discriminate|].
  specialize (IH 0). destruct (splitBarGo s 0); [congruence | discriminate].
Qed.

Lemma splitBarGo_noSpace (a : string) :
  noSpace a = true ->
  forall rest, splitBarGo (a +:+ rest) 0 = prependTo a (splitBarGo rest 0).
Proof.
  induction a as [|c a IH]; intros H rest.
  - simpl. pose proof (splitBarGo_nonempty rest 0).
    destruct (splitBarGo rest 0); [congruence | reflexivity].
  - simpl in H. apply andb_true_iff in H as [Hc Ha].
    apply negb_true_iff in Hc.
    change (splitBarGo (String c (a +:+ rest)) 0
            = prependTo (String c a) (splitBarGo rest 0)).
    cbn [splitBarGo]. unfold sepAt at 1. rewrite Hc.
    rewrite IH by assumption.
    pose proof (splitBarGo_nonempty rest 0).
    destruct (splitBarGo rest 0); [congruence | reflexivity].
Qed.

Lemma splitBar_noSpace (a : string) : noSpace a = true -> splitBar a = [a].
Proof.
  intros H. unfold splitBar.
  rewrite <- (app_nil_r_str a) at 1.
  rewrite splitBarGo_noSpace by assumption. simpl. now rewrite app_nil_r_str.
Qed.

Lemma trimStart_noSpace (u : string) : noSpace u = true -> Js.trimStart u = u.
Proof.
  destruct u as [|c u]; [reflexivity|]. simpl. intros H.
  apply andb_true_iff in H as [Hc _]. apply negb_true_iff in Hc. now rewrite Hc.
Qed.

Lemma splitBarGo_sep (c : ascii) (r rest : string) :
  sepAt (String c r) = Some rest ->
  splitBarGo (String c r) 0
  = EmptyString :: splitBarGo r (String.length r - String.length rest).
Proof. intros H. cbn [splitBarGo]. now rewrite H. Qed.

Lemma splitBarGo_skip (a : string) :
  forall rest, splitBarGo (a +:+ rest) (String.length a) = splitBarGo rest 0.
Proof.
  induction a as [|c a IH]; intros rest.
  - simpl. now destruct rest.
  - change (splitBarGo (String c (a +:+ rest)) (S (String.length a))
            = splitBarGo rest 0).
    cbn [splitBarGo]. apply IH.
Qed.

Lemma sepAt_bar (u : string) :
  noSpace u = true -> sepAt (" | " +:+ u) = Some u.
Proof.
  intros Hu.
  change (sepAt (String " " (String "|" (String " " u))) = Some u).
  unfold sepAt.
  change (Js.isSpace " ") with true. cbv iota.
  change (Js.trimStart (String "|" (String " " u))) with (String "|" (String " " u)).
  cbv iota beta.
  change (Js.trimStart (String " " u)) with (Js.trimStart u).
  now rewrite trimStart_noSpace.
Qed.

(** A line written by [logRun] is read back as its two parts. *)
Lemma parseLine_runRecord (ts u : string) :
  noSpace ts = true -> noSpace u = true ->
  parseLine (ts +:+ " | " +:+ u) = mkRunItem ts (Some u) None false.
Proof.
  intros Hts Hu. unfold parseLine, splitBar.
  rewrite splitBarGo_noSpace by assumption.
  assert (E : splitBarGo (" | " +:+ u) 0 = [EmptyString; u]).
  { pose proof (sepAt_bar u Hu) as Hsep.
    change (" | " +:+ u) with (String " " ("| " +:+ u)) in *.
    rewrite (splitBarGo_sep _ _ _ Hsep).
    replace (String.length ("| " +:+ u) - String.length u) with (String.length "| ")
      by (rewrite length_app_str; lia).
    rewrite splitBarGo_skip. fold (splitBar u). now rewrite splitBar_noSpace. }
  rewrite E. cbn [prependTo hd]. rewrite app_nil_r_str. reflexivity.
Qed.

(** *** The items *)

Lemma updateLast_snoc {A : Type} (f : A -> A) (init : list A) (x : A) :
  updateLast f (init ++ [x]) = init ++ [f x].
Proof.
  induction init as [|y init IH]; [reflexivity|].
  change (updateLast f (y :: (init ++ [x])) = y :: (init ++ [f x])).
  cbn [updateLast]. rewrite IH.
  destruct (init ++ [x]) eqn:E; [|reflexivity].
  now destruct init.
Qed.

Lemma splitLines_nonempty (s : string) : Js.splitLines s <> [].
Proof.
  induction s as [|c s IH]; cbn [Js.splitLines]; [discriminate|].
  assert (C : forall rest,
             match rest with
             | h :: t => String c h :: t
             | [] => [String c EmptyString]
             end <> []).
  { intros [|h t]; discriminate. }
  destruct (Ascii.eqb c "010"%char); [discriminate|].
  destruct (Ascii.eqb c "013"%char); [|apply C].
  destruct s as [|d s']; [apply C|].
  destruct d as [[] [] [] [] [] [] [] []]; try apply C. discriminate.
Qed.

Lemma lastN_nonempty {A : Type} (n : nat) (l : list A) :
  l <> [] -> (0 < n)%nat -> lastN n l <> [].
Proof.
  intros Hl Hn. unfold lastN. intros E.
  assert (L : length (skipn (length l - n) l) = 0%nat) by now rewrite E.
  rewrite length_skipn in L.
  destruct l; [congruence|]. simpl in L. lia.
Qed.

Lemma itemsOfLog_nonempty (txt : string) : itemsOfLog txt <> [].
Proof.
  unfold itemsOfLog. intros E. apply map_eq_nil in E.
  revert E. apply lastN_nonempty; [apply splitLines_nonempty | lia].
Qed.

Lemma lastN_snoc {A : Type} (n : nat) (l : list A) (x : A) :
  lastN (S n) (l ++ [x]) = lastN n l ++ [x].
Proof.
  unfold lastN. rewrite length_app. cbn [length].
  replace (length l + 1 - S n) with (length l - n) by lia.
  rewrite skipn_app.
  replace (length l - n - length l) with 0 by lia. reflexivity.
Qed.

Lemma itemsOfLog_unmarked (txt : string) :
  Forall (fun it => status it = None /\ isLatest it = false) (itemsOfLog txt).
Proof.
  unfold itemsOfLog. apply Forall_forall. intros it Hin.
  apply list_elem_of_fmap in Hin as (l & -> & _). now split.
Qed.

Section WithPlatform.
Variable Date_parse : string -> option Z.
Variable yaml_load : string -> option (option Project.KaggleYml).
Variable path_join : string -> string -> string.
Variable fsNode : string -> option Node.





Lemma getChildren_unreadable_yaml
    (root txt : string) (ymlFile : option string) :
  outputDir yaml_load path_join root ymlFile = None ->
  Forall (fun it => status it = None)
    (getChildren Date_parse yaml_load path_join fsNode (Some root) (Some txt) ymlFile).
Proof.
  intros Hdir.
  destruct (exists_last (itemsOfLog_nonempty txt)) as (earlier & last & E).
  cbn [getChildren]. rewrite E, updateLast_snoc.
  pose proof (itemsOfLog_unmarked txt) as U. rewrite E in U.
  apply Forall_app in U as [U1 U2].
  apply Forall_app. split.
  - eapply Forall_impl; [exact U1|]. now intros it [H _].
  - constructor; [|constructor]. unfold markLatest. rewrite Hdir. cbn [status].
    apply Forall_inv in U2. tauto.
Qed.

End WithPlatform.



End RunsProps.

(** ** Listings *)

Module CatalogProps.
Import Csv CsvProps.

Lemma splitOn_nonempty (c : ascii) (s : string) : Js.splitOn c s <> [].
Proof.
  induction s as [|d r IH]; simpl; [discriminate|].
  destruct (d =? c)%char; [discriminate|].
  destruct (Js.splitOn c r); discriminate.
Qed.

Lemma loop_no_quote (line : string) :
  hasChar dquote line = false ->
  forall cur out,
    splitCsvLoop line cur false out
    = out ++ Runs.prependTo cur (Js.splitOn comma line).
Proof.
  induction line as [|ch rest IH]; intros Hq cur out.
  - simpl. now rewrite app_nil_r_str.
  - simpl in Hq. apply orb_false_iff in Hq as [Hch Hrest].
    cbn [splitCsvLoop Js.splitOn]. rewrite Hch.
    destruct (ch =? comma)%char eqn:Hc; cbn [andb negb].
    + rewrite IH by assumption. rewrite <- app_assoc. cbn [Runs.prependTo].
      rewrite app_nil_r_str. f_equal. simpl. f_equal.
      destruct (Js.splitOn comma rest) eqn:E; [now apply splitOn_nonempty in E|].
      reflexivity.
    + rewrite IH by assumption. f_equal.
      destruct (Js.splitOn comma rest) eqn:E; [now apply splitOn_nonempty in E|].
      cbn [Runs.prependTo]. now rewrite snoc_app.
Qed.

Lemma splitOn_hasChar (q c : ascii) (s : string) :
  hasChar q s = false ->
  Forall (fun f => hasChar q f = false) (Js.splitOn c s).
Proof.
  induction s as [|d r IH]; intros Hq; simpl.
  - now constructor.
  - simpl in Hq. apply orb_false_iff in Hq as [Hd Hr]. specialize (IH Hr).
    destruct (d =? c)%char.
    + now constructor.
    + destruct (Js.splitOn c r) as [|h t]; [constructor; [simpl; now rewrite Hd|constructor]|].
      inversion IH; subst. constructor; [|assumption]. simpl. now rewrite Hd.
Qed.

Lemma hasChar_endsWithQuote (s : string) :
  hasChar dquote s = false -> endsWithQuote s = false.
Proof.
  induction s as [|c r IH]; [reflexivity|]. intros H. simpl in H.
  apply orb_false_iff in H as [Hc Hr]. simpl. destruct r; [assumption|]. now apply IH.
Qed.

Lemma hasChar_edgeQuoteFree (s : string) :
  hasChar dquote s = false -> edgeQuoteFree s = true.
Proof.
  intros H. unfold edgeQuoteFree. rewrite (hasChar_endsWithQuote s H).
  destruct s as [|c r]; [reflexivity|]. simpl in H.
  apply orb_false_iff in H as [Hc _]. simpl. now rewrite Hc.
Qed.

(** X1: on a line with no double quote, [splitCsv] is the plain split at
    commas that the file listings of the commands use. *)
Theorem splitCsv_agrees_with_split (line : string) :
  hasChar dquote line = false ->
  splitCsv line = Js.splitOn comma line.
Proof.
  intros Hq. unfold splitCsv. rewrite loop_no_quote by assumption.
  cbn [app]. pose proof (splitOn_hasChar dquote comma line Hq) as Hall.
  destruct (Js.splitOn comma line) as [|h t] eqn:E; [now apply splitOn_nonempty in E|].
  cbn [Runs.prependTo]. change (EmptyString +:+ h) with h.
  clear E. induction Hall as [|f fs Hf _ IH]; [reflexivity|].
  cbn [map]. rewrite IH. f_equal. apply stripEdgeQuotes_id. now apply hasChar_edgeQuoteFree.
Qed.

Lemma splitCsv_agrees_witness :
  splitCsv "train.csv,61194,2020-01-01" = ["train.csv"; "61194"; "2020-01-01"].
Proof. exact (splitCsv_agrees_with_split "train.csv,61194,2020-01-01" eq_refl). Defined.

End CatalogProps.

(** ** The datasets view *)

Module DatasetsProps.
Import Csv CsvProps Datasets.

Lemma datasetUrl_nonempty (r : string) : datasetUrlBase +:+ r <> EmptyString.
Proof. discriminate. Qed.

Lemma or_undef_truthy (o : option string) (d : string) :
  Js.truthy d = true -> Js.truthy (Js.or_undef o d) = true.
Proof.
  intros Hd. destruct o as [a|]; simpl; [|assumption].
  unfold Js.or_else. now destruct (Js.truthy a) eqn:E.
Qed.

Lemma dataset_rowItem_nonempty (refIdx urlIdx : option nat) (line : string) (it : DatasetItem) :
  rowItem refIdx urlIdx line = Some it ->
  ref it <> EmptyString /\ url it <> EmptyString.
Proof.
  unfold rowItem.
  destruct (Js.truthy (Js.or_undef (cell (splitCsv line) refIdx) EmptyString)) eqn:Hr;
    [|discriminate].
  intros [= <-]. cbn [ref url]. split.
  - now apply truthy_true.
  - apply truthy_true, or_undef_truthy. reflexivity.
Qed.

Lemma parseDatasets_nonempty (csvData : string) :
  Forall (fun it => ref it <> EmptyString /\ url it <> EmptyString)
         (parseDatasets csvData).
Proof.
  unfold parseDatasets.
  destruct (Js.splitLines csvData) as [|first [|l lines]]; try constructor.
  apply Forall_forall. intros it Hin.
  apply list_elem_of_omap in Hin as (line & _ & Hrow).
  now apply dataset_rowItem_nonempty in Hrow.
Qed.

(** X2: whatever the tool answers, and in every mode of the view, each
    dataset that is listed has a ref and an address that are not empty;
    a call that is rejected gives an empty list. *)
Theorem datasets_getChildren_items (showMyDatasets : bool) (searchTerm : string)
    (run : list string -> option string) :
  Forall (fun it => ref it <> EmptyString /\ url it <> EmptyString)
         (getChildren showMyDatasets searchTerm run)
  /\ ((forall a, run a = None) -> getChildren showMyDatasets searchTerm run = []).
Proof.
  split.
  - unfold getChildren.
    repeat match goal with
           | |- context [match run ?a with _ => _ end] => destruct (run a)
           | |- context [if ?b then _ else _] => destruct b
           end; try constructor; apply parseDatasets_nonempty.
  - intros Hnone. unfold getChildren.
    rewrite !Hnone. destruct showMyDatasets; [reflexivity|].
    now destruct (Js.truthy searchTerm && Js.truthy (Js.trim searchTerm)).
Qed.

(** *** The two parsers read the same refs *)

Lemma isWordCI_lower (word s : string) :
  isWordCI word s = String.eqb (Js.toLowerCase s) word.
Proof.
  revert s. induction word as [|w wr IH]; intros [|c sr]; try reflexivity.
  cbn [isWordCI Js.toLowerCase]. rewrite IH. unfold eqCI. reflexivity.
Qed.

Lemma findIndex_indexOf (word : string) (f : string -> string) (l : list string) :
  findIndex (fun h => isWordCI word (f h)) l
  = Js.indexOf word (map (fun h => Js.toLowerCase (f h)) l).
Proof.
  induction l as [|h t IH]; [reflexivity|].
  cbn [findIndex map Js.indexOf]. rewrite isWordCI_lower, IH. reflexivity.
Qed.

Lemma columnIndex_headersOf (word header : string) :
  columnIndex word header = Js.indexOf word (headersOf header).
Proof. apply findIndex_indexOf. Qed.

Lemma rowRef_empty (i : nat) : rowRef i EmptyString = EmptyString.
Proof. unfold rowRef. destruct i as [|[|i]]; reflexivity. Qed.

Lemma refs_of_rows (i : nat) (u : option nat) (lines : list string) :
  map ref (omap (rowItem (Some i) u) lines)
  = filter (fun r => Is_true (Js.truthy r)) (map (rowRef i) lines).
Proof.
  induction lines as [|l ls IH]; [reflexivity|].
  cbn [omap list_omap map].
  change (rowItem (Some i) u l)
    with (if Js.truthy (rowRef i l)
          then Some (mkDatasetItem (rowRef i l)
                       (Js.or_undef (cell (splitCsv l) u)
                          (if Js.truthy (rowRef i l)
                           then datasetUrlBase +:+ rowRef i l else EmptyString)))
          else None).
  rewrite filter_cons.
  destruct (Js.truthy (rowRef i l)) eqn:E.
  - rewrite decide_True by exact I. cbn [map ref]. now rewrite <- IH.
  - rewrite decide_False by (simpl; tauto). exact IH.
Qed.

Lemma kernel_refs_of_rows (i : nat) (u : option nat) (lines : list string) :
  map Csv.ref (omap (Csv.rowItem i u) (filter (fun l => Is_true (Js.truthy l)) lines))
  = filter (fun r => Is_true (Js.truthy r)) (map (rowRef i) lines).
Proof.
  induction lines as [|l ls IH]; [reflexivity|].
  cbn [map]. rewrite !filter_cons.
  destruct (Js.truthy l) eqn:El.
  - rewrite decide_True by exact I. cbn [omap list_omap].
    rewrite rowItem_spec.
    destruct (Js.truthy (rowRef i l)) eqn:E.
    + rewrite decide_True by exact I. cbn [map Csv.ref]. now rewrite <- IH.
    + rewrite decide_False by (simpl; tauto). exact IH.
  - rewrite decide_False by (simpl; tauto).
    destruct l; [|discriminate]. rewrite rowRef_empty.
    rewrite decide_False by (simpl; tauto). exact IH.
Qed.

(** X3: on a listing whose first line is not empty, the parser of the
    datasets view and the parser of the notebooks view read the same refs,
    in the same order: both find the ref column alike and both leave out
    the rows whose ref is empty. *)
Theorem parseDatasets_refs_as_parseKernelsCsv (csv : string) :
  Js.truthy (hd EmptyString (Js.splitLines csv)) = true ->
  map ref (parseDatasets csv) = map Csv.ref (parseKernelsCsv csv).
Proof.
  intros Hfirst. unfold parseDatasets, parseKernelsCsv, nonEmptyLines.
  destruct (Js.splitLines csv) as [|first lines]; [discriminate|].
  cbn [hd] in Hfirst. rewrite filter_cons, decide_True by (now rewrite Hfirst).
  rewrite Hfirst. cbn [negb]. unfold Js.or_else. rewrite Hfirst.
  rewrite !columnIndex_headersOf.
  destruct lines as [|l ls].
  - rewrite filter_nil. now destruct (Js.indexOf "ref" (headersOf first)).
  - destruct (Js.indexOf "ref" (headersOf first)) as [i|].
    + now rewrite refs_of_rows, kernel_refs_of_rows.
    + generalize (l :: ls). intros rows. induction rows as [|r rs IH]; [reflexivity|].
      cbn [omap list_omap]. unfold rowItem at 1. cbn [cell Js.or_undef Js.truthy]. exact IH.
Qed.

Lemma parseDatasets_refs_witness :
  map ref (parseDatasets sampleListing) = ["alice/nb"; "bob/x"].
Proof.
  exact (parseDatasets_refs_as_parseKernelsCsv sampleListing eq_refl).
Defined.

End DatasetsProps.

(** ** Competition addresses *)

Module CompetitionsProps.
Import Csv CsvProps SubmitProps Competitions DatasetsProps.

Example competitionSlug_query :
  competitionSlug "https://www.kaggle.com/competitions/arc-prize-2025?tab=data"
  = Some "arc-prize-2025".
Proof. reflexivity. Qed.

Example refOf_samples :
  map refOf ["titanic"; "https://www.kaggle.com/competitions/titanic/overview";
             "https://www.kaggle.com/competitions/"]
  = ["titanic"; "titanic"; "https://www.kaggle.com/competitions/"].
Proof. reflexivity. Qed.

Lemma allSlugChars_cons (c : ascii) (s : string) :
  allSlugChars (String c s) = isSlugChar c && allSlugChars s.
Proof.
  unfold allSlugChars, isSlugChar. simpl.
  destruct (c =? "/")%char, (c =? "?")%char, (hasChar "/" s), (hasChar "?" s); reflexivity.
Qed.

Lemma spanSlug_spec (s : string) :
  exists rest, s = spanSlug s +:+ rest /\ allSlugChars (spanSlug s) = true /\ slugEnds rest.
Proof.
  induction s as [|c r (rest & Heq & Hall & Hend)].
  - exists EmptyString. repeat split.
  - simpl. destruct (isSlugChar c) eqn:Hc.
    + exists rest. rewrite allSlugChars_cons, Hc, Hall. simpl. now rewrite <- Heq.
    + exists (String c r). repeat split. exact Hc.
Qed.

Lemma spanSlug_app (g rest : string) :
  allSlugChars g = true -> slugEnds rest -> spanSlug (g +:+ rest) = g.
Proof.
  induction g as [|c g IH]; intros Hall Hend.
  - simpl. destruct rest as [|d r]; [reflexivity|]. simpl in *. now rewrite Hend.
  - rewrite allSlugChars_cons in Hall. apply andb_true_iff in Hall as [Hc Hg].
    simpl. rewrite Hc. now rewrite IH.
Qed.

Lemma slugAt_sound (s g : string) :
  slugAt s = Some g ->
  g <> EmptyString /\ allSlugChars g = true
  /\ exists after, s = "/competitions/" +:+ g +:+ after /\ slugEnds after.
Proof.
  unfold slugAt. destruct (Submit.stripPrefix "/competitions/" s) as [body|] eqn:Hp;
    [|discriminate].
  apply stripPrefix_spec in Hp.
  destruct (Js.truthy (spanSlug body)) eqn:Ht; [|discriminate].
  intros [= <-]. destruct (spanSlug_spec body) as (rest & Heq & Hall & Hend).
  split; [now apply truthy_true|]. split; [assumption|].
  exists rest. split; [|assumption]. now rewrite <- Heq.
Qed.

(** X4: the name the commands and the list read off an address is a
    segment that stands in the address right after [/competitions/]; it
    is not empty and holds no slash and no question mark, and it runs up
    to the next slash or question mark or to the end of the address. *)
Theorem competitionSlug_sound (s g : string) :
  competitionSlug s = Some g ->
  g <> EmptyString /\ allSlugChars g = true
  /\ exists before after,
       s = before +:+ "/competitions/" +:+ g +:+ after /\ slugEnds after.
Proof.
  induction s as [|c r IH]; cbn [competitionSlug].
  - destruct (slugAt EmptyString) eqn:E; [discriminate E | discriminate].
  - destruct (slugAt (String c r)) as [g'|] eqn:E.
    + intros [= ->]. apply slugAt_sound in E as (Hne & Hall & after & Heq & Hend).
      repeat split; try assumption. exists EmptyString, after. now split.
    + intros H. destruct (IH H) as (Hne & Hall & before & after & Heq & Hend).
      repeat split; try assumption. exists (String c before), after.
      split; [|assumption]. simpl. now rewrite Heq.
Qed.

Lemma competitionSlug_sound_witness :
  "arc-prize-2025" <> EmptyString /\ allSlugChars "arc-prize-2025" = true.
Proof.
  pose proof (competitionSlug_sound
                "https://www.kaggle.com/competitions/arc-prize-2025?tab=data"
                "arc-prize-2025" eq_refl) as (Hne & Hall & _).
  exact (conj Hne Hall).
Defined.

Lemma startsWith_app (p r : string) : Cli.startsWith p (p +:+ r) = true.
Proof.
  induction p as [|c p IH]; [reflexivity|]. simpl. now rewrite Ascii.eqb_refl.
Qed.

Lemma startsWith_hasChar (c : ascii) (p s : string) :
  hasChar c p = true -> hasChar c s = false -> Cli.startsWith p s = false.
Proof.
  revert s. induction p as [|a p IH]; intros s Hp Hs; [discriminate|].
  destruct s as [|b s]; [reflexivity|]. simpl in *.
  apply orb_false_iff in Hs as [Hb Hs].
  destruct (a =? b)%char eqn:Hab; [|reflexivity]. apply Ascii.eqb_eq in Hab. subst b.
  rewrite Hb in Hp. simpl in Hp. simpl. now apply IH.
Qed.

(** X5: from the address the list gives a competition by default, the
    base followed by the name, the pattern reads the name back; more of
    the address after a slash or a question mark does not change it.  So
    a ref that is written as a full address is listed under the name. *)
Theorem competitionSlug_of_default_url (g rest : string) :
  g <> EmptyString -> allSlugChars g = true -> slugEnds rest ->
  competitionSlug (competitionUrlBase +:+ g +:+ rest) = Some g
  /\ refOf (competitionUrlBase +:+ g +:+ rest) = g
  /\ refOf g = g.
Proof.
  intros Hne Hall Hend.
  assert (Hslug : competitionSlug (competitionUrlBase +:+ g +:+ rest) = Some g).
  { unfold competitionUrlBase. cbn. unfold slugAt. cbn.
    rewrite spanSlug_app by assumption.
    destruct g; [congruence|]. reflexivity. }
  split; [assumption|]. split.
  - unfold refOf. now rewrite startsWith_app, Hslug.
  - unfold refOf. rewrite (startsWith_hasChar "/" competitionUrlBase g); [reflexivity..|].
    unfold allSlugChars in Hall. apply andb_true_iff in Hall as [H _].
    now apply negb_true_iff in H.
Qed.

Lemma competitionSlug_default_witness :
  competitionSlug (competitionUrlBase +:+ "titanic" +:+ "/data") = Some "titanic".
Proof.
  refine (proj1 (competitionSlug_of_default_url "titanic" "/data" _ eq_refl eq_refl)).
  discriminate.
Defined.

End CompetitionsProps.

(** ** The competitions view and its downloads *)

Module DownloadProps.
Import Csv CsvProps SubmitProps Competitions DatasetsProps CompetitionsProps.

Section WithUpperCase.
Variable toUpperCase : string -> string.

Lemma competition_rowItem_nonempty (refIdx titleIdx deadlineIdx categoryIdx urlIdx : option nat)
    (line : string) (it : CompetitionItem) :
  rowItem toUpperCase refIdx titleIdx deadlineIdx categoryIdx urlIdx line = Some it ->
  ref it <> EmptyString /\ url it <> EmptyString
  /\ deadline it <> EmptyString /\ category it <> EmptyString.
Proof.
  unfold rowItem.
  destruct (Js.truthy (refOf (Js.or_undef (Datasets.cell (splitCsv line) refIdx) EmptyString)))
    eqn:Hr; [|discriminate].
  intros [= <-]. cbn [ref url deadline category].
  split; [now apply truthy_true|].
  split; [|split]; apply truthy_true, or_undef_truthy; reflexivity.
Qed.

Lemma parseCompetitions_nonempty (csvData : string) :
  Forall (fun it => ref it <> EmptyString /\ url it <> EmptyString
                    /\ deadline it <> EmptyString /\ category it <> EmptyString)
         (parseCompetitions toUpperCase csvData).
Proof.
  unfold parseCompetitions.
  destruct (Js.splitLines csvData) as [|first [|l lines]]; try constructor.
  apply Forall_forall. intros it Hin.
  apply list_elem_of_omap in Hin as (line & _ & Hrow).
  now apply competition_rowItem_nonempty in Hrow.
Qed.

(** X6: whatever the tool answers and whatever the filters of the view
    are, each competition that is listed has a ref, an address, a
    deadline and a category that are not empty; a call that is rejected
    gives an empty list. *)
Theorem competitions_getChildren_items (group cat searchTerm : string)
    (run : list string -> option string) :
  Forall (fun it => ref it <> EmptyString /\ url it <> EmptyString
                    /\ deadline it <> EmptyString /\ category it <> EmptyString)
         (getChildren toUpperCase group cat searchTerm run)
  /\ ((forall a, run a = None) -> getChildren toUpperCase group cat searchTerm run = []).
Proof.
  unfold getChildren. split.
  - destruct (run _); [apply parseCompetitions_nonempty | constructor].
  - intros Hnone. now rewrite Hnone.
Qed.

End WithUpperCase.

(** *** Folder names *)

Lemma safeRef_no_separator (r : string) :
  hasChar "/" (safeRef r) = false /\ hasChar "\" (safeRef r) = false.
Proof.
  induction r as [|c r [IH1 IH2]]; [now split|].
  cbn [safeRef].
  destruct (c =? "/")%char eqn:H1; [simpl; now split|].
  destruct (c =? "\")%char eqn:H2; [simpl; now split|].
  simpl. now rewrite H1, H2.
Qed.

Lemma safeRef_id (r : string) :
  hasChar "/" r = false -> hasChar "\" r = false -> safeRef r = r.
Proof.
  induction r as [|c r IH]; [reflexivity|]. simpl. intros H1 H2.
  apply orb_false_iff in H1 as [H1 H1']. apply orb_false_iff in H2 as [H2 H2'].
  rewrite H1, H2. simpl. now rewrite IH.
Qed.

Lemma safeRef_truthy (r : string) : Js.truthy (safeRef r) = Js.truthy r.
Proof.
  destruct r as [|c r]; [reflexivity|]. cbn [safeRef].
  now destruct ((c =? "/")%char || (c =? "\")%char).
Qed.

(** X7: the folder name the download commands make of a ref holds no
    slash and no backslash, is empty only for the empty ref, and is the
    ref itself exactly when the ref holds no separator. *)
Theorem safeRef_is_one_segment (r : string) :
  hasChar "/" (safeRef r) = false
  /\ hasChar "\" (safeRef r) = false
  /\ (safeRef r = EmptyString <-> r = EmptyString)
  /\ (safeRef r = r <-> hasChar "/" r = false /\ hasChar "\" r = false).
Proof.
  destruct (safeRef_no_separator r) as [H1 H2].
  split; [assumption|]. split; [assumption|]. split; [|split].
  - pose proof (safeRef_truthy r) as Ht. destruct r, (safeRef _); simpl in Ht; split; congruence.
  - intros Heq. now rewrite <- Heq.
  - intros [Ha Hb]. now apply safeRef_id.
Qed.

Section WithPath.
Variable path_join3 : string -> string -> string -> string.
Variable toUpperCase : string -> string.

(** X8: for an item the competitions view lists, the download command
    asks for no name: it downloads the ref of the item, into the folder
    [competitions/<name>] of the workspace, where the name is not empty
    and holds no separator. *)
Theorem download_of_listed_competition (csvData folder : string)
    (input : option string) (it : CompetitionItem) :
  In it (parseCompetitions toUpperCase csvData) ->
  exists name,
    competitionDownloadData path_join3 (Some folder)
      (Item (Some (ref it)) (Some (url it))) input
    = Some (mkDownload
              ["competitions"; "download"; ref it; "-p";
               path_join3 folder "competitions" name]
              (path_join3 folder "competitions" name))
    /\ name = safeRef (ref it)
    /\ name <> EmptyString
    /\ hasChar "/" name = false /\ hasChar "\" name = false.
Proof.
  intros Hin.
  pose proof (parseCompetitions_nonempty toUpperCase csvData) as Hall.
  apply Forall_forall with (x := it) in Hall; [|now apply list_elem_of_In].
  destruct Hall as (Href & _).
  apply truthy_true in Href.
  exists (safeRef (ref it)). split; [|split; [reflexivity|split]].
  - unfold competitionDownloadData, refOfArg. cbn [Js.or_undef].
    unfold Js.or_else. repeat (rewrite Href; cbn iota). reflexivity.
  - apply truthy_true. now rewrite safeRef_truthy.
  - apply safeRef_no_separator.
Qed.

End WithPath.

Lemma download_listed_witness :
  exists name,
    competitionDownloadData (fun a b c => a +:+ "/" +:+ b +:+ "/" +:+ c) (Some "/w")
      (Item (Some "titanic") (Some "https://www.kaggle.com/competitions/titanic")) None
    = Some (mkDownload ["competitions"; "download"; "titanic"; "-p";
                        "/w/competitions/" +:+ name]
                       ("/w/competitions/" +:+ name))
    /\ name = "titanic".
Proof.
  destruct (download_of_listed_competition
              (fun a b c => a +:+ "/" +:+ b +:+ "/" +:+ c) (fun s => s)
              ("ref,deadline" +:+ Js.lf +:+ "titanic,2030-01-01") "/w" None
              (mkCompetitionItem "titanic" "titanic" "2030-01-01" "General"
                 "https://www.kaggle.com/competitions/titanic"))
    as (name & Hd & Hn & _).
  - simpl. now left.
  - exists name. split; [exact Hd | exact Hn].
Defined.

End DownloadProps.

(** ** Notebooks, encoded rows, attached datasets and the output folder *)

Module ViewProps.
Import Csv CsvProps Project ProjectProps.

(** X9: whatever the tool answers, in every mode of the view and on the
    fallback to the user's own notebooks as well, each notebook that is
    listed has a ref and an address that are not empty; when every call
    is rejected the list is empty. *)
Theorem notebooks_getChildren_items (showMyNotebooks : bool)
    (searchTerm language kernelType : string) (run : list string -> option string) :
  Forall (fun it => ref it <> EmptyString /\ url it <> EmptyString)
         (Notebooks.getChildren showMyNotebooks searchTerm language kernelType run)
  /\ ((forall a, run a = None) ->
      Notebooks.getChildren showMyNotebooks searchTerm language kernelType run = []).
Proof.
  unfold Notebooks.getChildren. split.
  - destruct (run (Notebooks.listArgs _ _ _ _)) as [out|].
    + unfold notebooksOfOutput. destruct (isCsvWithRef (Js.trim out)); [|constructor].
      apply parseKernelsCsv_nonempty.
    + destruct showMyNotebooks; cbn [negb]; [constructor|].
      destruct (run Notebooks.fallbackArgs); [apply parseKernelsCsv_nonempty | constructor].
  - intros Hnone. rewrite !Hnone. now destruct showMyNotebooks.
Qed.

(** *** Reading back an encoded row *)

Lemma dropLastQuote_length (s : string) :
  String.length (dropLastQuote s) <= String.length s
  /\ (endsWithQuote s = true -> String.length (dropLastQuote s) < String.length s).
Proof.
  induction s as [|c r [IH1 IH2]]; [split; [reflexivity | discriminate]|].
  destruct r as [|d r'].
  - cbn [dropLastQuote endsWithQuote]. destruct (c =? dquote)%char; simpl; split; try lia; discriminate.
  - change (dropLastQuote (String c (String d r')))
      with (String c (dropLastQuote (String d r'))).
    change (endsWithQuote (String c (String d r'))) with (endsWithQuote (String d r')).
    cbn [String.length] in *. split; [lia|]. intros H. specialize (IH2 H). lia.
Qed.

Lemma stripEdgeQuotes_fixed (s : string) :
  stripEdgeQuotes s = s <-> edgeQuoteFree s = true.
Proof.
  split; [|apply stripEdgeQuotes_id].
  intros Hfix. unfold edgeQuoteFree. destruct s as [|c r]; [reflexivity|].
  unfold stripEdgeQuotes in Hfix. cbn [startsWithQuote].
  destruct (c =? dquote)%char eqn:Hc.
  - exfalso. apply (f_equal String.length) in Hfix. cbn [String.length] in Hfix.
    pose proof (proj1 (dropLastQuote_length r)). lia.
  - cbn [negb andb]. destruct (endsWithQuote (String c r)) eqn:He; [|reflexivity].
    exfalso. apply (f_equal String.length) in Hfix.
    pose proof (proj2 (dropLastQuote_length (String c r)) He). lia.
Qed.

(** X10: what [splitCsv] makes of the standard encoding of a row, a row
    having a field at least: the fields of the row, each without a literal
    quote at its start and without one at its end.  So the row is read
    back as it was exactly when no field begins or ends with a literal
    quote. *)
Theorem splitCsv_encodeRow_iff (f : string) (fields : list string) :
  splitCsv (encodeRow (f :: fields)) = map stripEdgeQuotes (f :: fields)
  /\ (splitCsv (encodeRow (f :: fields)) = f :: fields
      <-> forallb edgeQuoteFree (f :: fields) = true).
Proof.
  assert (Hmap : splitCsv (encodeRow (f :: fields)) = map stripEdgeQuotes (f :: fields)).
  { unfold splitCsv. now rewrite splitCsvLoop_encodeRow. }
  split; [exact Hmap|]. rewrite Hmap. clear Hmap.
  induction (f :: fields) as [|x l IH]; [now split|].
  cbn [map forallb]. rewrite andb_true_iff, <- IH, <- stripEdgeQuotes_fixed.
  split; [intros [= H1 H2]; now split | intros [-> ->]; reflexivity].
Qed.

(** *** The order of the datasets *)

Section WithYaml.
Context {Text : Type}.
Variable yaml_load : Text -> option (option KaggleYml).
Variable yaml_dump : KaggleYml -> Text.

(** X11: attaching keeps the order of the list.  When the descriptor names
    no dataset twice, [kaggle.attachDataset] leaves the list as it is if
    the slug is on it, and puts the slug at its end if not. *)
Theorem attach_keeps_order (file : option Text) (yml : KaggleYml) (ds : string) :
  (forall y, yaml_load (yaml_dump y) = Some (Some y)) ->
  loadYml yaml_load file = Some yml ->
  ds <> EmptyString ->
  NoDup (orEmpty (datasets yml)) ->
  exists yml',
    loadYml yaml_load (fst (attachDataset yaml_load yaml_dump true (Some ds) file))
    = Some yml'
    /\ datasets yml'
       = Some (if inList ds (orEmpty (datasets yml))
               then orEmpty (datasets yml)
               else orEmpty (datasets yml) ++ [ds]).
Proof.
  intros Hrt Hload Hds Hnd.
  exists (attachSlug yml ds).
  split; [now apply (attachDataset_loaded yaml_load yaml_dump Hrt)|].
  cbn [attachSlug datasets]. f_equal.
  destruct (inList ds (orEmpty (datasets yml))) eqn:Hin.
  - apply arrayFromSet_again; [assumption|]. now apply inList_In.
  - apply arrayFromSet_id. apply NoDup_app. split; [assumption|]. split.
    + intros x Hx Hx'. apply list_elem_of_In in Hx. apply list_elem_of_singleton in Hx'.
      subst x. apply inList_false in Hin. contradiction.
    + apply NoDup_singleton.
Qed.

End WithYaml.

Lemma attach_keeps_order_witness :
  exists yml',
    loadYml idLoad (fst (attachDataset idLoad idDump true (Some "carol/mnist")
                           (Some (attachSlug irisProject "bob/wine"))))
    = Some yml'
    /\ datasets yml' = Some ["alice/iris"; "bob/wine"; "carol/mnist"].
Proof.
  refine (attach_keeps_order idLoad idDump (Some (attachSlug irisProject "bob/wine"))
            (attachSlug irisProject "bob/wine") "carol/mnist" _ eq_refl _ _).
  - reflexivity.
  - discriminate.
  - apply arrayFromSet_NoDup.
Defined.

(** *** One folder for the outputs *)

Section WithPlatform.
Variable yaml_load : string -> option (option KaggleYml).
Variable path_join : string -> string -> string.

(** X12: the folder the outputs are downloaded to is the folder the view
    of the runs looks into.  Whenever [pollAndDownload] or
    [kaggle.downloadOutputs] gets as far as a folder, [getChildren] of the
    runs view and [kaggle.openOutputsFolder] work out the same folder from
    the same project file.  Without a project file the download stops
    before it starts, and the view looks into the default folder. *)
Theorem one_output_folder (root : string) (ymlFile : option string) :
  yaml_load EmptyString = Some None ->
  (forall dest,
      OutputFolder.downloadDest yaml_load path_join root ymlFile = Some dest ->
      Runs.outputDir yaml_load path_join root ymlFile = Some dest)
  /\ (ymlFile = None ->
      OutputFolder.downloadDest yaml_load path_join root ymlFile = None
      /\ Runs.outputDir yaml_load path_join root ymlFile
         = Some (path_join root ".kaggle-outputs")).
Proof.
  intros Hempty. split.
  - intros dest. unfold OutputFolder.downloadDest, Runs.outputDir, loadYml.
    destruct ymlFile as [text|]; [|discriminate].
    destruct (Js.truthy text) eqn:Ht.
    + destruct (yaml_load text) as [[y|]|]; [| |discriminate]; now intros [= <-].
    + destruct text; [|discriminate]. rewrite Hempty. now intros [= <-].
  - intros ->. split; reflexivity.
Qed.

End WithPlatform.

Lemma one_output_folder_witness :
  Runs.outputDir Runs.sampleYaml Runs.sampleJoin "/w" (Some "project: iris")
  = Some "/w/.kaggle-outputs".
Proof.
  exact (proj1 (one_output_folder Runs.sampleYaml Runs.sampleJoin "/w"
                  (Some "project: iris") eq_refl)
           "/w/.kaggle-outputs" eq_refl).
Defined.

End ViewProps.

(** ** The slug of a new project *)

Module ScaffoldProps.
Import Scaffold.

Example kernelSlug_default : kernelSlug "My Awesome Kernel" = "my-awesome-kernel".
Proof. reflexivity. Qed.

Example kernelSlug_edges : kernelSlug "  (Draft) GPU -- test #2!  " = "draft-gpu-test-2".
Proof. reflexivity. Qed.

Example projectName_keeps_edges : projectName "(Draft) test!" = "-draft-test-".
Proof. reflexivity. Qed.

Lemma alnum_not_hyphen (c : ascii) : isSlugAlnum c = true -> (c =? hyphen)%char = false.
Proof.
  intros H. destruct (c =? hyphen)%char eqn:E; [|reflexivity].
  apply Ascii.eqb_eq in E. subst c. discriminate H.
Qed.

Lemma hyphenate_chars (s : string) (b : bool) :
  allChars slugChar (hyphenate s b) = true.
Proof.
  revert b. induction s as [|c r IH]; intros b; [reflexivity|]. cbn [hyphenate].
  destruct (isSlugAlnum c) eqn:Hc.
  - cbn [allChars]. unfold slugChar at 1. now rewrite Hc, IH.
  - destruct b; [apply IH|]. cbn [allChars]. rewrite IH. reflexivity.
Qed.

Lemma hyphenate_inRun_start (s : string) :
  startsWithHyphen (hyphenate s true) = false.
Proof.
  induction s as [|c r IH]; [reflexivity|]. cbn [hyphenate].
  destruct (isSlugAlnum c) eqn:Hc; [|exact IH].
  cbn [startsWithHyphen]. now apply alnum_not_hyphen.
Qed.

Lemma hyphenate_noDouble (s : string) (b : bool) :
  noDoubleHyphen (hyphenate s b) = true.
Proof.
  revert b. induction s as [|c r IH]; intros b; [reflexivity|]. cbn [hyphenate].
  destruct (isSlugAlnum c) eqn:Hc.
  - cbn [noDoubleHyphen]. now rewrite (alnum_not_hyphen c Hc), IH.
  - destruct b; [apply IH|]. cbn [noDoubleHyphen].
    now rewrite hyphenate_inRun_start, IH, andb_false_r.
Qed.

Lemma dropLastHyphen_chars (p : ascii -> bool) (s : string) :
  allChars p s = true -> allChars p (dropLastHyphen s) = true.
Proof.
  induction s as [|c r IH]; [reflexivity|]. intros H. cbn [allChars] in H.
  apply andb_true_iff in H as [Hc Hr]. cbn [dropLastHyphen].
  destruct r as [|d r'].
  - destruct (c =? hyphen)%char; [reflexivity|]. cbn [allChars]. now rewrite Hc.
  - cbn [allChars]. rewrite Hc. now apply IH.
Qed.

Lemma dropLastHyphen_start (s : string) :
  startsWithHyphen s = false -> startsWithHyphen (dropLastHyphen s) = false.
Proof.
  destruct s as [|c [|d r]]; try reflexivity; cbn [dropLastHyphen startsWithHyphen].
  - intros H. now rewrite H.
  - tauto.
Qed.

Lemma dropLastHyphen_noDouble (s : string) :
  noDoubleHyphen s = true ->
  noDoubleHyphen (dropLastHyphen s) = true
  /\ endsWithHyphen (dropLastHyphen s) = false
  /\ (startsWithHyphen s = false -> startsWithHyphen (dropLastHyphen s) = false).
Proof.
  induction s as [|c r IH]; [now repeat split|]. intros H.
  cbn [noDoubleHyphen] in H. apply andb_true_iff in H as [Hc Hr].
  destruct (IH Hr) as (IH1 & IH2 & IH3).
  destruct r as [|d r'].
  - cbn [dropLastHyphen]. destruct (c =? hyphen)%char eqn:E; [now repeat split|].
    cbn. rewrite E. now repeat split.
  - change (dropLastHyphen (String c (String d r')))
      with (String c (dropLastHyphen (String d r'))).
    split; [|split].
    + cbn [noDoubleHyphen]. rewrite IH1, andb_true_r.
      destruct (c =? hyphen)%char eqn:E; [|reflexivity]. cbn [andb] in *.
      apply negb_true_iff in Hc. now rewrite (IH3 Hc).
    + destruct (dropLastHyphen (String d r')) as [|e t] eqn:Ed.
      * cbn. destruct (c =? hyphen)%char eqn:E; [|reflexivity].
        (* a hyphen before a text that is dropped entirely *)
        cbn [andb] in Hc. apply negb_true_iff in Hc. cbn [startsWithHyphen] in Hc.
        exfalso. clear - Ed Hc.
        destruct r' as [|f r'']; cbn [dropLastHyphen] in Ed.
        -- now rewrite Hc in Ed.
        -- discriminate.
      * exact IH2.
    + cbn [startsWithHyphen]. tauto.
Qed.

Lemma kernelSlug_shape (title : string) :
  isSlug (kernelSlug title) = true.
Proof.
  unfold kernelSlug, projectName. set (h := hyphenate (Js.toLowerCase title) false).
  assert (Hchars : allChars slugChar h = true) by apply hyphenate_chars.
  assert (Hnd : noDoubleHyphen h = true) by apply hyphenate_noDouble.
  clearbody h. unfold isSlug, stripEdgeHyphens.
  destruct h as [|c r]; [reflexivity|].
  pose proof Hchars as Hall.
  cbn [allChars] in Hchars. apply andb_true_iff in Hchars as [Hc Hr].
  destruct (c =? hyphen)%char eqn:E.
  - cbn [noDoubleHyphen] in Hnd. rewrite E in Hnd. cbn [andb] in Hnd.
    apply andb_true_iff in Hnd as [Hs Hnd]. apply negb_true_iff in Hs.
    destruct (dropLastHyphen_noDouble r Hnd) as (H1 & H2 & H3).
    now rewrite (dropLastHyphen_chars _ r Hr), H1, H2, (H3 Hs).
  - destruct (dropLastHyphen_noDouble (String c r) Hnd) as (H1 & H2 & H3).
    rewrite (dropLastHyphen_chars _ _ Hall), H1, H2, H3; [reflexivity|exact E].
Qed.


Lemma slugChar_lower (c : ascii) : slugChar c = true -> Js.lowerChar c = c.
Proof.
  destruct c as [[] [] [] [] [] [] [] []]; vm_compute; intros H;
    first [reflexivity | discriminate H].
Qed.

Lemma toLowerCase_slug (s : string) :
  allChars slugChar s = true -> Js.toLowerCase s = s.
Proof.
  induction s as [|c r IH]; [reflexivity|]. cbn [allChars]. intros H.
  apply andb_true_iff in H as [Hc Hr]. cbn [Js.toLowerCase].
  now rewrite slugChar_lower, IH.
Qed.

Lemma hyphenate_slug (s : string) :
  allChars slugChar s = true -> noDoubleHyphen s = true ->
  forall b, (b = true -> startsWithHyphen s = false) -> hyphenate s b = s.
Proof.
  induction s as [|c r IH]; [reflexivity|]. cbn [allChars noDoubleHyphen].
  intros H Hnd b Hb.
  apply andb_true_iff in H as [Hc Hr]. apply andb_true_iff in Hnd as [Hcd Hnd].
  cbn [hyphenate]. destruct (isSlugAlnum c) eqn:Ha.
  - f_equal. apply IH; [assumption..|discriminate].
  - unfold slugChar in Hc. rewrite Ha in Hc. cbn [orb] in Hc.
    cbn [startsWithHyphen] in Hb. destruct b; [rewrite Hb in Hc; [discriminate|reflexivity]|].
    apply Ascii.eqb_eq in Hc. subst c. f_equal. apply IH; [assumption..|].
    intros _. rewrite Ascii.eqb_refl in Hcd. cbn [andb] in Hcd.
    now apply negb_true_iff in Hcd.
Qed.

Lemma dropLastHyphen_keep (s : string) :
  endsWithHyphen s = false -> dropLastHyphen s = s.
Proof.
  induction s as [|c r IH]; [reflexivity|]. intros H. cbn [dropLastHyphen].
  destruct r as [|d r'].
  - cbn in H. now rewrite H.
  - f_equal. apply IH. exact H.
Qed.

Lemma kernelSlug_of_slug (t : string) : isSlug t = true -> kernelSlug t = t.
Proof.
  unfold isSlug. intros H.
  apply andb_true_iff in H as [H He]. apply andb_true_iff in H as [H Hs].
  apply andb_true_iff in H as [Hc Hnd].
  apply negb_true_iff in He. apply negb_true_iff in Hs.
  unfold kernelSlug, projectName. rewrite toLowerCase_slug by assumption.
  rewrite hyphenate_slug by (assumption || discriminate).
  unfold stripEdgeHyphens. destruct t as [|c r]; [reflexivity|].
  cbn [startsWithHyphen] in Hs. rewrite Hs. now apply dropLastHyphen_keep.
Qed.

(** X13: whatever the title, the slug [initProject] derives from it is made
    of lower-case letters, digits and hyphens only, has no two hyphens in
    a row, and neither starts nor ends with a hyphen.  The titles that are
    their own slug are exactly the texts of that form, so deriving a slug
    from a slug changes nothing. *)
Theorem kernelSlug_normal_form (title : string) :
  isSlug (kernelSlug title) = true
  /\ (kernelSlug title = title <-> isSlug title = true)
  /\ kernelSlug (kernelSlug title) = kernelSlug title.
Proof.
  split; [apply kernelSlug_shape|]. split; [split|].
  - intros H. rewrite <- H. apply kernelSlug_shape.
  - apply kernelSlug_of_slug.
  - apply kernelSlug_of_slug, kernelSlug_shape.
Qed.

(** *** The empty slug *)

Lemma hyphenate_noAlnum (s : string) :
  noAlnum s = true ->
  hyphenate s true = EmptyString
  /\ (hyphenate s false = EmptyString \/ hyphenate s false = String hyphen EmptyString).
Proof.
  unfold noAlnum. induction s as [|c r IH]; [now split; [|left]|].
  cbn [allChars]. intros H. apply andb_true_iff in H as [Hc Hr].
  apply negb_true_iff in Hc. destruct (IH Hr) as [IH1 _].
  cbn [hyphenate]. rewrite Hc, IH1. split; [reflexivity | now right].
Qed.

Lemma dropLastHyphen_noAlnum (s : string) :
  noAlnum (dropLastHyphen s) = noAlnum s.
Proof.
  unfold noAlnum. induction s as [|c r IH]; [reflexivity|].
  cbn [dropLastHyphen]. destruct r as [|d r'].
  - destruct (c =? hyphen)%char eqn:E; [|reflexivity].
    apply Ascii.eqb_eq in E. now subst c.
  - cbn [allChars] in *. now rewrite IH.
Qed.

Lemma hyphenate_keeps_alnum (s : string) (b : bool) :
  noAlnum (hyphenate s b) = noAlnum s.
Proof.
  unfold noAlnum. revert b. induction s as [|c r IH]; intros b; [reflexivity|].
  cbn [hyphenate allChars]. destruct (isSlugAlnum c) eqn:Hc; cbn [negb andb].
  - cbn [allChars]. now rewrite Hc.
  - destruct b; [apply IH|]. cbn [allChars]. now rewrite IH.
Qed.

Lemma stripEdgeHyphens_noAlnum (s : string) :
  noAlnum (stripEdgeHyphens s) = noAlnum s.
Proof.
  unfold stripEdgeHyphens. destruct s as [|c r]; [reflexivity|].
  destruct (c =? hyphen)%char eqn:E.
  - rewrite dropLastHyphen_noAlnum. apply Ascii.eqb_eq in E. now subst c.
  - apply dropLastHyphen_noAlnum.
Qed.

(** X14: the slug is empty, and the kernel id ends with its slash, exactly
    when the title holds no letter of the alphabet and no digit. *)
Theorem kernelSlug_empty_iff (username title : string) :
  (kernelSlug title = EmptyString <-> noAlnum (Js.toLowerCase title) = true)
  /\ (kernelId username title = username +:+ "/"
      <-> noAlnum (Js.toLowerCase title) = true).
Proof.
  assert (Hiff : kernelSlug title = EmptyString <-> noAlnum (Js.toLowerCase title) = true).
  { unfold kernelSlug, projectName. split.
    - intros H.
      rewrite <- (hyphenate_keeps_alnum _ false), <- stripEdgeHyphens_noAlnum.
      now rewrite H.
    - intros H. destruct (hyphenate_noAlnum _ H) as [_ [-> | ->]]; reflexivity. }
  split; [exact Hiff|]. rewrite <- Hiff. unfold kernelId. split.
  - intros H. induction username as [|c u IH]; simpl in H.
    + now injection H.
    + injection H as H. now apply IH.
  - now intros ->.
Qed.

Example kernelId_no_letters : kernelId "bob" "!!! ???" = "bob/".
Proof. reflexivity. Qed.

End ScaffoldProps.

(** ** Synchronising the metadata *)

Module SyncProps.
Import Creds Project Sync ProjectProps.

Lemma assign_lookup (k : string) (v : option Json) (m : Meta) (j : string) :
  assign k v m !! j = if decide (k = j) then v else m !! j.
Proof.
  unfold assign. destruct v as [x|]; destruct (decide (k = j)) as [->|Hne].
  - apply lookup_insert_eq.
  - now apply lookup_insert_ne.
  - apply lookup_delete_eq.
  - now apply lookup_delete_ne.
Qed.

Lemma insert_lookup (k : string) (x : Json) (m : Meta) (j : string) :
  <[k := x]> m !! j = if decide (k = j) then Some x else m !! j.
Proof.
  destruct (decide (k = j)) as [->|Hne]; [apply lookup_insert_eq | now apply lookup_insert_ne].
Qed.

(** What [syncPush] leaves under each name. *)
Lemma syncPush_lookup (yml : KaggleYml) (meta : Meta) (j : string) :
  syncPush yml meta !! j =
    if decide (j = "competition_sources")
    then Some (sources (competitions yml) (meta !! j))
    else if decide (j = "dataset_sources")
    then Some (sources (datasets yml) (meta !! j))
    else if decide (j = "enable_internet") then Some (JBool (wantsInternet yml))
    else if decide (j = "enable_gpu") then Some (JBool (wantsGpu yml))
    else if decide (j = "is_private") then Some (JBool (isPrivate yml))
    else if decide (j = "code_file")
    then orJson (strValue (code_file yml)) (meta !! j)
    else if decide (j = "id") then orJson (strValue (kernel_slug yml)) (meta !! j)
    else meta !! j.
Proof.
  unfold syncPush. cbv zeta.
  repeat (rewrite ?insert_lookup, ?assign_lookup;
          match goal with
          | |- context [decide (?a = ?b)] =>
              destruct (decide (a = b)); subst; try discriminate; try congruence
          end); try reflexivity.
Qed.

Lemma syncRun_lookup (yml : KaggleYml) (meta : Meta) (j : string) :
  syncRun yml meta !! j =
    if decide (j = "enable_tpu") then Some (JBool (wantsTpu yml))
    else syncPush yml meta !! j.
Proof.
  rewrite syncPush_lookup. unfold syncRun. cbv zeta.
  repeat (rewrite ?insert_lookup, ?assign_lookup;
          match goal with
          | |- context [decide (?a = ?b)] =>
              destruct (decide (a = b)); subst; try discriminate; try congruence
          end); try reflexivity.
Qed.

Lemma orJson_again (a b : option Json) : orJson a (orJson a b) = orJson a b.
Proof. destruct a as [x|]; [|reflexivity]. simpl. now destruct (jsTruthy x). Qed.

Lemma orJson_is_Some (a b : option Json) : is_Some b -> is_Some (orJson a b).
Proof.
  intros Hb. destruct a as [x|]; [|exact Hb]. simpl.
  destruct (jsTruthy x); [eexists; reflexivity | exact Hb].
Qed.

Lemma sources_truthy (l : option (list string)) (old : option Json) :
  jsTruthy (sources l old) = true.
Proof.
  unfold sources. destruct l as [ds|]; [reflexivity|]. simpl.
  destruct old as [v|]; [|reflexivity]. simpl.
  destruct (jsTruthy v) eqn:E; simpl; [now rewrite E | reflexivity].
Qed.

Lemma sources_again (l : option (list string)) (old : option Json) :
  sources l (Some (sources l old)) = sources l old.
Proof.
  destruct l as [ds|]; [reflexivity|].
  pose proof (sources_truthy None old) as Ht.
  unfold sources at 1. simpl. now rewrite Ht.
Qed.

(** X15: synchronising twice is synchronising once: a second run of the
    assignments of [kaggle.pushRun] with the same descriptor leaves the
    metadata as the first run made it; the same holds for the assignments
    of [kaggle.runCurrentNotebook]. *)
Theorem sync_idempotent (yml : KaggleYml) (meta : Meta) :
  syncPush yml (syncPush yml meta) = syncPush yml meta
  /\ syncRun yml (syncRun yml meta) = syncRun yml meta.
Proof.
  assert (Hpush : forall m j, syncPush yml (syncPush yml m) !! j = syncPush yml m !! j).
  { intros m j. rewrite (syncPush_lookup yml (syncPush yml m)).
    rewrite !(syncPush_lookup yml m).
    repeat match goal with
           | |- context [decide (?a = ?b)] => destruct (decide (a = b))
           end;
      rewrite ?sources_again, ?orJson_again; reflexivity. }
  split; apply map_eq; intros j.
  - apply Hpush.
  - rewrite (syncRun_lookup yml (syncRun yml meta)).
    rewrite (syncPush_lookup yml (syncRun yml meta)).
    rewrite !(syncRun_lookup yml meta), !(syncPush_lookup yml meta).
    repeat match goal with
           | |- context [decide (?a = ?b)] => destruct (decide (a = b)); try congruence
           end;
      rewrite ?sources_again, ?orJson_again; reflexivity.
Qed.

(** X16: the assignments of [kaggle.pushRun] leave every property they do
    not name as it was, the title and the [enable_tpu] switch among them,
    and take no property away; the assignments of
    [kaggle.runCurrentNotebook] do the same and set [enable_tpu] as
    well. *)
Theorem syncPush_frame (yml : KaggleYml) (meta : Meta) :
  (forall j, ~ In j pushKeys -> syncPush yml meta !! j = meta !! j)
  /\ (forall j, is_Some (meta !! j) -> is_Some (syncPush yml meta !! j))
  /\ syncPush yml meta !! "enable_tpu" = meta !! "enable_tpu"
  /\ syncRun yml meta = <["enable_tpu" := JBool (wantsTpu yml)]> (syncPush yml meta).
Proof.
  split; [|split; [|split]].
  - intros j Hj. rewrite syncPush_lookup. unfold pushKeys in Hj. simpl in Hj.
    repeat match goal with
           | |- context [decide (?a = ?b)] => destruct (decide (a = b)); [exfalso; apply Hj; subst j; intuition congruence|]
           end.
    reflexivity.
  - intros j Hsome. rewrite syncPush_lookup.
    repeat match goal with
           | |- context [decide (?a = ?b)] => destruct (decide (a = b))
           end; try (eexists; reflexivity); try assumption; now apply orJson_is_Some.
  - now rewrite syncPush_lookup.
  - apply map_eq. intros j. rewrite syncRun_lookup, insert_lookup.
    destruct (decide (j = "enable_tpu")) as [->|Hne].
    + now rewrite decide_True.
    + now rewrite decide_False by congruence.
Qed.

Lemma syncPush_frame_witness :
  syncPush irisProject tpuMeta !! "title" = Some (JStr "Iris").
Proof.
  refine (eq_trans (proj1 (syncPush_frame irisProject tpuMeta) "title" _) eq_refl).
  unfold pushKeys. simpl. intros H.
  repeat (destruct H as [H|H]; [discriminate H|]). exact H.
Defined.

(** A notebook run with a TPU: the settings reach the metadata. *)
Example runCurrentNotebook_settings :
  let m := syncRun (withSettings "nb.ipynb" AccTpu true irisProject) tpuMeta in
  m !! "code_file" = Some (JStr "nb.ipynb")
  /\ m !! "enable_gpu" = Some (JBool false)
  /\ m !! "enable_tpu" = Some (JBool true)
  /\ m !! "enable_internet" = Some (JBool true).
Proof. repeat split; vm_compute; reflexivity. Qed.

(** A descriptor switched from TPU to GPU and pushed: both switches are
    on in the metadata. *)
Example pushRun_keeps_tpu_switch :
  syncPush irisProject tpuMeta !! "enable_gpu" = Some (JBool true)
  /\ syncPush irisProject tpuMeta !! "enable_tpu" = Some (JBool true)
  /\ syncRun irisProject tpuMeta !! "enable_tpu" = Some (JBool false).
Proof. repeat split; vm_compute; reflexivity. Qed.

(** X17: a dataset that was attached reaches the metadata: after
    [kaggle.attachDataset] and the synchronisation of [kaggle.pushRun],
    [dataset_sources] is the list of the descriptor, which names the
    dataset exactly once and names no dataset twice, whatever the
    metadata held before. *)
Theorem attached_dataset_is_synced (yml : KaggleYml) (ds : string) (meta : Meta) :
  exists l,
    syncPush (attachSlug yml ds) meta !! "dataset_sources" = Some (JArr (map JStr l))
    /\ datasets (attachSlug yml ds) = Some l
    /\ count_occ string_dec l ds = 1
    /\ NoDup l
    /\ (forall x, In x (orEmpty (datasets yml)) -> In x l).
Proof.
  exists (arrayFromSet (orEmpty (datasets yml) ++ [ds])).
  destruct (attachSlug_entries yml ds) as [Hone Hnd].
  split; [|split; [|split; [|split]]].
  - rewrite syncPush_lookup. reflexivity.
  - reflexivity.
  - exact Hone.
  - exact Hnd.
  - intros x Hx. apply arrayFromSet_In, in_or_app. now left.
Qed.

End SyncProps.

(** ** A new project *)

Module InitProps.
Import Creds Project Scaffold Sync Init SyncProps CsvProps.

Example initProject_sample :
  yml <$> initProject (Some "My Awesome Kernel") (Some "bob") "gpu" false None
  = Some ("project: my-awesome-kernel" +:+ Js.lf +:+
          "kernel_slug: bob/my-awesome-kernel" +:+ Js.lf +:+
          "code_file: notebook.ipynb" +:+ Js.lf +:+
          "accelerator: gpu" +:+ Js.lf +:+
          "internet: false" +:+ Js.lf +:+
          "privacy: private" +:+ Js.lf +:+
          "datasets: []" +:+ Js.lf +:+
          "competitions: []" +:+ Js.lf +:+
          "outputs:" +:+ Js.lf +:+ "  download_to: .kaggle-outputs" +:+ Js.lf).
Proof. reflexivity. Qed.

Lemma kernelId_truthy (username title : string) :
  Js.truthy (kernelId username title) = true.
Proof. unfold kernelId. now destruct username. Qed.

Lemma codeFileOf_truthy (pick : option string) : Js.truthy (codeFileOf pick) = true.
Proof.
  unfold codeFileOf. destruct pick as [p|]; [|reflexivity]. simpl.
  unfold Js.or_else. now destruct (Js.truthy p) eqn:E.
Qed.

(** X18: [initProject] leaves the two project files in step.  When the
    descriptor that is read back from the new [kaggle.yml] holds what the
    template spells, the synchronisation of [kaggle.pushRun] finds nothing
    to change in the new [kernel-metadata.json]. *)
Theorem initProject_in_sync (title username accel : string) (net : bool)
    (pick : option string) (s : Scaffolded) (y : KaggleYml) :
  initProject (Some title) (Some username) accel net pick = Some s ->
  Spells y title username accel net (codeFileOf pick) ->
  syncPush y (kmeta s) = kmeta s.
Proof.
  intros Hinit (Hslug & Hcode & Hgpu & Hnet & Hpriv & Hds & Hcs).
  unfold initProject in Hinit.
  destruct (Js.truthy title); [|discriminate].
  destruct (Js.truthy username); [|discriminate].
  cbn [negb] in Hinit. injection Hinit as <-. cbn [kmeta].
  apply map_eq. intros j. rewrite syncPush_lookup.
  unfold isPrivate, wantsGpu, wantsInternet, sources, strValue, listValue.
  rewrite Hslug, Hcode, Hnet, Hpriv, Hds, Hcs. cbn [fmap option_fmap option_map orJson jsTruthy].
  rewrite kernelId_truthy, codeFileOf_truthy.
  assert (Hg : match accelerator y with Some AccGpu => true | _ => false end
               = String.eqb accel "gpu").
  { destruct (String.eqb accel "gpu") eqn:E.
    - apply String.eqb_eq in E. apply Hgpu in E. now rewrite E.
    - destruct (accelerator y) as [[| |]|]; try reflexivity.
      destruct Hgpu as [Hgpu _]. rewrite (Hgpu eq_refl) in E. discriminate. }
  rewrite Hg. unfold kmetaOf.
  repeat (rewrite ?insert_lookup, ?lookup_empty;
          match goal with
          | |- context [decide (?a = ?b)] =>
              destruct (decide (a = b)); subst; try discriminate; try congruence
          end); try reflexivity.
Qed.

Lemma initProject_in_sync_witness :
  syncPush sampleDescriptor
    (kmetaOf "My Awesome Kernel" "bob" "gpu" true "notebook.ipynb")
  = kmetaOf "My Awesome Kernel" "bob" "gpu" true "notebook.ipynb".
Proof.
  refine (initProject_in_sync "My Awesome Kernel" "bob" "gpu" true None
            (mkScaffolded (kmetaOf "My Awesome Kernel" "bob" "gpu" true "notebook.ipynb")
                          (ymlOf "My Awesome Kernel" "bob" "gpu" true "notebook.ipynb"))
            sampleDescriptor eq_refl _).
  unfold Spells. repeat split; reflexivity.
Defined.

End InitProps.

(** ** Signing in and out *)

Module AuthProps.
Import Creds Auth CsvProps.

Example signIn_typed :
  signIn colonParse colonStringify ∅ (Some "bob") (Some "k1") None
  = mkSession (Some "bob:k1") (Some true) false.
Proof. reflexivity. Qed.

Example signIn_dismissed :
  signIn colonParse colonStringify ∅ (Some "bob") None (Some "old:token")
  = mkSession (Some "old:token") None true.
Proof. reflexivity. Qed.

Example signOut_with_environment :
  signOut colonParse {[ KAGGLE_USERNAME := "bob"; KAGGLE_KEY := "k1" ]} (Some "bob:k1")
  = mkSession None (Some true) false.
Proof. reflexivity. Qed.

Section WithJson.
Variable JSON_parse : string -> option Json.
Variable JSON_stringify : string -> string -> string.

Lemma promptAndStore_stored (askUsername askKey store store' : option string) (n : string) :
  promptAndStore JSON_stringify askUsername askKey store = (store', Stored n) ->
  exists u k, askUsername = Some u /\ askKey = Some k
              /\ Js.truthy u = true /\ Js.truthy k = true
              /\ store' = Some (JSON_stringify u k).
Proof.
  unfold promptAndStore.
  destruct askUsername as [u|]; [|discriminate].
  destruct (Js.truthy u) eqn:Hu; [|discriminate].
  destruct askKey as [k|]; [|discriminate].
  destruct (Js.truthy k) eqn:Hk; [|discriminate].
  cbn [negb]. intros [= <- _]. now exists u, k.
Qed.

Lemma promptAndStore_failed (askUsername askKey store store' : option string)
    (o : StoreOutcome) :
  promptAndStore JSON_stringify askUsername askKey store = (store', o) ->
  (forall n, o <> Stored n) -> store' = store.
Proof.
  unfold promptAndStore.
  destruct askUsername as [u|]; [|now intros [= <- _]].
  destruct (Js.truthy u); [|now intros [= <- _]].
  destruct askKey as [k|]; [|now intros [= <- _]].
  destruct (Js.truthy k); [|now intros [= <- _]].
  cbn [negb]. intros [= _ <-] Hn. now contradiction (Hn "Kaggle token saved securely.").
Qed.

Lemma credsOfJson_typed (u k : string) :
  JSON_parse (JSON_stringify u k) = Some (JObj [("username", JStr u); ("key", JStr k)]) ->
  JSON_parse EmptyString = None ->
  Js.truthy u = true -> Js.truthy k = true ->
  credsOfJson JSON_parse (Some (JSON_stringify u k)) = Some (mkCreds (JStr u) (JStr k)).
Proof.
  intros Hrt Hempty Hu Hk.
  assert (Ht : Js.truthy (JSON_stringify u k) = true).
  { destruct (JSON_stringify u k); [|reflexivity]. rewrite Hempty in Hrt. discriminate. }
  unfold credsOfJson. rewrite Ht, Hrt. simpl. now rewrite Hu, Hk.
Qed.

(** X19: when [kaggle.signIn] ends without an error the user is signed
    in: the context is set to true and [getKaggleCreds] resolves,
    whatever the secret store held before, to the token of
    [KAGGLE_TOKEN_JSON] when that is valid and to the pair that was typed
    otherwise.  When the command ends with an error the secret store is
    as it was and the context is not touched.  [kaggle.signOut] empties
    the store, and leaves the user signed in exactly when the
    environment alone holds credentials. *)
Theorem sign_in_and_out (env : gmap string string)
    (askUsername askKey store : option string) :
  (forall u k, askUsername = Some u -> askKey = Some k ->
     JSON_parse (JSON_stringify u k)
     = Some (JObj [("username", JStr u); ("key", JStr k)])) ->
  JSON_parse EmptyString = None ->
  let s := signIn JSON_parse JSON_stringify env askUsername askKey store in
  let out := signOut JSON_parse env (secret s) in
  (errorShown s = false ->
     isSignedIn s = Some true
     /\ exists c,
          getKaggleCreds JSON_parse (secret s) env = Ok c
          /\ (credsOfJson JSON_parse (env !! KAGGLE_TOKEN_JSON) = Some c
              \/ (credsOfJson JSON_parse (env !! KAGGLE_TOKEN_JSON) = None
                  /\ exists u k, askUsername = Some u /\ askKey = Some k
                                 /\ c = mkCreds (JStr u) (JStr k))))
  /\ (errorShown s = true -> secret s = store /\ isSignedIn s = None)
  /\ secret out = None
  /\ (isSignedIn out = Some true <->
        credsOfJson JSON_parse (env !! KAGGLE_TOKEN_JSON) <> None
        \/ credsOfEnvPair env <> None).
Proof.
  intros Hrt Hempty. cbv zeta. split; [|split; [|split]].
  - unfold signIn, storeApiTokenFromEnvOrPrompt.
    destruct (env !! KAGGLE_TOKEN_JSON) as [envRaw|] eqn:Hraw.
    + destruct (credsOfJson JSON_parse (Some envRaw)) as [c|] eqn:Henv.
      * cbn [secret isSignedIn errorShown]. intros _.
        unfold updateAuthContext, getKaggleCreds. rewrite Henv.
        split; [reflexivity|]. exists c. split; [reflexivity | now left].
      * destruct (promptAndStore JSON_stringify askUsername askKey store)
          as [store' [n| |]] eqn:Hp; cbn [errorShown]; try discriminate.
        intros _. apply promptAndStore_stored in Hp as (u & k & -> & -> & Hu & Hk & ->).
        cbn [secret isSignedIn]. unfold updateAuthContext, getKaggleCreds.
        rewrite (credsOfJson_typed u k (Hrt u k eq_refl eq_refl) Hempty Hu Hk). split; [reflexivity|]. exists (mkCreds (JStr u) (JStr k)).
        split; [reflexivity|]. right. split; [first [assumption | reflexivity]|]. now exists u, k.
    + destruct (promptAndStore JSON_stringify askUsername askKey store)
        as [store' [n| |]] eqn:Hp; cbn [errorShown]; try discriminate.
      intros _. apply promptAndStore_stored in Hp as (u & k & -> & -> & Hu & Hk & ->).
      cbn [secret isSignedIn]. unfold updateAuthContext, getKaggleCreds.
      rewrite (credsOfJson_typed u k (Hrt u k eq_refl eq_refl) Hempty Hu Hk). split; [reflexivity|]. exists (mkCreds (JStr u) (JStr k)).
      split; [reflexivity|]. right. split; [first [assumption | reflexivity]|]. now exists u, k.
  - unfold signIn, storeApiTokenFromEnvOrPrompt.
    destruct (env !! KAGGLE_TOKEN_JSON) as [envRaw|].
    + destruct (credsOfJson JSON_parse (Some envRaw)); [discriminate|].
      destruct (promptAndStore JSON_stringify askUsername askKey store)
        as [store' [n| |]] eqn:Hp; cbn [errorShown secret isSignedIn]; try discriminate;
        intros _; (split; [|reflexivity]);
        apply (promptAndStore_failed _ _ _ _ _ Hp); discriminate.
    + destruct (promptAndStore JSON_stringify askUsername askKey store)
        as [store' [n| |]] eqn:Hp; cbn [errorShown secret isSignedIn]; try discriminate;
        intros _; (split; [|reflexivity]);
        apply (promptAndStore_failed _ _ _ _ _ Hp); discriminate.
  - reflexivity.
  - unfold signOut, clearStoredToken, updateAuthContext, getKaggleCreds.
    cbn [isSignedIn credsOfJson].
    destruct (credsOfJson JSON_parse (env !! KAGGLE_TOKEN_JSON)).
    + split; [intros _; now left | reflexivity].
    + destruct (credsOfEnvPair env).
      * split; [intros _; now right | reflexivity].
      * split; [discriminate | intros [H|H]; now contradiction H].
Qed.

(** X20: a token file that [storeApiTokenFromFile] accepts is one that
    [getKaggleCreds] resolves: once the file is stored, the credentials
    are the two fields of the file, whatever the environment holds.  A
    file that is not accepted leaves the secret store as it was. *)
Theorem storeApiTokenFromFile_resolves (picked : Picked) (store : option string) :
  JSON_parse EmptyString = None ->
  let r := storeApiTokenFromFile JSON_parse picked store in
  (forall n, snd r = Stored n ->
     exists raw obj u k,
       picked = FileText raw /\ fst r = Some raw
       /\ JSON_parse raw = Some obj
       /\ prop obj "username" = Some u /\ prop obj "key" = Some k
       /\ forall env, getKaggleCreds JSON_parse (fst r) env = Ok (mkCreds u k))
  /\ ((forall n, snd r <> Stored n) -> fst r = store).
Proof.
  intros Hempty. cbv zeta. unfold storeApiTokenFromFile.
  destruct picked as [| |raw]; try (split; [discriminate | reflexivity]).
  destruct (JSON_parse raw) as [obj|] eqn:Hp; [|split; [discriminate | reflexivity]].
  unfold hasBothFields.
  destruct (prop obj "username") as [u|] eqn:Hu; [|split; [discriminate | reflexivity]].
  destruct (prop obj "key") as [k|] eqn:Hk; [|split; [discriminate | reflexivity]].
  destruct (jsTruthy u && jsTruthy k) eqn:Ht; [|split; [discriminate | reflexivity]].
  cbn [fst snd]. split.
  - intros n _. exists raw, obj, u, k. repeat split; try assumption.
    intros env. unfold getKaggleCreds, credsOfJson.
    destruct raw; [rewrite Hempty in Hp; discriminate|].
    cbn [Js.truthy]. now rewrite Hp, Hu, Hk, Ht.
  - intros Hn. now contradiction (Hn "Kaggle token stored securely.").
Qed.

End WithJson.

Lemma sign_in_and_out_witness :
  isSignedIn (signIn colonParse colonStringify ∅ (Some "bob") (Some "k1") None) = Some true.
Proof.
  refine (proj1 (proj1 (sign_in_and_out colonParse colonStringify ∅
                          (Some "bob") (Some "k1") None _ eq_refl) eq_refl)).
  intros u k [= <-] [= <-]. reflexivity.
Defined.

Lemma storeApiTokenFromFile_witness :
  getKaggleCreds colonParse
    (fst (storeApiTokenFromFile colonParse (FileText "bob:k1") None))
    {[ KAGGLE_USERNAME := "eve"; KAGGLE_KEY := "k2" ]}
  = Ok (mkCreds (JStr "bob") (JStr "k1")).
Proof.
  destruct (proj1 (storeApiTokenFromFile_resolves colonParse (FileText "bob:k1") None eq_refl)
              "Kaggle token stored securely." eq_refl)
    as (raw & obj & u & k & Hpick & Hfst & Hparse & Hu & Hk & Hall).
  rewrite (Hall {[ KAGGLE_USERNAME := "eve"; KAGGLE_KEY := "k2" ]}).
  injection Hpick as <-. vm_compute in Hparse. injection Hparse as <-.
  vm_compute in Hu. vm_compute in Hk. injection Hu as <-. injection Hk as <-.
  reflexivity.
Defined.

End AuthProps.

(** ** The attempts of a polling session *)

Module PollBounds.
Import Poll PollProps.
Local Open Scope Z_scope.

Lemma elapsedAt_pauses (w : World) (i : Z) (k : nat) :
  Z.of_nat k * timerMs (pauseMs i) <= elapsedAt w i k.
Proof.
  induction k as [|k IH]; [simpl; lia|].
  cbn [elapsedAt]. lia.
Qed.

Lemma pollLoop_interval (w : World) (i j t : Z) (fuel : nat) :
  pauseMs i = pauseMs j ->
  forall k e, pollLoop fuel w i t k e = pollLoop fuel w j t k e.
Proof.
  intros Hp. induction fuel as [|fuel IH]; intros k e; [reflexivity|].
  cbn [pollLoop]. rewrite Hp. destruct (e <? t * 1000); [|reflexivity].
  destruct (fetch (w k)) as [| |[|x items]]; try reflexivity; apply IH.
Qed.

(** X21: a session of [pollAndDownload] makes a bounded number of
    attempts: with a timeout that is not positive it makes none, and
    otherwise it makes one at least, and the pauses before the last
    attempt fit within the timeout.  For an interval up to 2147483 s a
    pause lasts [max(1000, interval * 1000)] ms at least; for a longer
    interval the timer takes a delay of 1 ms, and the attempts but one are
    fewer than the milliseconds of the timeout.  An interval of one second
    or less polls like an interval of one second. *)
Theorem pollAndDownload_attempts (w : World) (i t : Z) :
  (exists r n, pollAndDownload true w i t = Finished r
               /\ (r = Complete n \/ r = TimedOut n)
               /\ (t <= 0 -> r = TimedOut 0)
               /\ (0 < t ->
                   (1 <= n)%nat
                   /\ (i * 1000 <= 2147483647 ->
                       (Z.of_nat n - 1) * Z.max 1000 (i * 1000) < t * 1000)
                   /\ (2147483647 < i * 1000 -> Z.of_nat n - 1 < t * 1000)))
  /\ (i <= 1 -> pollAndDownload true w i t = pollAndDownload true w 1 t).
Proof.
  split.
  - destruct (pollAndDownload_ends w i t) as (r & Hr & Hends).
    exists r, (match r with Complete n | TimedOut n => n end).
    split; [exact Hr|]. split; [destruct r; [now left | now right]|]. split.
    + intros Ht. unfold pollAndDownload in Hr. cbn [negb pollLoop] in Hr.
      destruct (0 <? t * 1000) eqn:E; [apply Z.ltb_lt in E; lia|]. congruence.
    + intros Ht.
      assert (Hbound : (1 <= match r with Complete n | TimedOut n => n end)%nat
                       /\ (Z.of_nat (match r with Complete n | TimedOut n => n end) - 1)
                          * timerMs (pauseMs i) < t * 1000).
      { destruct r as [n|n]; cbn [Ends] in *.
        - destruct Hends as (m & -> & _ & _ & Hlt). split; [lia|].
          pose proof (Hlt m (le_n m)) as Hm. pose proof (elapsedAt_pauses w i m). lia.
        - destruct Hends as (_ & Hlt & Hge). destruct n as [|n].
          + cbn [elapsedAt] in Hge. lia.
          + split; [lia|]. pose proof (Hlt n (Nat.lt_succ_diag_r n)) as Hm.
            pose proof (elapsedAt_pauses w i n). lia. }
      destruct Hbound as [H1 Hb]. split; [exact H1|]. split.
      * intros Hi. rewrite timerMs_in_range in Hb; [exact Hb|].
        pose proof (pauseMs_ge i). unfold pauseMs in *. lia.
      * intros Hi. rewrite timerMs_above in Hb; [lia|]. unfold pauseMs. lia.
  - intros Hi. unfold pollAndDownload. cbn [negb].
    rewrite (pollLoop_interval w i 1 t); [reflexivity|]. unfold pauseMs. lia.
Qed.

Lemma pollLoop_presence (w w' : World) (i t : Z) (fuel : nat) :
  (forall k, outputsSeen (w k) = outputsSeen (w' k)) ->
  (forall k, fetchMs (w k) = fetchMs (w' k)) ->
  (forall k, timerLateMs (w k) = timerLateMs (w' k)) ->
  forall k e, pollLoop fuel w i t k e = pollLoop fuel w' i t k e.
Proof.
  intros Hseen Hf Hl. induction fuel as [|fuel IH]; intros k e; [reflexivity|].
  cbn [pollLoop]. destruct (e <? t * 1000); [|reflexivity].
  specialize (Hseen k). unfold outputsSeen in Hseen. rewrite <- (Hf k), <- (Hl k).
  destruct (fetch (w k)) as [| |[|x items]], (fetch (w' k)) as [| |[|x' items']];
    try discriminate; try reflexivity; apply IH.
Qed.

(** X22: a session sees only whether outputs are there.  Two environments
    whose attempts take the same time and agree, attempt by attempt, on
    whether the folder holds anything end the session alike: a fetch that
    is rejected, a folder that cannot be listed and an empty folder are
    not told apart, and neither are two folders that are not empty. *)
Theorem pollAndDownload_sees_presence_only (setupOk : bool) (w w' : World) (i t : Z) :
  (forall k, outputsSeen (w k) = outputsSeen (w' k)) ->
  (forall k, fetchMs (w k) = fetchMs (w' k)) ->
  (forall k, timerLateMs (w k) = timerLateMs (w' k)) ->
  pollAndDownload setupOk w i t = pollAndDownload setupOk w' i t.
Proof.
  intros Hseen Hf Hl. unfold pollAndDownload. destruct setupOk; [|reflexivity].
  cbn [negb]. now rewrite (pollLoop_presence w w' i t _ Hseen Hf Hl).
Qed.

Lemma pollAndDownload_presence_witness :
  pollAndDownload true failingStub 10 25 = pollAndDownload true (emptyStub 0) 10 25.
Proof.
  apply pollAndDownload_sees_presence_only; intros k; reflexivity.
Defined.

End PollBounds.

(** ** The history of runs *)

Module HistoryProps.
Import Csv CsvProps Submit SubmitProps Runs RunsProps History.

Lemma recordAll_some (runs : list Run) (old : string) :
  recordAll runs (Some old) = Some (old +:+ logText runs).
Proof.
  revert old. induction runs as [|r rs IH]; intros old.
  - simpl. now rewrite app_nil_r_str.
  - cbn [recordAll fold_left] in *. unfold logRun at 2. cbn [appendFile].
    rewrite IH. cbn [logText fold_right]. now rewrite app_assoc_str.
Qed.

Lemma recordAll_none (r : Run) (rs : list Run) :
  recordAll (r :: rs) None = Some (logText (r :: rs)).
Proof.
  cbn [recordAll fold_left]. unfold logRun at 2. cbn [appendFile].
  fold (recordAll rs (Some (runRecord (fst r) (snd r)))). now rewrite recordAll_some.
Qed.

Lemma logText_join (r : Run) (rs : list Run) :
  logText (r :: rs) = Js.join Js.lf (map lineOf (r :: rs)) +:+ Js.lf.
Proof.
  revert r. induction rs as [|r' rs IH]; intros r.
  - cbn. unfold runRecord, lineOf. now rewrite app_nil_r_str, !app_assoc_str.
  - change (logText (r :: r' :: rs))
      with (runRecord (fst r) (snd r) +:+ logText (r' :: rs)).
    rewrite IH. change (Js.join Js.lf (map lineOf (r :: r' :: rs)))
      with (lineOf r +:+ Js.lf +:+ Js.join Js.lf (map lineOf (r' :: rs))).
    unfold runRecord, lineOf. now rewrite !app_assoc_str.
Qed.

Lemma hasChar_app (c : ascii) (a b : string) :
  hasChar c (a +:+ b) = hasChar c a || hasChar c b.
Proof.
  induction a as [|d a IH]; [reflexivity|]. simpl. now rewrite IH, orb_assoc.
Qed.

Lemma noSpace_hasChar (c : ascii) (s : string) :
  Js.isSpace c = true -> noSpace s = true -> hasChar c s = false.
Proof.
  intros Hc. induction s as [|d s IH]; [reflexivity|]. simpl.
  intros H. apply andb_true_iff in H as [Hd Hs]. rewrite (IH Hs), orb_false_r.
  destruct (d =? c)%char eqn:E; [|reflexivity].
  apply Ascii.eqb_eq in E. subst d. now rewrite Hc in Hd.
Qed.

Lemma lineOf_no_break (r : Run) :
  wellFormed r = true ->
  hasChar "010" (lineOf r) = false /\ hasChar "013" (lineOf r) = false.
Proof.
  unfold wellFormed, lineOf. intros H.
  apply andb_true_iff in H as [H Hu]. apply andb_true_iff in H as [H _].
  apply andb_true_iff in H as [_ Ht].
  rewrite !hasChar_app.
  rewrite (noSpace_hasChar "010" (fst r)), (noSpace_hasChar "010" (snd r)),
    (noSpace_hasChar "013" (fst r)), (noSpace_hasChar "013" (snd r))
    by (assumption || reflexivity).
  now split.
Qed.

Lemma splitLines_single (l : string) :
  hasChar "010" l = false -> hasChar "013" l = false -> Js.splitLines l = [l].
Proof.
  induction l as [|c l IH]; [reflexivity|]. simpl. intros H1 H2.
  apply orb_false_iff in H1 as [Hc1 H1]. apply orb_false_iff in H2 as [Hc2 H2].
  rewrite Hc1, Hc2. now rewrite IH.
Qed.

Lemma splitLines_line (l rest : string) :
  hasChar "010" l = false -> hasChar "013" l = false ->
  Js.splitLines (l +:+ Js.lf +:+ rest) = l :: Js.splitLines rest.
Proof.
  induction l as [|c l IH]; [reflexivity|]. intros H1 H2. simpl in H1, H2.
  apply orb_false_iff in H1 as [Hc1 H1]. apply orb_false_iff in H2 as [Hc2 H2].
  change ((String c l) +:+ Js.lf +:+ rest) with (String c (l +:+ Js.lf +:+ rest)).
  cbn [Js.splitLines]. rewrite Hc1, Hc2. now rewrite IH.
Qed.

Lemma splitLines_join (lines : list string) :
  lines <> [] ->
  Forall (fun l => hasChar "010" l = false /\ hasChar "013" l = false) lines ->
  Js.splitLines (Js.join Js.lf lines) = lines.
Proof.
  intros Hne Hall. induction Hall as [|l ls [H1 H2] Hls IH]; [congruence|].
  destruct ls as [|l' ls'].
  - cbn [Js.join]. now apply splitLines_single.
  - change (Js.join Js.lf (l :: l' :: ls')) with (l +:+ Js.lf +:+ Js.join Js.lf (l' :: ls')).
    rewrite splitLines_line by assumption. f_equal. now apply IH.
Qed.

Lemma trimEnd_noSpace (u : string) : noSpace u = true -> Js.trimEnd u = u.
Proof.
  induction u as [|c u IH]; [reflexivity|]. simpl. intros H.
  apply andb_true_iff in H as [Hc Hu]. apply negb_true_iff in Hc.
  rewrite (IH Hu), Hc. now destruct u.
Qed.

Lemma trimEnd_app_spaces (a b : string) :
  Js.trimEnd b = EmptyString -> Js.trimEnd (a +:+ b) = Js.trimEnd a.
Proof.
  intros Hb. induction a as [|c a IH]; [exact Hb|].
  change (String c a +:+ b) with (String c (a +:+ b)). cbn [Js.trimEnd]. now rewrite IH.
Qed.

Lemma trimEnd_app_keep (a b : string) :
  Js.trimEnd b <> EmptyString -> Js.trimEnd (a +:+ b) = a +:+ Js.trimEnd b.
Proof.
  intros Hb. induction a as [|c a IH]; [reflexivity|].
  change (String c a +:+ b) with (String c (a +:+ b)). cbn [Js.trimEnd]. rewrite IH.
  destruct (a +:+ Js.trimEnd b) eqn:E.
  - destruct a; [|discriminate]. simpl in E. congruence.
  - change (String c a +:+ Js.trimEnd b) with (String c (a +:+ Js.trimEnd b)).
    now rewrite E.
Qed.

Lemma last_cons {A : Type} (l : list A) (x d : A) :
  List.last (x :: l) d = List.last l x.
Proof.
  revert x d. induction l as [|y l IH]; intros x d; [reflexivity|].
  change (List.last (x :: y :: l) d) with (List.last (y :: l) d).
  rewrite (IH y d). symmetry. exact (IH y x).
Qed.

(** The lines of a list of runs, joined by line feeds, end with the
    address of the last run. *)
Lemma join_ends (r : Run) (rs : list Run) :
  exists before, Js.join Js.lf (map lineOf (r :: rs)) = before +:+ snd (List.last rs r).
Proof.
  revert r. induction rs as [|r' rs IH]; intros r.
  - exists (fst r +:+ " | "). cbn. unfold lineOf. now rewrite !app_assoc_str.
  - destruct (IH r') as (before & Hb).
    exists (lineOf r +:+ Js.lf +:+ before).
    change (Js.join Js.lf (map lineOf (r :: r' :: rs)))
      with (lineOf r +:+ Js.lf +:+ Js.join Js.lf (map lineOf (r' :: rs))).
    rewrite Hb, !app_assoc_str. now rewrite (last_cons rs r' r).
Qed.

Lemma last_Forall {A : Type} (P : A -> Prop) (l : list A) (d : A) :
  P d -> Forall P l -> P (List.last l d).
Proof.
  intros Hd Hall. revert d Hd. induction Hall as [|x l Hx Hl IH]; intros d Hd; [exact Hd|].
  destruct l; [exact Hx|]. now apply IH.
Qed.

Lemma trim_logText (r : Run) (rs : list Run) :
  Forall (fun r => wellFormed r = true) (r :: rs) ->
  Js.trim (logText (r :: rs)) = Js.join Js.lf (map lineOf (r :: rs)).
Proof.
  intros Hall. rewrite logText_join. unfold Js.trim.
  assert (Hstart : forall rest, Js.trimStart (Js.join Js.lf (map lineOf (r :: rs)) +:+ rest)
                                = Js.join Js.lf (map lineOf (r :: rs)) +:+ rest).
  { intros rest. inversion Hall as [|? ? Hr _]; subst. unfold wellFormed in Hr.
    apply andb_true_iff in Hr as [Hr _]. apply andb_true_iff in Hr as [Hr _].
    apply andb_true_iff in Hr as [Ht Hns].
    assert (Hj : exists c s, Js.join Js.lf (map lineOf (r :: rs)) = String c s
                             /\ Js.isSpace c = false).
    { destruct r as [ts u]. cbn [fst snd] in *. destruct ts as [|c ts]; [discriminate|].
      simpl in Hns. apply andb_true_iff in Hns as [Hc _]. apply negb_true_iff in Hc.
      destruct rs; cbn; eexists _, _; (split; [reflexivity | exact Hc]). }
    destruct Hj as (c & s & -> & Hc). simpl. now rewrite Hc. }
  rewrite Hstart. rewrite trimEnd_app_spaces by reflexivity.
  destruct (join_ends r rs) as (before & ->).
  assert (Hlast : wellFormed (List.last rs r) = true).
  { inversion Hall; subst. now apply (last_Forall (fun r => wellFormed r = true)). }
  unfold wellFormed in Hlast. apply andb_true_iff in Hlast as [Hl Hns].
  apply andb_true_iff in Hl as [_ Htr].
  rewrite trimEnd_app_keep; rewrite (trimEnd_noSpace _ Hns); [reflexivity|].
  now apply truthy_true.
Qed.

Lemma lastN_map {A B : Type} (f : A -> B) (n : nat) (l : list A) :
  lastN n (map f l) = map f (lastN n l).
Proof. unfold lastN. now rewrite length_map, skipn_map. Qed.

Lemma parseLine_lineOf (r : Run) : wellFormed r = true -> parseLine (lineOf r) = itemOf r.
Proof.
  unfold wellFormed. intros H.
  apply andb_true_iff in H as [H Hu]. apply andb_true_iff in H as [H _].
  apply andb_true_iff in H as [_ Ht].
  unfold lineOf, itemOf. now apply parseLine_runRecord.
Qed.

Lemma itemsOfLog_logText (r : Run) (rs : list Run) :
  Forall (fun r => wellFormed r = true) (r :: rs) ->
  itemsOfLog (logText (r :: rs)) = map itemOf (lastN 50 (r :: rs)).
Proof.
  intros Hall. unfold itemsOfLog. rewrite trim_logText by assumption.
  rewrite splitLines_join.
  - rewrite lastN_map, map_map. apply map_ext_in. intros x Hx.
    apply parseLine_lineOf.
    apply (proj1 (List.Forall_forall _ _)) with (x := x) in Hall; [assumption|].
    unfold lastN in Hx. clear - Hx.
    revert Hx. generalize (length (r :: rs) - 50). intros n Hx.
    assert (Hincl : forall (l : list Run) n, incl (skipn n l) l).
    { clear. intros l n. rewrite <- (firstn_skipn n l) at 2. apply incl_appr, incl_refl. }
    now apply (Hincl _ n).
  - discriminate.
  - apply List.Forall_map. eapply List.Forall_impl; [|exact Hall].
    intros x Hx. now apply lineOf_no_break.
Qed.

Lemma recordAll_text (runs : list Run) :
  runs <> [] -> recordAll runs None = Some (logText runs).
Proof. destruct runs as [|r rs]; [congruence|]. intros _. apply recordAll_none. Qed.

Lemma lastN_length {A : Type} (n : nat) (l : list A) :
  length (lastN n l) = Nat.min n (length l).
Proof. unfold lastN. rewrite length_skipn. lia. Qed.

Lemma noSpace_app (a b : string) : noSpace (a +:+ b) = noSpace a && noSpace b.
Proof.
  induction a as [|c a IH]; [reflexivity|]. simpl. now rewrite IH, andb_assoc.
Qed.

Lemma isUrlChar_not_space (c : ascii) : isUrlChar c = true -> Js.isSpace c = false.
Proof.
  destruct c as [[] [] [] [] [] [] [] []]; vm_compute; intros H;
    first [reflexivity | discriminate H].
Qed.

Lemma allUrlChars_noSpace (s : string) : allUrlChars s = true -> noSpace s = true.
Proof.
  induction s as [|c s IH]; [reflexivity|]. simpl. intros H.
  apply andb_true_iff in H as [Hc Hs]. now rewrite (isUrlChar_not_space c Hc), IH.
Qed.

Lemma IsKaggleUrl_noSpace (u : string) : IsKaggleUrl u -> noSpace u = true.
Proof.
  intros (scheme & path & Hs & -> & _ & Hall).
  rewrite !noSpace_app, (allUrlChars_noSpace path Hall).
  now destruct Hs as [-> | ->].
Qed.

Section WithPlatform.
Variable Date_parse : string -> option Z.
Variable yaml_load : string -> option (option Project.KaggleYml).
Variable path_join : string -> string -> string.
Variable fsNode : string -> option Node.

Lemma getChildren_of_runs (root : string) (ymlFile : option string)
    (earlier : list Run) (r : Run) :
  Forall (fun r => wellFormed r = true) (earlier ++ [r]) ->
  exists latest,
    getChildren Date_parse yaml_load path_join fsNode (Some root)
      (recordAll (earlier ++ [r]) None) ymlFile
    = map itemOf (lastN 49 earlier) ++ [latest]
    /\ label latest = fst r /\ url latest = Some (snd r) /\ isLatest latest = true.
Proof.
  intros Hall.
  assert (Hne : earlier ++ [r] <> []) by (destruct earlier; discriminate).
  rewrite (recordAll_text _ Hne). cbn [getChildren].
  destruct (earlier ++ [r]) as [|r0 rs] eqn:E; [congruence|].
  rewrite itemsOfLog_logText by assumption. rewrite <- E.
  rewrite lastN_snoc, map_app. cbn [map]. rewrite updateLast_snoc.
  eexists. split; [reflexivity|]. now repeat split.
Qed.

(** X23: the view of the runs reads back what [logRun] wrote.  For a log
    made by recording runs one after the other, each with a time stamp and
    an address that are not empty and hold no white space, the view
    shows the last fifty runs in the order they were recorded, each under
    its time stamp and with its address, and marks the last one as the
    latest. *)
Theorem runs_view_reads_back_log (root : string) (ymlFile : option string)
    (runs : list Run) :
  runs <> [] ->
  Forall (fun r => wellFormed r = true) runs ->
  let shown := getChildren Date_parse yaml_load path_join fsNode (Some root)
                 (recordAll runs None) ymlFile in
  map label shown = map fst (lastN 50 runs)
  /\ map url shown = map (fun r => Some (snd r)) (lastN 50 runs)
  /\ length shown = Nat.min 50 (length runs)
  /\ exists earlier latest,
       shown = earlier ++ [latest]
       /\ Forall (fun it => status it = None /\ isLatest it = false) earlier
       /\ isLatest latest = true.
Proof.
  intros Hne Hall. cbv zeta.
  destruct (exists_last Hne) as (earlier & r & ->).
  destruct (getChildren_of_runs root ymlFile earlier r Hall)
    as (latest & -> & Hlabel & Hurl & Hlatest).
  rewrite lastN_snoc, !map_app, !map_map. cbn [map]. rewrite Hlabel, Hurl.
  split; [reflexivity|]. split; [reflexivity|]. split.
  - rewrite !length_app, length_map, lastN_length. cbn [length]. lia.
  - exists (map itemOf (lastN 49 earlier)), latest. split; [reflexivity|].
    split; [|assumption]. apply List.Forall_map, List.Forall_forall. now intros x _.
Qed.

(** X24: a run that was pushed shows up in the view.  When the output of
    the push holds an address of a run, the log that [kaggle.pushRun]
    leaves is read by the view with that run as its last and latest item,
    under the time stamp of the push and with the address that was found,
    after the runs recorded before. *)
Theorem pushed_run_is_latest_in_view (root ts u : string) (ymlFile : option string)
    (res : ExecResult) (before : list Run) :
  Forall (fun r => wellFormed r = true) before ->
  ts <> EmptyString -> noSpace ts = true ->
  FirstMatch (stdout res) u ->
  exists latest,
    getChildren Date_parse yaml_load path_join fsNode (Some root)
      (fst (pushRun ts (Some res) (recordAll before None))) ymlFile
    = map itemOf (lastN 49 before) ++ [latest]
    /\ label latest = ts /\ url latest = Some u /\ isLatest latest = true
    /\ snd (pushRun ts (Some res) (recordAll before None)) = RunTriggered u.
Proof.
  intros Hbefore Hts Hns Hmatch.
  pose proof Hmatch as (_ & _ & _ & Hurl & _).
  apply firstKaggleUrl_iff in Hmatch.
  pose proof (IsKaggleUrl_truthy u Hurl) as Htruthy.
  pose proof (IsKaggleUrl_noSpace u Hurl) as Hunosp.
  assert (Hlog : fst (pushRun ts (Some res) (recordAll before None))
                 = recordAll (before ++ [(ts, u)]) None
                 /\ snd (pushRun ts (Some res) (recordAll before None)) = RunTriggered u).
  { unfold pushRun, recordPush. rewrite Hmatch, Htruthy. cbn [fst snd].
    unfold recordAll. now rewrite fold_left_app. }
  destruct Hlog as [-> ->].
  destruct (getChildren_of_runs root ymlFile before (ts, u)) as (latest & Hshown & Hrest).
  - apply List.Forall_app. split; [assumption|]. constructor; [|constructor].
    unfold wellFormed. cbn [fst snd]. apply truthy_true in Hts.
    now rewrite Hts, Hns, Htruthy, Hunosp.
  - exists latest. split; [exact Hshown|]. destruct Hrest as (Hl & Hu & Hi).
    now repeat split.
Qed.

End WithPlatform.

Lemma runs_view_witness :
  map label (getChildren sampleDate sampleYaml sampleJoin sampleFs (Some "/w")
               (recordAll [("2024-04-30T09:00:00.000Z", "https://www.kaggle.com/code/bob/old");
                           (sampleStamp, "https://www.kaggle.com/code/bob/my-run")] None)
               None)
  = ["2024-04-30T09:00:00.000Z"; sampleStamp].
Proof.
  refine (proj1 (runs_view_reads_back_log sampleDate sampleYaml sampleJoin sampleFs
                   "/w" None
                   [("2024-04-30T09:00:00.000Z", "https://www.kaggle.com/code/bob/old");
                    (sampleStamp, "https://www.kaggle.com/code/bob/my-run")] _ _)).
  - discriminate.
  - repeat constructor.
Defined.

Lemma pushed_run_witness :
  exists latest,
    getChildren sampleDate sampleYaml sampleJoin sampleFs (Some "/w")
      (fst (pushRun sampleStamp (Some urlOnStdout) None)) None
    = [latest]
    /\ label latest = sampleStamp
    /\ url latest = Some "https://www.kaggle.com/code/bob/my-run".
Proof.
  destruct (pushed_run_is_latest_in_view sampleDate sampleYaml sampleJoin sampleFs
              "/w" sampleStamp "https://www.kaggle.com/code/bob/my-run" None
              urlOnStdout [])
    as (latest & Hshown & Hlabel & Hurl & _).
  - constructor.
  - discriminate.
  - reflexivity.
  - apply firstKaggleUrl_iff. reflexivity.
  - exists latest. split; [exact Hshown | split; [exact Hlabel | exact Hurl]].
Defined.

End HistoryProps.
